(** * tune-in-claude: a shallow embedding of the wrapper and its playback back ends

    The development follows the TypeScript sources file by file:
    - [SpotifyNative] : src/spotify-native.ts (OS-native player commands),
    - [Spotify]       : src/spotify.ts with src/config.ts (remote API tokens),
    - [ClaudeWrapper] : src/claude-wrapper.ts (hook injection, the keystroke
      engine, the exit paths).

    What the sources take from their platform is modelled next to them:
    [Json] (the documents of [JSON.parse] and the text of [JSON.stringify]),
    [BufferText] (the text of a buffer), [JsonText] (a reader to run the
    model on concrete files) and [HookShell] (the shell that runs a hook
    command).  [Notions] and [Samples] hold the vocabulary and the concrete
    inputs of the statements.

    Definitions come first, the properties after. *)

From Stdlib Require Import ZArith List Bool Lia String Ascii.
From Stdlib Require Import DecimalString DecimalN.
Import ListNotations.
Open Scope Z_scope.
Set Warnings "-register-all".

(** ** Exceptions

    A JavaScript call either returns or throws.  [Throw] carries the message. *)

Inductive result (A : Type) : Type :=
| Ok (a : A)
| Throw (msg : string).
Arguments Ok {A} a.
Arguments Throw {A} msg.

Definition bind {A B} (r : result A) (k : A -> result B) : result B :=
  match r with
  | Ok a => k a
  | Throw m => Throw m
  end.

(** [try { body } catch { handler }] *)
Definition try_catch {A} (body : result A) (handler : string -> result A) : result A :=
  match body with
  | Ok a => Ok a
  | Throw m => handler m
  end.

Notation "x <- c1 ;; c2" := (bind c1 (fun x => c2))
  (at level 61, c1 at next level, right associativity).

(** [process.platform], as far as the sources look at it. *)
Inductive platform := Darwin | Win32 | OtherPlatform.

Definition is_darwin (p : platform) : bool :=
  match p with Darwin => true | _ => false end.

Definition is_win32 (p : platform) : bool :=
  match p with Win32 => true | _ => false end.

(** ** src/spotify-native.ts *)

Module SpotifyNative.

(** A JavaScript string is a sequence of UTF-16 code units; [indexOf] and
    [slice] count in those units. *)
Definition jsstring := list Z.

(** WhiteSpace and LineTerminator code units, the ones [trim] removes. *)
Definition isWhiteSpace (c : Z) : bool :=
  ((9 <=? c) && (c <=? 13)) || (c =? 32) || (c =? 160) || (c =? 5760)
  || ((8192 <=? c) && (c <=? 8202)) || (c =? 8232) || (c =? 8233)
  || (c =? 8239) || (c =? 8287) || (c =? 12288) || (c =? 65279).

Fixpoint trimStart (s : jsstring) : jsstring :=
  match s with
  | c :: rest => if isWhiteSpace c then trimStart rest else s
  | [] => []
  end.

Definition trimEnd (s : jsstring) : jsstring := rev (trimStart (rev s)).

Definition trim (s : jsstring) : jsstring := trimEnd (trimStart s).

Fixpoint startsWith (s sub : jsstring) : bool :=
  match sub, s with
  | [], _ => true
  | _ :: _, [] => false
  | a :: sub', b :: s' => (a =? b) && startsWith s' sub'
  end.

(** [s.indexOf(sub)]: the least position at which [sub] occurs, -1 if none. *)
Fixpoint indexOf (s sub : jsstring) : Z :=
  if startsWith s sub then 0
  else match s with
       | [] => -1
       | _ :: rest =>
           let i := indexOf rest sub in
           if i =? -1 then -1 else i + 1
       end.

(** [s.slice(from, to)] and [s.slice(from)] for indices in range. *)
Definition slice (s : jsstring) (from to : Z) : jsstring :=
  firstn (Z.to_nat (to - from)) (skipn (Z.to_nat from) s).

Definition sliceFrom (s : jsstring) (from : Z) : jsstring :=
  skipn (Z.to_nat from) s.

(** The separator [' — ']: space, U+2014, space. *)
Definition trackSeparator : jsstring := [32; 8212; 32].

Record track := { name : jsstring; artist : jsstring }.

(** What the shell gives back for a command: its standard output, or a
    rejected promise.  The player is outside the program, so every function
    that runs a command takes this as a parameter. *)
Definition shell := string -> result jsstring.

Definition currentTrackScript : string :=
  "osascript -e 'tell application " ++ String (ascii_of_nat 34) "Spotify"
  ++ String (ascii_of_nat 34) " to (get name of current track) & "
  ++ String (ascii_of_nat 34) (String (ascii_of_nat 32)
       (String (ascii_of_nat 226) (String (ascii_of_nat 128)
         (String (ascii_of_nat 148) (String (ascii_of_nat 32)
           (String (ascii_of_nat 34) " & (get artist of current track)'"))))))%string.

(** [getCurrentTrack].  The body of the [try] either returns a track
    ([Some]) or falls through ([None]); whatever is thrown inside is caught
    and falls through as well, to the final [return null]. *)
Definition getCurrentTrack (p : platform) (execAsync : shell)
  : result (option track) :=
  r <- try_catch
         (if is_darwin p then
            stdout <- execAsync currentTrackScript ;;
            let trimmed := trim stdout in
            let sepIdx := indexOf trimmed trackSeparator in
            if negb (sepIdx =? -1) then
              Ok (Some {| name := slice trimmed 0 sepIdx;
                          artist := sliceFrom trimmed (sepIdx + 3) |})
            else Ok None
          else Ok None)
         (fun _ => Ok None) ;;
  match r with
  | Some t => Ok (Some t)
  | None => Ok None
  end.

End SpotifyNative.

(** ** src/config.ts and src/spotify.ts *)

Module Spotify.

(** [interface Config]: every field may be missing. *)
Record Config := {
  accessToken : option string;
  refreshToken : option string;
  expiresAt : option Z
}.

Definition emptyConfig : Config :=
  {| accessToken := None; refreshToken := None; expiresAt := None |}.

(** The config file: absent, or holding a [Config]. *)
Definition store := option Config.

Definition loadConfig (file : store) : Config :=
  match file with
  | Some c => c
  | None => emptyConfig
  end.

Definition saveConfig (config : Config) : store := Some config.

(** [!s] for an optional string: undefined and the empty string are falsy. *)
Definition notString (s : option string) : bool :=
  match s with
  | None => true
  | Some EmptyString => true
  | Some (String _ _) => false
  end.

(** [!n] for an optional number: undefined and 0 are falsy. *)
Definition notNumber (n : option Z) : bool :=
  match n with
  | None => true
  | Some k => k =? 0
  end.

(** The token endpoint: given the refresh token, the [access_token] and
    [expires_in] of the response, or a rejected request. *)
Definition tokenEndpoint := string -> result (string * Z).

(** [refreshAccessToken], with [nowAfter] the value of [Date.now()] once the
    response is in.  The second component is the config file afterwards. *)
Definition refreshAccessToken (file : store) (nowAfter : Z) (post : tokenEndpoint)
  : result string * store :=
  let config := loadConfig file in
  if notString (refreshToken config) then
    (Throw "No refresh token available. Please run: tune-in auth", file)
  else
    match refreshToken config with
    | None => (Throw "No refresh token available. Please run: tune-in auth", file)
    | Some rt =>
        match post rt with
        | Throw m => (Throw m, file)
        | Ok (access_token, expires_in) =>
            let config' := {| accessToken := Some access_token;
                              refreshToken := refreshToken config;
                              expiresAt := Some (nowAfter + expires_in * 1000) |} in
            (Ok access_token, saveConfig config')
        end
    end.

(** [config.expiresAt < Date.now() + 5 * 60 * 1000]; only looked at when
    [expiresAt] is a number. *)
Definition expiresSoon (e : option Z) (now : Z) : bool :=
  match e with
  | Some k => k <? now + 5 * 60 * 1000
  | None => false
  end.

Definition getValidAccessToken (file : store) (now nowAfter : Z) (post : tokenEndpoint)
  : result string * store :=
  let config := loadConfig file in
  if notString (accessToken config) || notString (refreshToken config) then
    (Throw "Not authenticated. Please run: tune-in auth", file)
  else if notNumber (expiresAt config) || expiresSoon (expiresAt config) now then
    refreshAccessToken file nowAfter post
  else
    match accessToken config with
    | Some tok => (Ok tok, file)
    | None => (Throw "Not authenticated. Please run: tune-in auth", file)
    end.

(** How a PUT on the player API ends. *)
Inductive httpOutcome :=
| Http2xx
| HttpStatus (status : Z)
| HttpNoResponse.

(** A request as the API sees it: the URL and the bearer token. *)
Definition request := (string * string)%type.

Definition playerApi := request -> httpOutcome.

Definition playUrl : string := "https://api.spotify.com/v1/me/player/play".
Definition pauseUrl : string := "https://api.spotify.com/v1/me/player/pause".

(** What a playback call leaves behind. *)
Record outcome := {
  returned : result unit;
  configFile : store;
  sent : list request;
  warned : list string
}.

Definition playSpotify (file : store) (now nowAfter : Z)
           (post : tokenEndpoint) (put : playerApi) : outcome :=
  match getValidAccessToken file now nowAfter post with
  | (Throw m, file') =>
      {| returned := Throw m; configFile := file'; sent := []; warned := [] |}
  | (Ok token, file') =>
      let req := (playUrl, token) in
      match put req with
      | Http2xx =>
          {| returned := Ok tt; configFile := file'; sent := [req]; warned := [] |}
      | HttpStatus status =>
          if status =? 404 then
            {| returned := Ok tt; configFile := file'; sent := [req];
               warned := ["No active Spotify device found. Please open Spotify on any device."%string] |}
          else if status =? 403 then
            {| returned := Ok tt; configFile := file'; sent := [req];
               warned := ["Cannot play - Spotify Premium required."%string] |}
          else
            {| returned := Throw "request failed"; configFile := file';
               sent := [req]; warned := [] |}
      | HttpNoResponse =>
          {| returned := Throw "request failed"; configFile := file';
             sent := [req]; warned := [] |}
      end
  end.

Definition pauseSpotify (file : store) (now nowAfter : Z)
           (post : tokenEndpoint) (put : playerApi) : outcome :=
  match getValidAccessToken file now nowAfter post with
  | (Throw m, file') =>
      {| returned := Throw m; configFile := file'; sent := []; warned := [] |}
  | (Ok token, file') =>
      let req := (pauseUrl, token) in
      match put req with
      | Http2xx =>
          {| returned := Ok tt; configFile := file'; sent := [req]; warned := [] |}
      | HttpStatus status =>
          if status =? 404 then
            {| returned := Ok tt; configFile := file'; sent := [req]; warned := [] |}
          else if status =? 403 then
            {| returned := Ok tt; configFile := file'; sent := [req]; warned := [] |}
          else
            {| returned := Throw "request failed"; configFile := file';
               sent := [req]; warned := [] |}
      | HttpNoResponse =>
          {| returned := Throw "request failed"; configFile := file';
             sent := [req]; warned := [] |}
      end
  end.

End Spotify.

(** ** JSON documents

    The values [JSON.parse] produces and [JSON.stringify] prints.  A number is
    kept as the text JavaScript prints for it, a string as its UTF-8 bytes,
    and an object as its properties in enumeration order. *)

Module Json.
Local Open Scope string_scope.

Inductive json :=
| JNull
| JBool (b : bool)
| JNum (repr : string)
| JStr (s : string)
| JArr (items : list json)
| JObj (props : list (string * json)).

Definition dq : string := String (ascii_of_nat 34) EmptyString.
Definition nl : string := String (ascii_of_nat 10) EmptyString.
Definition backslash : string := String (ascii_of_nat 92) EmptyString.

Definition hexDigit (n : nat) : ascii :=
  nth n (list_ascii_of_string "0123456789abcdef") "0"%char.

(** QuoteJSONString, one character at a time. *)
Definition escapeChar (c : ascii) : string :=
  let n := nat_of_ascii c in
  if (n =? 34)%nat then backslash ++ dq
  else if (n =? 92)%nat then backslash ++ backslash
  else if (n =? 8)%nat then backslash ++ "b"
  else if (n =? 12)%nat then backslash ++ "f"
  else if (n =? 10)%nat then backslash ++ "n"
  else if (n =? 13)%nat then backslash ++ "r"
  else if (n =? 9)%nat then backslash ++ "t"
  else if (n <? 32)%nat then
    backslash ++ "u00"
      ++ String (hexDigit (n / 16)) (String (hexDigit (n mod 16)) EmptyString)
  else String c EmptyString.

Fixpoint escape (s : string) : string :=
  match s with
  | EmptyString => EmptyString
  | String c rest => escapeChar c ++ escape rest
  end.

Definition quote (s : string) : string := dq ++ escape s ++ dq.

Fixpoint join (sep : string) (l : list string) : string :=
  match l with
  | [] => EmptyString
  | [x] => x
  | x :: rest => x ++ sep ++ join sep rest
  end.

(** SerializeJSONProperty with a non-empty [gap]: [indent] is the current
    indentation, one [gap] deeper inside each array and object. *)
Fixpoint serialize (gap indent : string) (v : json) : string :=
  match v with
  | JNull => "null"
  | JBool b => if b then "true" else "false"
  | JNum repr => repr
  | JStr s => quote s
  | JArr items =>
      match items with
      | [] => "[]"
      | _ :: _ =>
          let inner := indent ++ gap in
          "[" ++ nl ++ inner
          ++ join ("," ++ nl ++ inner) (map (serialize gap inner) items)
          ++ nl ++ indent ++ "]"
      end
  | JObj props =>
      match props with
      | [] => "{}"
      | _ :: _ =>
          let inner := indent ++ gap in
          "{" ++ nl ++ inner
          ++ join ("," ++ nl ++ inner)
               (map (fun kv => quote (fst kv) ++ ": " ++ serialize gap inner (snd kv))
                    props)
          ++ nl ++ indent ++ "}"
      end
  end.

(** [JSON.stringify(obj, null, 2)] *)
Definition stringify2 (obj : json) : string := serialize "  " EmptyString obj.

(** [obj[k]], [undefined] when there is no such property. *)
Fixpoint getProp (k : string) (props : list (string * json)) : option json :=
  match props with
  | [] => None
  | (k', v) :: rest => if String.eqb k k' then Some v else getProp k rest
  end.

(** [obj[k] = v]: an existing property keeps its place, a new one goes last
    (the keys used here are not array indices). *)
Fixpoint setProp (k : string) (v : json) (props : list (string * json))
  : list (string * json) :=
  match props with
  | [] => [(k, v)]
  | (k', v') :: rest =>
      if String.eqb k k' then (k, v) :: rest else (k', v') :: setProp k v rest
  end.

(** [x ?? d] *)
Definition nullish (x : option json) (d : json) : json :=
  match x with
  | None => d
  | Some JNull => d
  | Some v => v
  end.

(** [JSON.parse(JSON.stringify(v))] on a parsed document: a copy that
    shares nothing with [v].  Values here are immutable trees, so the copy
    is the tree itself; what the code gains from the copy, that pushing into
    the copy leaves [v] alone, holds of every value. *)
Definition deepClone (v : json) : json := v.

(** [JSON.parse]: the document, or [None] for a SyntaxError. *)
Definition parser := string -> option json.

End Json.

(** ** The text of a buffer

    [buf.toString()]: the UTF-8 decoding of the bytes of a buffer into a
    string, given by its UTF-16 code units.  Each ill-formed sequence gives
    U+FFFD, one for each maximal part of it that starts a well-formed
    sequence and one for each byte that starts none; a sequence cut short by
    the end of the buffer gives one U+FFFD.  Nothing is kept from one buffer
    to the next. *)

Module BufferText.

(** The code units of a code point: itself, or a surrogate pair. *)
Definition codeUnits (cp : Z) : list Z :=
  if cp <? 65536 then [cp]
  else [55296 + (cp - 65536) / 1024; 56320 + (cp - 65536) mod 1024].

(** Between two sequences, or inside one: [needed] continuation bytes are
    still to come, [cp] holds the bits read so far, and the next byte has to
    lie between [lower] and [upper]. *)
Inductive state :=
| Start
| Need (needed : nat) (cp lower upper : Z).

(** A byte read between two sequences: what it gives at once, and the
    state it leaves. *)
Definition lead (b : Z) : list Z * state :=
  if b <=? 127 then ([b], Start)
  else if (194 <=? b) && (b <=? 223) then ([], Need 1 (b - 192) 128 191)
  else if (224 <=? b) && (b <=? 239) then
    ([], Need 2 (b - 224) (if b =? 224 then 160 else 128) (if b =? 237 then 159 else 191))
  else if (240 <=? b) && (b <=? 244) then
    ([], Need 3 (b - 240) (if b =? 240 then 144 else 128) (if b =? 244 then 143 else 191))
  else ([65533], Start).

Fixpoint decode (st : state) (bytes : list Z) : list Z :=
  match bytes with
  | [] =>
      match st with
      | Start => []
      | Need _ _ _ _ => [65533]
      end
  | b :: rest =>
      match st with
      | Start => fst (lead b) ++ decode (snd (lead b)) rest
      | Need needed cp lower upper =>
          if (lower <=? b) && (b <=? upper) then
            match needed with
            | S (S n) => decode (Need (S n) (cp * 64 + (b - 128)) 128 191) rest
            | _ => codeUnits (cp * 64 + (b - 128)) ++ decode Start rest
            end
          else 65533 :: fst (lead b) ++ decode (snd (lead b)) rest
      end
  end.

Definition toString (data : list Z) : list Z := decode Start data.

End BufferText.

(** ** src/claude-wrapper.ts *)

Module ClaudeWrapper.
Import Json.
Local Open Scope string_scope.

(** How many printable chars before music plays while typing *)
Definition TYPING_PLAY_THRESHOLD : Z := 3.
(** How long to pause before music stops when you stop typing *)
Definition TYPING_IDLE_MS : Z := 6000.

(** *** Hook commands *)

Definition spotifyPlayCmd (p : platform) (pidFile : string) : string :=
  let guard := "[ " ++ dq ++ "$(cat '" ++ pidFile ++ "' 2>/dev/null)" ++ dq
               ++ " = " ++ dq ++ "$PPID" ++ dq ++ " ] && " in
  if is_darwin p then
    guard ++ "osascript -e 'tell application " ++ dq ++ "Spotify" ++ dq ++ " to play'"
  else if is_win32 p then
    guard ++ "powershell -command " ++ dq
          ++ "(New-Object -ComObject WMPlayer.OCX.7).controls.play()" ++ dq
  else
    guard ++ "dbus-send --print-reply --dest=org.mpris.MediaPlayer2.spotify /org/mpris/MediaPlayer2 org.mpris.MediaPlayer2.Player.Play".

Definition spotifyPauseCmd (p : platform) (pidFile : string) : string :=
  let guard := "[ " ++ dq ++ "$(cat '" ++ pidFile ++ "' 2>/dev/null)" ++ dq
               ++ " = " ++ dq ++ "$PPID" ++ dq ++ " ] && " in
  if is_darwin p then
    guard ++ "osascript -e 'tell application " ++ dq ++ "Spotify" ++ dq ++ " to pause'"
  else if is_win32 p then
    guard ++ "powershell -command " ++ dq
          ++ "(New-Object -ComObject WMPlayer.OCX.7).controls.pause()" ++ dq
  else
    guard ++ "dbus-send --print-reply --dest=org.mpris.MediaPlayer2.spotify /org/mpris/MediaPlayer2 org.mpris.MediaPlayer2.Player.Pause".

(** *** The settings file

    The file is absent ([None]) or holds text.  Writing is taken to succeed. *)

Definition readSettings (parse : parser) (file : option string) : json :=
  match file with
  | None => JObj []
  | Some text =>
      match parse text with
      | Some v => v
      | None => JObj []
      end
  end.

Definition writeSettings (obj : json) : option string := Some (stringify2 obj).

(** [{ _tuneIn: true, hooks: [{ type: 'command', command }] }] *)
Definition hookGroup (command : string) : json :=
  JObj [("_tuneIn"%string, JBool true);
        ("hooks"%string,
         JArr [JObj [("type"%string, JStr "command"); ("command"%string, JStr command)]])].

(** [hooks[event] = hooks[event] ?? []; hooks[event].push(group)] on the
    value held in [updated.hooks].  A named property put on an array is
    kept by the array but never printed, so an array comes out as it went
    in; on a primitive the assignment throws (module code is strict), and
    so does [push] on anything that is not an array. *)
Definition pushGroup (event : string) (group : json) (hooks : json) : result json :=
  match hooks with
  | JObj props =>
      match nullish (getProp event props) (JArr []) with
      | JArr items => Ok (JObj (setProp event (JArr (items ++ [group])%list) props))
      | _ => Throw "push is not a function"
      end
  | JArr _ => Ok hooks
  | _ => Throw "Cannot create property on a primitive"
  end.

(** [injectHooks]: the snapshot and the settings file as written, or the
    TypeError of a document that does not have the expected shape (the file
    is then left as it was). *)
Definition injectHooks (parse : parser) (p : platform) (noPause : bool)
           (pidFile : string) (file : option string)
  : result (json * option string) :=
  let original := readSettings parse file in
  let updated := deepClone original in
  match updated with
  | JObj props =>
      let hooks0 := nullish (getProp "hooks" props) (JObj []) in
      hooks1 <- pushGroup "PreToolUse" (hookGroup (spotifyPlayCmd p pidFile)) hooks0 ;;
      hooks3 <- (if negb noPause then
                   hooks2 <- pushGroup "Stop" (hookGroup (spotifyPauseCmd p pidFile)) hooks1 ;;
                   pushGroup "Notification" (hookGroup (spotifyPauseCmd p pidFile)) hooks2
                 else Ok hooks1) ;;
      Ok (original, writeSettings (JObj (setProp "hooks" hooks3 props)))
  | JArr _ => Ok (original, writeSettings updated)
  | JNull => Throw "Cannot read properties of null"
  | _ => Throw "Cannot create property on a primitive"
  end.

Definition restoreHooks (original : json) : option string := writeSettings original.

(** *** The session

    What [main] fixes before the handlers are installed. *)
Record Options := {
  noPauseMode : bool;
  spotifyAvailable : bool;
  stdinIsTTY : bool
}.

(** The place a play or pause call is made from. *)
Inductive site := Launch | Enter | TypingPlay | IdleTimer | Cleanup.

(** A call of [playSpotifyNative] or [pauseSpotifyNative]. *)
Inductive signal :=
| Play (from : site)
| Pause (from : site).

(** The variables of [main] and the part of the world its handlers touch:
    the event loop's clock and pending timeouts, the two files, the terminal
    mode, the strings given to [claude.write], the calls made to the player.
    [awaiting] holds the exit codes of the handlers stopped at the [await]
    in [cleanup]; [cleanupRuns] counts the calls of [cleanup]. *)
Record Session := {
  firstMessageSent : bool;
  charCount : Z;
  typingTimer : option nat;
  originalSettings : json;
  clock : Z;
  timeouts : list (nat * Z);
  nextHandle : nat;
  settingsFile : option string;
  pidFile : option string;
  rawMode : bool;
  ptyInput : list (list Z);
  childKills : nat;
  signals : list signal;
  cleanupRuns : nat;
  awaiting : list Z;
  exited : option Z
}.

Definition set_firstMessageSent (b : bool) (s : Session) : Session :=
  {| firstMessageSent := b; charCount := charCount s; typingTimer := typingTimer s;
     originalSettings := originalSettings s; clock := clock s; timeouts := timeouts s;
     nextHandle := nextHandle s; settingsFile := settingsFile s; pidFile := pidFile s;
     rawMode := rawMode s; ptyInput := ptyInput s; childKills := childKills s;
     signals := signals s; cleanupRuns := cleanupRuns s; awaiting := awaiting s;
     exited := exited s |}.

Definition set_charCount (n : Z) (s : Session) : Session :=
  {| firstMessageSent := firstMessageSent s; charCount := n; typingTimer := typingTimer s;
     originalSettings := originalSettings s; clock := clock s; timeouts := timeouts s;
     nextHandle := nextHandle s; settingsFile := settingsFile s; pidFile := pidFile s;
     rawMode := rawMode s; ptyInput := ptyInput s; childKills := childKills s;
     signals := signals s; cleanupRuns := cleanupRuns s; awaiting := awaiting s;
     exited := exited s |}.

Definition set_typingTimer (t : option nat) (s : Session) : Session :=
  {| firstMessageSent := firstMessageSent s; charCount := charCount s; typingTimer := t;
     originalSettings := originalSettings s; clock := clock s; timeouts := timeouts s;
     nextHandle := nextHandle s; settingsFile := settingsFile s; pidFile := pidFile s;
     rawMode := rawMode s; ptyInput := ptyInput s; childKills := childKills s;
     signals := signals s; cleanupRuns := cleanupRuns s; awaiting := awaiting s;
     exited := exited s |}.

Definition set_clock (t : Z) (s : Session) : Session :=
  {| firstMessageSent := firstMessageSent s; charCount := charCount s;
     typingTimer := typingTimer s;
     originalSettings := originalSettings s; clock := t; timeouts := timeouts s;
     nextHandle := nextHandle s; settingsFile := settingsFile s; pidFile := pidFile s;
     rawMode := rawMode s; ptyInput := ptyInput s; childKills := childKills s;
     signals := signals s; cleanupRuns := cleanupRuns s; awaiting := awaiting s;
     exited := exited s |}.

Definition set_timeouts (l : list (nat * Z)) (s : Session) : Session :=
  {| firstMessageSent := firstMessageSent s; charCount := charCount s;
     typingTimer := typingTimer s;
     originalSettings := originalSettings s; clock := clock s; timeouts := l;
     nextHandle := nextHandle s; settingsFile := settingsFile s; pidFile := pidFile s;
     rawMode := rawMode s; ptyInput := ptyInput s; childKills := childKills s;
     signals := signals s; cleanupRuns := cleanupRuns s; awaiting := awaiting s;
     exited := exited s |}.

Definition set_nextHandle (h : nat) (s : Session) : Session :=
  {| firstMessageSent := firstMessageSent s; charCount := charCount s;
     typingTimer := typingTimer s;
     originalSettings := originalSettings s; clock := clock s; timeouts := timeouts s;
     nextHandle := h; settingsFile := settingsFile s; pidFile := pidFile s;
     rawMode := rawMode s; ptyInput := ptyInput s; childKills := childKills s;
     signals := signals s; cleanupRuns := cleanupRuns s; awaiting := awaiting s;
     exited := exited s |}.

Definition set_settingsFile (f : option string) (s : Session) : Session :=
  {| firstMessageSent := firstMessageSent s; charCount := charCount s;
     typingTimer := typingTimer s;
     originalSettings := originalSettings s; clock := clock s; timeouts := timeouts s;
     nextHandle := nextHandle s; settingsFile := f; pidFile := pidFile s;
     rawMode := rawMode s; ptyInput := ptyInput s; childKills := childKills s;
     signals := signals s; cleanupRuns := cleanupRuns s; awaiting := awaiting s;
     exited := exited s |}.

Definition set_pidFile (f : option string) (s : Session) : Session :=
  {| firstMessageSent := firstMessageSent s; charCount := charCount s;
     typingTimer := typingTimer s;
     originalSettings := originalSettings s; clock := clock s; timeouts := timeouts s;
     nextHandle := nextHandle s; settingsFile := settingsFile s; pidFile := f;
     rawMode := rawMode s; ptyInput := ptyInput s; childKills := childKills s;
     signals := signals s; cleanupRuns := cleanupRuns s; awaiting := awaiting s;
     exited := exited s |}.

Definition set_rawMode (b : bool) (s : Session) : Session :=
  {| firstMessageSent := firstMessageSent s; charCount := charCount s;
     typingTimer := typingTimer s;
     originalSettings := originalSettings s; clock := clock s; timeouts := timeouts s;
     nextHandle := nextHandle s; settingsFile := settingsFile s; pidFile := pidFile s;
     rawMode := b; ptyInput := ptyInput s; childKills := childKills s;
     signals := signals s; cleanupRuns := cleanupRuns s; awaiting := awaiting s;
     exited := exited s |}.

Definition set_ptyInput (l : list (list Z)) (s : Session) : Session :=
  {| firstMessageSent := firstMessageSent s; charCount := charCount s;
     typingTimer := typingTimer s;
     originalSettings := originalSettings s; clock := clock s; timeouts := timeouts s;
     nextHandle := nextHandle s; settingsFile := settingsFile s; pidFile := pidFile s;
     rawMode := rawMode s; ptyInput := l; childKills := childKills s;
     signals := signals s; cleanupRuns := cleanupRuns s; awaiting := awaiting s;
     exited := exited s |}.

Definition set_childKills (n : nat) (s : Session) : Session :=
  {| firstMessageSent := firstMessageSent s; charCount := charCount s;
     typingTimer := typingTimer s;
     originalSettings := originalSettings s; clock := clock s; timeouts := timeouts s;
     nextHandle := nextHandle s; settingsFile := settingsFile s; pidFile := pidFile s;
     rawMode := rawMode s; ptyInput := ptyInput s; childKills := n;
     signals := signals s; cleanupRuns := cleanupRuns s; awaiting := awaiting s;
     exited := exited s |}.

Definition set_signals (l : list signal) (s : Session) : Session :=
  {| firstMessageSent := firstMessageSent s; charCount := charCount s;
     typingTimer := typingTimer s;
     originalSettings := originalSettings s; clock := clock s; timeouts := timeouts s;
     nextHandle := nextHandle s; settingsFile := settingsFile s; pidFile := pidFile s;
     rawMode := rawMode s; ptyInput := ptyInput s; childKills := childKills s;
     signals := l; cleanupRuns := cleanupRuns s; awaiting := awaiting s;
     exited := exited s |}.

Definition set_cleanupRuns (n : nat) (s : Session) : Session :=
  {| firstMessageSent := firstMessageSent s; charCount := charCount s;
     typingTimer := typingTimer s;
     originalSettings := originalSettings s; clock := clock s; timeouts := timeouts s;
     nextHandle := nextHandle s; settingsFile := settingsFile s; pidFile := pidFile s;
     rawMode := rawMode s; ptyInput := ptyInput s; childKills := childKills s;
     signals := signals s; cleanupRuns := n; awaiting := awaiting s;
     exited := exited s |}.

Definition set_awaiting (l : list Z) (s : Session) : Session :=
  {| firstMessageSent := firstMessageSent s; charCount := charCount s;
     typingTimer := typingTimer s;
     originalSettings := originalSettings s; clock := clock s; timeouts := timeouts s;
     nextHandle := nextHandle s; settingsFile := settingsFile s; pidFile := pidFile s;
     rawMode := rawMode s; ptyInput := ptyInput s; childKills := childKills s;
     signals := signals s; cleanupRuns := cleanupRuns s; awaiting := l;
     exited := exited s |}.

Definition set_exited (c : option Z) (s : Session) : Session :=
  {| firstMessageSent := firstMessageSent s; charCount := charCount s;
     typingTimer := typingTimer s;
     originalSettings := originalSettings s; clock := clock s; timeouts := timeouts s;
     nextHandle := nextHandle s; settingsFile := settingsFile s; pidFile := pidFile s;
     rawMode := rawMode s; ptyInput := ptyInput s; childKills := childKills s;
     signals := signals s; cleanupRuns := cleanupRuns s; awaiting := awaiting s;
     exited := c |}.

(** *** Timers and player calls *)

Definition emit (sig : signal) (s : Session) : Session :=
  set_signals (signals s ++ [sig])%list s.

(** [clearTimeout(h)]: a handle that is not pending is left alone. *)
Definition clearTimeout (h : nat) (s : Session) : Session :=
  set_timeouts (filter (fun t => negb (Nat.eqb (fst t) h)) (timeouts s)) s.

(** [setTimeout(callback, delay)]: a fresh handle, due [delay] ms from now.
    The session has one callback only, [idleCallback] below. *)
Definition setTimeout (delay : Z) (s : Session) : nat * Session :=
  let h := nextHandle s in
  (h, set_nextHandle (S h)
        (set_timeouts (timeouts s ++ [(h, (clock s + delay)%Z)])%list s)).

Definition onTypingPlay (o : Options) (s : Session) : Session :=
  if noPauseMode o || negb (spotifyAvailable o) then s
  else emit (Play TypingPlay) s.

(** The function given to [setTimeout] in [scheduleTypingPause]. *)
Definition idleCallback (s : Session) : Session :=
  emit (Pause IdleTimer) (set_charCount 0 (set_typingTimer None s)).

Definition scheduleTypingPause (o : Options) (s : Session) : Session :=
  let s1 := match typingTimer s with
            | Some h => clearTimeout h s
            | None => s
            end in
  if noPauseMode o || negb (spotifyAvailable o) then s1
  else
    let (h, s2) := setTimeout TYPING_IDLE_MS s1 in
    set_typingTimer (Some h) s2.

(** *** The stdin handler *)

Definition includes (b : Z) (bytes : list Z) : bool := existsb (Z.eqb b) bytes.

(** [b >= 0x20 && b < 0x7f] *)
Definition isPrintable (b : Z) : bool := (32 <=? b)%Z && (b <? 127)%Z.

Definition onStdinData (o : Options) (data : list Z) (s : Session) : Session :=
  let s := set_ptyInput (ptyInput s ++ [BufferText.toString data])%list s in
  let bytes := data in
  if includes 13 bytes || includes 10 bytes then
    let s := set_firstMessageSent true s in
    let s := set_charCount 0 s in
    let s := match typingTimer s with
             | Some h => set_typingTimer None (clearTimeout h s)
             | None => s
             end in
    if spotifyAvailable o && negb (noPauseMode o) then emit (Play Enter) s else s
  else if negb (firstMessageSent s) then s
  else
    let printable := filter isPrintable bytes in
    if (Z.of_nat (List.length printable) =? 0)%Z then s
    else
      let s := set_charCount (charCount s + Z.of_nat (List.length printable))%Z s in
      let s := if (charCount s =? TYPING_PLAY_THRESHOLD)%Z then onTypingPlay o s else s in
      if (charCount s >=? TYPING_PLAY_THRESHOLD)%Z then scheduleTypingPause o s else s.

(** *** The event loop's clock *)

Definition isDue (now : Z) (t : nat * Z) : bool := (snd t <=? now)%Z.

(** Every pending timeout that is due leaves the pending list and has its
    callback run, oldest first. *)
Definition runTimers (s : Session) : Session :=
  let due := filter (isDue (clock s)) (timeouts s) in
  let s1 := set_timeouts (filter (fun t => negb (isDue (clock s) t)) (timeouts s)) s in
  fold_left (fun acc _ => idleCallback acc) due s1.

Definition elapse (ms : N) (s : Session) : Session :=
  runTimers (set_clock (clock s + Z.of_N ms)%Z s).

(** *** Leaving *)

(** [cleanup] up to its [await]: the pause command has been started when
    the body stops there. *)
Definition cleanup (o : Options) (s : Session) : Session :=
  let s := set_cleanupRuns (S (cleanupRuns s)) s in
  let s := match typingTimer s with
           | Some h => clearTimeout h s
           | None => s
           end in
  let s := set_pidFile None s in
  let s := if stdinIsTTY o then set_rawMode false s else s in
  let s := set_settingsFile (restoreHooks (originalSettings s)) s in
  if spotifyAvailable o then emit (Pause Cleanup) s else s.

(** [await cleanup(); process.exit(code)].  With the player available the
    handler stops at the [await] inside [cleanup] and the event loop goes
    on; otherwise nothing is awaited but settled promises, and the process
    exits before the loop takes another event. *)
Definition cleanupThenExit (o : Options) (code : Z) (s : Session) : Session :=
  let s := cleanup o s in
  if spotifyAvailable o then set_awaiting (awaiting s ++ [code])%list s
  else set_exited (Some code) s.

(** [claude.onExit(async ({ exitCode }) => ...)] *)
Definition onExit (o : Options) (exitCode : option Z) (s : Session) : Session :=
  cleanupThenExit o (match exitCode with Some c => c | None => 0%Z end) s.

(** [process.on('SIGINT', async () => ...)] *)
Definition onSigint (o : Options) (s : Session) : Session :=
  cleanupThenExit o 130 (set_childKills (S (childKills s)) s).

(** The pause command of the [k]-th stopped handler has ended: the handler
    goes on to [process.exit]. *)
Definition onPauseSettled (k : nat) (s : Session) : Session :=
  match nth_error (awaiting s) k with
  | Some code => set_exited (Some code) s
  | None => s
  end.

Inductive event :=
| Stdin (data : list Z)
| Elapse (ms : N)
| ChildExit (exitCode : option Z)
| Sigint
| PauseSettled (k : nat).

(** One turn of the event loop.  Nothing happens after [process.exit]. *)
Definition step (o : Options) (s : Session) (e : event) : Session :=
  match exited s with
  | Some _ => s
  | None =>
      match e with
      | Stdin data => onStdinData o data s
      | Elapse ms => elapse ms s
      | ChildExit exitCode => onExit o exitCode s
      | Sigint => onSigint o s
      | PauseSettled k => onPauseSettled k s
      end
  end.

Definition run (o : Options) (evs : list event) (s : Session) : Session :=
  fold_left (step o) evs s.

(** *** Start of [main] *)

(** [String(pid)] *)
Definition decimal (n : N) : string := NilEmpty.string_of_uint (N.to_uint n).

(** The session as [main] has it when the handlers are installed: [r] is
    what [injectHooks] returned and wrote, [pid] the child's pid. *)
Definition installed (o : Options) (pid : N) (r : json * option string) : Session :=
  {| firstMessageSent := false;
     charCount := 0;
     typingTimer := None;
     originalSettings := fst r;
     clock := 0;
     timeouts := [];
     nextHandle := 0;
     settingsFile := snd r;
     pidFile := Some (decimal pid);
     rawMode := stdinIsTTY o;
     ptyInput := [];
     childKills := 0;
     signals := if spotifyAvailable o then [Play Launch] else [];
     cleanupRuns := 0;
     awaiting := [];
     exited := None |}.

(** [main] up to that point.  [spawned] is what [pty.spawn] gives: the
    child's pid or an exception; [Throw] stands for the [process.exit(1)] of
    a failed start. *)
Definition startup (parse : parser) (p : platform) (pidPath : string)
           (o : Options) (settings0 : option string) (spawned : result N)
  : result Session :=
  pid <- spawned ;;
  r <- injectHooks parse p (noPauseMode o) pidPath settings0 ;;
  Ok (installed o pid r).

End ClaudeWrapper.

(** ** A hook command at fire time

    Not code of the wrapper: what a POSIX shell does with the text of a hook
    command once the wrapped assistant starts it.

    The commands above all have the shape
    [[ "$(cat 'F' 2>/dev/null)" = "$PPID" ] && P].  [guarded] names the two
    parts and [render] gives the text.  [sh] is what the shell does with a
    command text when the process [ppid] starts it.  It reads the text:
    [readGuard] takes off the opening up to the single quote, takes [F] up to
    the next single quote (inside single quotes every character stands for
    itself, and the first single quote ends them), takes off the rest of the
    test and keeps [P].  The output of [cat], trailing newlines dropped,
    nothing for a missing file, is compared as a string with the decimal of
    [ppid], and the shell goes on to [P] only if the two are the same.  Of a
    text that does not read this way, such as the command for a pid path
    with a single quote in it, the model says nothing ([NotRead]). *)
Module HookShell.
Import Json ClaudeWrapper.
Local Open Scope string_scope.

Record guarded := { idFile : string; payload : string }.

Definition render (g : guarded) : string :=
  "[ " ++ dq ++ "$(cat '" ++ idFile g ++ "' 2>/dev/null)" ++ dq
  ++ " = " ++ dq ++ "$PPID" ++ dq ++ " ] && " ++ payload g.

Fixpoint dropLeadingNewlines (l : list ascii) : list ascii :=
  match l with
  | c :: rest => if (nat_of_ascii c =? 10)%nat then dropLeadingNewlines rest else l
  | [] => []
  end.

Definition commandSubstitution (content : option string) : string :=
  match content with
  | None => EmptyString
  | Some text =>
      string_of_list_ascii
        (rev (dropLeadingNewlines (rev (list_ascii_of_string text))))
  end.

(** [s] without [pre] in front, if it starts with it. *)
Fixpoint stripPrefix (pre s : string) : option string :=
  match pre with
  | EmptyString => Some s
  | String a pre' =>
      match s with
      | String b s' => if Ascii.eqb a b then stripPrefix pre' s' else None
      | EmptyString => None
      end
  end.

(** [s] cut at its first single quote: what comes before and what after. *)
Fixpoint cutAtQuote (s : string) : option (string * string) :=
  match s with
  | EmptyString => None
  | String c rest =>
      if (nat_of_ascii c =? 39)%nat then Some (EmptyString, rest)
      else match cutAtQuote rest with
           | Some (before, after) => Some (String c before, after)
           | None => None
           end
  end.

Definition guardOpening : string := "[ " ++ dq ++ "$(cat '".

Definition guardClosing : string :=
  " 2>/dev/null)" ++ dq ++ " = " ++ dq ++ "$PPID" ++ dq ++ " ] && ".

(** The file and the command of a text of the shape above. *)
Definition readGuard (text : string) : option guarded :=
  match stripPrefix guardOpening text with
  | None => None
  | Some rest =>
      match cutAtQuote rest with
      | None => None
      | Some (file, rest') =>
          match stripPrefix guardClosing rest' with
          | None => None
          | Some command => Some {| idFile := file; payload := command |}
          end
      end
  end.

(** What the shell does with a command text: it goes on to run a command,
    it stops at the test, or the text is not one the model reads. *)
Inductive shOutcome :=
| Runs (command : string)
| Skips
| NotRead.

Definition sh (files : string -> option string) (ppid : N) (text : string) : shOutcome :=
  match readGuard text with
  | None => NotRead
  | Some g =>
      if String.eqb (commandSubstitution (files (idFile g))) (decimal ppid)
      then Runs (payload g)
      else Skips
  end.

(** No single quote occurs in [s]. *)
Definition noSingleQuote (s : string) : bool :=
  forallb (fun c => negb (nat_of_ascii c =? 39)%nat) (list_ascii_of_string s).

End HookShell.


(** ** A reader for JSON text

    [JSON.parse] is taken as a parameter by the wrapper model.  This reader
    is the instance used to run the model on concrete files.  It follows the
    JSON grammar for documents whose numbers are integers of at most 15
    digits, whose escapes in strings stay below U+0080 and whose keys are
    not strings of digits (JavaScript lists integer keys first, whatever
    their place in the text); on other documents it gives up ([None]) and is
    not to be used. *)

Module JsonText.
Import Json.

Definition code (c : ascii) : nat := nat_of_ascii c.

Definition isWs (c : ascii) : bool :=
  (code c =? 32)%nat || (code c =? 9)%nat || (code c =? 10)%nat || (code c =? 13)%nat.

Fixpoint skipWs (l : list ascii) : list ascii :=
  match l with
  | c :: rest => if isWs c then skipWs rest else l
  | [] => []
  end.

Definition isDigit (c : ascii) : bool := (48 <=? code c)%nat && (code c <=? 57)%nat.

Fixpoint eat (lit l : list ascii) : option (list ascii) :=
  match lit, l with
  | [], _ => Some l
  | a :: lit', b :: l' => if Ascii.eqb a b then eat lit' l' else None
  | _ :: _, [] => None
  end.

Definition hexValue (c : ascii) : option nat :=
  let n := code c in
  if (48 <=? n)%nat && (n <=? 57)%nat then Some (n - 48)%nat
  else if (97 <=? n)%nat && (n <=? 102)%nat then Some (n - 87)%nat
  else if (65 <=? n)%nat && (n <=? 70)%nat then Some (n - 55)%nat
  else None.

Definition hex4 (a b c d : ascii) : option nat :=
  match hexValue a, hexValue b, hexValue c, hexValue d with
  | Some x, Some y, Some z, Some w => Some (((x * 16 + y) * 16 + z) * 16 + w)%nat
  | _, _, _, _ => None
  end.

Definition simpleEscape (e : ascii) : option ascii :=
  let n := code e in
  if (n =? 34)%nat || (n =? 92)%nat || (n =? 47)%nat then Some e
  else if (n =? 98)%nat then Some (ascii_of_nat 8)
  else if (n =? 102)%nat then Some (ascii_of_nat 12)
  else if (n =? 110)%nat then Some (ascii_of_nat 10)
  else if (n =? 114)%nat then Some (ascii_of_nat 13)
  else if (n =? 116)%nat then Some (ascii_of_nat 9)
  else None.

(** The characters of a string after its opening quote, up to and
    including the closing one. *)
Fixpoint readChars (l : list ascii) : option (string * list ascii) :=
  match l with
  | [] => None
  | c :: rest =>
      if (code c =? 34)%nat then Some (EmptyString, rest)
      else if (code c =? 92)%nat then
        match rest with
        | e :: rest1 =>
            if (code e =? 117)%nat then
              match rest1 with
              | h1 :: h2 :: h3 :: h4 :: rest2 =>
                  match hex4 h1 h2 h3 h4 with
                  | Some n =>
                      if (n <? 128)%nat then
                        match readChars rest2 with
                        | Some (s, r) => Some (String (ascii_of_nat n) s, r)
                        | None => None
                        end
                      else None
                  | None => None
                  end
              | _ => None
              end
            else
              match simpleEscape e with
              | Some x =>
                  match readChars rest1 with
                  | Some (s, r) => Some (String x s, r)
                  | None => None
                  end
              | None => None
              end
        | [] => None
        end
      else if (code c <? 32)%nat then None
      else
        match readChars rest with
        | Some (s, r) => Some (String c s, r)
        | None => None
        end
  end.

Fixpoint spanDigits (l : list ascii) : list ascii * list ascii :=
  match l with
  | c :: rest =>
      if isDigit c then let (ds, r) := spanDigits rest in (c :: ds, r) else ([], l)
  | [] => ([], [])
  end.

Definition startsFraction (l : list ascii) : bool :=
  match l with
  | c :: _ => (code c =? 46)%nat || (code c =? 101)%nat || (code c =? 69)%nat
  | [] => false
  end.

(** A key made of digits only. *)
Definition isIndexLike (k : string) : bool :=
  match list_ascii_of_string k with
  | [] => false
  | c :: l => forallb isDigit (c :: l)
  end.

(** An integer literal and the text JavaScript prints for its value. *)
Definition readNumber (l : list ascii) : option (string * list ascii) :=
  let neg := match l with c :: _ => (code c =? 45)%nat | [] => false end in
  let l1 := if neg then tl l else l in
  let (ds, rest) := spanDigits l1 in
  match ds with
  | [] => None
  | d :: ds' =>
      if (code d =? 48)%nat && negb (Nat.eqb (List.length ds') 0) then None
      else if startsFraction rest then None
      else if (15 <? List.length ds)%nat then None
      else if (code d =? 48)%nat then Some ("0"%string, rest)
      else Some (string_of_list_ascii (if neg then "-"%char :: ds else ds), rest)
  end.

Fixpoint readValue (fuel : nat) (l : list ascii) : option (json * list ascii) :=
  match fuel with
  | O => None
  | S fuel' =>
      match skipWs l with
      | [] => None
      | c :: rest =>
          if (code c =? 110)%nat then
            match eat (list_ascii_of_string "ull") rest with
            | Some r => Some (JNull, r)
            | None => None
            end
          else if (code c =? 116)%nat then
            match eat (list_ascii_of_string "rue") rest with
            | Some r => Some (JBool true, r)
            | None => None
            end
          else if (code c =? 102)%nat then
            match eat (list_ascii_of_string "alse") rest with
            | Some r => Some (JBool false, r)
            | None => None
            end
          else if (code c =? 34)%nat then
            match readChars rest with
            | Some (s, r) => Some (JStr s, r)
            | None => None
            end
          else if (code c =? 91)%nat then
            match skipWs rest with
            | c' :: rest' =>
                if (code c' =? 93)%nat then Some (JArr [], rest')
                else readElements fuel' [] rest
            | [] => None
            end
          else if (code c =? 123)%nat then
            match skipWs rest with
            | c' :: rest' =>
                if (code c' =? 125)%nat then Some (JObj [], rest')
                else readMembers fuel' [] rest
            | [] => None
            end
          else
            match readNumber (c :: rest) with
            | Some (repr, r) => Some (JNum repr, r)
            | None => None
            end
      end
  end
with readElements (fuel : nat) (acc : list json) (l : list ascii)
  : option (json * list ascii) :=
  match fuel with
  | O => None
  | S fuel' =>
      match readValue fuel' l with
      | Some (v, rest) =>
          match skipWs rest with
          | c :: rest' =>
              if (code c =? 44)%nat then readElements fuel' (acc ++ [v]) rest'
              else if (code c =? 93)%nat then Some (JArr (acc ++ [v]), rest')
              else None
          | [] => None
          end
      | None => None
      end
  end
with readMembers (fuel : nat) (acc : list (string * json)) (l : list ascii)
  : option (json * list ascii) :=
  match fuel with
  | O => None
  | S fuel' =>
      match skipWs l with
      | q :: rest =>
          if (code q =? 34)%nat then
            match readChars rest with
            | Some (k, rest1) =>
                if isIndexLike k then None else
                match skipWs rest1 with
                | colon :: rest2 =>
                    if (code colon =? 58)%nat then
                      match readValue fuel' rest2 with
                      | Some (v, rest3) =>
                          match skipWs rest3 with
                          | c :: rest4 =>
                              if (code c =? 44)%nat then
                                readMembers fuel' (setProp k v acc) rest4
                              else if (code c =? 125)%nat then
                                Some (JObj (setProp k v acc), rest4)
                              else None
                          | [] => None
                          end
                      | None => None
                      end
                    else None
                | [] => None
                end
            | None => None
            end
          else None
      | [] => None
      end
  end.

Definition parse : parser :=
  fun text =>
    let l := list_ascii_of_string text in
    match readValue (2 * List.length l + 2) l with
    | Some (v, rest) =>
        match skipWs rest with
        | [] => Some v
        | _ :: _ => None
        end
    | None => None
    end.

End JsonText.

(** ** Notions used in the statements below *)

Module Notions.
Import SpotifyNative Spotify Json ClaudeWrapper HookShell.

(** The stored expiry is absent, or less than five minutes ahead of [now]. *)
Definition expiryStale (c : Config) (now : Z) : Prop :=
  expiresAt c = None \/ exists k, expiresAt c = Some k /\ k < now + 300000.

(** A chunk with a carriage return or a line feed in it. *)
Definition submission (data : list Z) : bool := includes 13 data || includes 10 data.

(** The number of printable bytes of a chunk. *)
Definition printableCount (data : list Z) : Z :=
  Z.of_nat (List.length (filter isPrintable data)).

(** The printable bytes of a run of chunks. *)
Fixpoint printableTotal (chunks : list (list Z)) : Z :=
  match chunks with
  | [] => 0
  | c :: rest => printableCount c + printableTotal rest
  end.

(** The chunks of a typing burst arriving one after the other, no timer
    firing in between. *)
Definition typed (o : Options) (chunks : list (list Z)) (s : Session) : Session :=
  run o (map Stdin chunks) s.

(** No chunk of the burst is a submission. *)
Definition noSubmission (chunks : list (list Z)) : bool :=
  forallb (fun c => negb (submission c)) chunks.

(** An event that is neither a submission nor typing: time passing, or a
    chunk with no end-of-line and no printable byte in it (backspace, tab,
    a lone escape). *)
Definition quiet (e : event) : bool :=
  match e with
  | Elapse _ => true
  | Stdin data => negb (submission data) && (printableCount data =? 0)%Z
  | _ => false
  end.

(** The time that passes over a run of events. *)
Fixpoint elapsed (evs : list event) : Z :=
  match evs with
  | [] => 0
  | Elapse ms :: rest => Z.of_N ms + elapsed rest
  | _ :: rest => elapsed rest
  end.

(** At most one timeout is pending, and it is the one [typingTimer] holds. *)
Definition oneIdleTimer (s : Session) : Prop :=
  timeouts s = []
  \/ exists h due, timeouts s = [(h, due)] /\ typingTimer s = Some h
                   /\ (h < nextHandle s)%nat.

(** What holds of a session between events, as far as leaving goes: the
    snapshot is the one taken at startup; once [cleanup] has run the pid file
    is gone and the settings hold the snapshot; with a player every run of
    [cleanup] has left a handler waiting, and the process has exited only if
    one was waiting; without a player [cleanup] has run exactly if the process
    has exited, and then once. *)
Definition leaving (o : Options) (original : json) (s : Session) : Prop :=
  originalSettings s = original
  /\ ((1 <= cleanupRuns s)%nat ->
      pidFile s = None /\ settingsFile s = Some (stringify2 original))
  /\ (spotifyAvailable o = true ->
      cleanupRuns s = List.length (awaiting s)
      /\ (exited s <> None -> awaiting s <> []))
  /\ (spotifyAvailable o = false ->
      awaiting s = []
      /\ (exited s = None -> cleanupRuns s = 0%nat)
      /\ (exited s <> None -> cleanupRuns s = 1%nat)).

(** The child exits and interrupts among a run of events. *)
Fixpoint exitEvents (evs : list event) : nat :=
  match evs with
  | [] => 0
  | ChildExit _ :: rest => S (exitEvents rest)
  | Sigint :: rest => S (exitEvents rest)
  | _ :: rest => exitEvents rest
  end.

(** The hook groups a settings document lists under [hooks[event]], when
    [hooks] is an object. *)
Definition hookList (event : string) (doc : json) : option json :=
  match doc with
  | JObj props =>
      match getProp "hooks" props with
      | Some (JObj hooks) => getProp event hooks
      | _ => None
      end
  | _ => None
  end.

(** The commands of a hook group: the [command] of each entry of its
    [hooks] list. *)
Definition groupCommands (group : json) : list string :=
  match group with
  | JObj props =>
      match getProp "hooks" props with
      | Some (JArr entries) =>
          flat_map (fun entry =>
                      match entry with
                      | JObj fields =>
                          match getProp "command" fields with
                          | Some (JStr command) => [command]
                          | _ => []
                          end
                      | _ => []
                      end) entries
      | _ => []
      end
  | _ => []
  end.

(** The playback commands behind the guard, per platform. *)
Definition playPayload (p : platform) : string :=
  if is_darwin p then
    "osascript -e 'tell application " ++ dq ++ "Spotify" ++ dq ++ " to play'"
  else if is_win32 p then
    "powershell -command " ++ dq
      ++ "(New-Object -ComObject WMPlayer.OCX.7).controls.play()" ++ dq
  else
    "dbus-send --print-reply --dest=org.mpris.MediaPlayer2.spotify /org/mpris/MediaPlayer2 org.mpris.MediaPlayer2.Player.Play".

Definition pausePayload (p : platform) : string :=
  if is_darwin p then
    "osascript -e 'tell application " ++ dq ++ "Spotify" ++ dq ++ " to pause'"
  else if is_win32 p then
    "powershell -command " ++ dq
      ++ "(New-Object -ComObject WMPlayer.OCX.7).controls.pause()" ++ dq
  else
    "dbus-send --print-reply --dest=org.mpris.MediaPlayer2.spotify /org/mpris/MediaPlayer2 org.mpris.MediaPlayer2.Player.Pause".

(** The events [injectHooks] pushes a group under, each with the command of
    its group, in the order of the pushes. *)
Definition injections (p : platform) (noPause : bool) (pidPath : string)
  : list (string * string) :=
  ("PreToolUse"%string, spotifyPlayCmd p pidPath)
  :: (if noPause then []
      else [("Stop"%string, spotifyPauseCmd p pidPath);
            ("Notification"%string, spotifyPauseCmd p pidPath)]).

(** The events [injectHooks] pushes a group under. *)
Definition hookedEvents (noPause : bool) : list string :=
  "PreToolUse"%string
  :: (if noPause then [] else ["Stop"%string; "Notification"%string]).

(** One [pushGroup] after the other, stopping at the first that throws. *)
Fixpoint pushAll (groups : list (string * string)) (hooks : json) : result json :=
  match groups with
  | [] => Ok hooks
  | (event, command) :: rest =>
      hooks' <- pushGroup event (hookGroup command) hooks ;;
      pushAll rest hooks'
  end.

End Notions.

(** ** Sample inputs *)

Module Samples.
Import SpotifyNative Spotify Json ClaudeWrapper HookShell Notions.

(** A player that answers [Song — Band], and one that answers [missing value]. *)
Definition playingShell : shell :=
  fun _ => Ok [83; 111; 110; 103; 32; 8212; 32; 66; 97; 110; 100; 10].

Definition idleShell : shell :=
  fun _ => Ok [109; 105; 115; 115; 105; 110; 103; 32; 118; 97; 108; 117; 101; 10].

(** A config whose token runs out in four minutes, one with an hour left,
    a token endpoint, and a player API that accepts every request. *)
Definition staleFile : store :=
  Some {| accessToken := Some "old"%string; refreshToken := Some "refresh"%string;
          expiresAt := Some (1000000 + 240000) |}.

Definition freshFile : store :=
  Some {| accessToken := Some "old"%string; refreshToken := Some "refresh"%string;
          expiresAt := Some (1000000 + 3600000) |}.

Definition grantingEndpoint : tokenEndpoint := fun _ => Ok ("new"%string, 3600).

Definition acceptingApi : playerApi := fun _ => Http2xx.

(** The three ways to start the wrapper: pausing with a player, [--no-pause]
    with a player, pausing without a player. *)
Definition vibe : Options :=
  {| noPauseMode := false; spotifyAvailable := true; stdinIsTTY := true |}.

Definition continuous : Options :=
  {| noPauseMode := true; spotifyAvailable := true; stdinIsTTY := true |}.

Definition playerless : Options :=
  {| noPauseMode := false; spotifyAvailable := false; stdinIsTTY := true |}.

Definition samplePidPath : string := "/tmp/tune-in-claude.pid".

(** A settings file as a tool may have written it, on one line. *)
Definition compactSettings : string :=
  "{" ++ dq ++ "hooks" ++ dq ++ ":{}}".

(** A settings file as [JSON.stringify(_, null, 2)] writes it. *)
Definition prettySettings : string :=
  stringify2 (JObj [("hooks"%string, JObj [])]).

(** A session started on Linux over [compactSettings], child pid 4242. *)
Definition sampleSession (o : Options) : Session :=
  match startup JsonText.parse OtherPlatform samplePidPath o (Some compactSettings)
          (Ok 4242%N) with
  | Ok s => s
  | Throw _ => installed o 4242 (JObj [], None)
  end.

(** Enter, the keys [a b c], a second of waiting, the key [d]. *)
Definition sampleKeys : list event :=
  [Stdin [13]; Stdin [97; 98; 99]; Elapse 1000; Stdin [100]].

(** An interrupt, then the child's exit while the pause of the first
    [cleanup] is still running, then the end of that pause. *)
Definition interruptedExit : list event :=
  [Sigint; ChildExit (Some 0); PauseSettled 0].

(** A host where the pid file holds [content] and no other file exists. *)
Definition onlyFile (path : string) (content : string) : string -> option string :=
  fun f => if String.eqb f path then Some content else None.

End Samples.

(** * The rest of the sources

    The modules below follow the parts of the repository the ones above
    leave out:
    - [NativeControl] : the rest of src/spotify-native.ts (probing the
      desktop player, play and pause),
    - [Account]       : src/spotify.ts and src/config.ts (the code exchange,
      logging out),
    - [AuthCallback]  : src/auth.ts (the error text of the callback page),
    - [Daemon]        : src/daemon.ts (the state, the socket commands, the
      pid file),
    - [TuneIn], [Cli] : src/index.ts (running a command with music, the
      command line),
    - [HookScript]    : hooks/claude-code-hooks.sh.

    [JsonCompact] is [JSON.stringify] with one argument.  The modules named
    [...Notions] and [...Samples] hold the vocabulary and the concrete inputs
    of the statements. *)

(** ** Notions of the session properties *)

Module SessionNotions.
Import Json ClaudeWrapper HookShell Notions.
Local Open Scope string_scope.

(** The chunks of the [Stdin] events of a run, in order of arrival. *)
Fixpoint stdinChunks (evs : list event) : list (list Z) :=
  match evs with
  | [] => []
  | Stdin data :: rest => data :: stdinChunks rest
  | _ :: rest => stdinChunks rest
  end.

(** The code the handler of an event passes to [process.exit]. *)
Definition exitCodeOf (e : event) : option Z :=
  match e with
  | ChildExit (Some c) => Some c
  | ChildExit None => Some 0
  | Sigint => Some 130
  | _ => None
  end.

(** [hooks[event]] can take a [push]: it is missing, null or an array. *)
Definition appendable (v : option json) : bool :=
  match nullish v (JArr []) with
  | JArr _ => true
  | _ => false
  end.

(** The settings documents [injectHooks] goes through without a TypeError. *)
Definition installable (noPause : bool) (doc : json) : bool :=
  match doc with
  | JArr _ => true
  | JObj props =>
      match nullish (getProp "hooks" props) (JObj []) with
      | JArr _ => true
      | JObj hooks =>
          appendable (getProp "PreToolUse" hooks)
          && (noPause
              || (appendable (getProp "Stop" hooks)
                  && appendable (getProp "Notification" hooks)))
      | _ => false
      end
  | _ => false
  end.

(** The groups listed under [hooks[event]]: none when the property is
    missing or null. *)
Definition groupsOf (event : string) (hooks : list (string * json)) : json :=
  nullish (getProp event hooks) (JArr []).

(** Every exit code a handler holds, waiting at its [await] or passed to
    [process.exit], is the code of one of the events [seen]. *)
Definition codesFrom (seen : list event) (s : Session) : Prop :=
  forall c, In c (awaiting s) \/ exited s = Some c ->
            exists e, In e seen /\ exitCodeOf e = Some c.

(** A timeout is pending only after the first submission, with the count
    at the threshold or beyond, and with the idle pause switched on. *)
Definition armedAfterTyping (o : Options) (s : Session) : Prop :=
  timeouts s <> [] ->
  firstMessageSent s = true
  /\ (TYPING_PLAY_THRESHOLD <= charCount s)%Z
  /\ noPauseMode o = false /\ spotifyAvailable o = true.

End SessionNotions.

(** ** Sample settings *)

Module SessionSamples.
Import Json ClaudeWrapper.
Local Open Scope string_scope.

(** A hook group of the user's own. *)
Definition userGroup : json :=
  JObj [("hooks", JArr [JObj [("type", JStr "command"); ("command", JStr "date")]])].

(** Settings with a theme and one Stop hook of the user's. *)
Definition userSettings : string :=
  stringify2 (JObj [("theme", JStr "dark");
                    ("hooks", JObj [("Stop", JArr [userGroup])])]).

(** Settings whose Stop hooks are a string, not a list. *)
Definition oddSettings : string :=
  stringify2 (JObj [("hooks", JObj [("Stop", JStr "date")])]).

End SessionSamples.

(** ** src/spotify-native.ts: probing and driving the desktop player *)

Module NativeControl.
Import SpotifyNative Json.
Local Open Scope string_scope.

(** The code units of an ASCII literal. *)
Definition units (s : string) : jsstring :=
  map (fun c => Z.of_nat (nat_of_ascii c)) (list_ascii_of_string s).

(** [a === b] on strings. *)
Fixpoint sameString (a b : jsstring) : bool :=
  match a, b with
  | [], [] => true
  | x :: a', y :: b' => (x =? y)%Z && sameString a' b'
  | _, _ => false
  end.

(** [s.includes(sub)] *)
Definition includesText (s sub : jsstring) : bool := negb (indexOf s sub =? -1)%Z.

(** [isSpotifyRunning] *)
Definition isSpotifyRunning (p : platform) (execAsync : shell) : result bool :=
  try_catch
    (if is_darwin p then
       stdout <- execAsync ("osascript -e 'tell application " ++ dq ++ "System Events"
                            ++ dq ++ " to (name of processes) contains " ++ dq
                            ++ "Spotify" ++ dq ++ "'") ;;
       Ok (sameString (trim stdout) (units "true"))
     else if is_win32 p then
       stdout <- execAsync ("tasklist /FI " ++ dq ++ "IMAGENAME eq Spotify.exe" ++ dq) ;;
       Ok (includesText stdout (units "Spotify.exe"))
     else
       stdout <- execAsync "pgrep -x spotify" ;;
       Ok (Z.of_nat (List.length (trim stdout)) >? 0)%Z)
    (fun _ => Ok false).

(** [playSpotifyNative] *)
Definition playSpotifyNative (p : platform) (execAsync : shell) : result bool :=
  try_catch
    (if is_darwin p then
       _ <- execAsync ("osascript -e 'tell application " ++ dq ++ "Spotify" ++ dq
                       ++ " to play'") ;;
       Ok true
     else if is_win32 p then
       _ <- execAsync ("powershell -command " ++ dq
                       ++ "(New-Object -ComObject WMPlayer.OCX.7).controls.play()" ++ dq) ;;
       Ok true
     else
       _ <- execAsync "dbus-send --print-reply --dest=org.mpris.MediaPlayer2.spotify /org/mpris/MediaPlayer2 org.mpris.MediaPlayer2.Player.Play" ;;
       Ok true)
    (fun _ => Ok false).

(** [pauseSpotifyNative] *)
Definition pauseSpotifyNative (p : platform) (execAsync : shell) : result bool :=
  try_catch
    (if is_darwin p then
       _ <- execAsync ("osascript -e 'tell application " ++ dq ++ "Spotify" ++ dq
                       ++ " to pause'") ;;
       Ok true
     else if is_win32 p then
       _ <- execAsync ("powershell -command " ++ dq
                       ++ "(New-Object -ComObject WMPlayer.OCX.7).controls.pause()" ++ dq) ;;
       Ok true
     else
       _ <- execAsync "dbus-send --print-reply --dest=org.mpris.MediaPlayer2.spotify /org/mpris/MediaPlayer2 org.mpris.MediaPlayer2.Player.Pause" ;;
       Ok true)
    (fun _ => Ok false).

End NativeControl.

(** ** Notions of the player properties *)

Module PlayerNotions.
Import SpotifyNative NativeControl Spotify.

(** The command ended without an error. *)
Definition ran {A : Type} (r : result A) : bool :=
  match r with
  | Ok _ => true
  | Throw _ => false
  end.

(** Some code unit of [s] is not white space. *)
Definition hasText (s : jsstring) : bool := existsb (fun c => negb (isWhiteSpace c)) s.

End PlayerNotions.

(** ** src/spotify.ts and src/config.ts: logging in and out *)

Module Account.
Import Spotify.

(** The token endpoint for an authorization code: the [access_token],
    [refresh_token] and [expires_in] of the response, or a rejected
    request. *)
Definition codeEndpoint := string -> result (string * string * Z).

(** [exchangeCodeForToken], with [now] the value of [Date.now()] once the
    response is in.  The second component is the config file afterwards. *)
Definition exchangeCodeForToken (code : string) (now : Z) (post : codeEndpoint)
           (file : store) : result unit * store :=
  match post code with
  | Throw m => (Throw m, file)
  | Ok (access_token, refresh_token, expires_in) =>
      let config := {| accessToken := Some access_token;
                       refreshToken := Some refresh_token;
                       expiresAt := Some (now + expires_in * 1000) |} in
      (Ok tt, saveConfig config)
  end.

(** [clearConfig] *)
Definition clearConfig (file : store) : store :=
  match file with
  | Some _ => None
  | None => file
  end.

End Account.

(** ** src/auth.ts: the error text of the callback page *)

Module AuthCallback.
Import SpotifyNative NativeControl.
Local Open Scope string_scope.

(** [s.replace(/c/g, text)] for a pattern of the one character [c]. *)
Definition replaceAll (c : Z) (text : jsstring) (s : jsstring) : jsstring :=
  flat_map (fun x => if (x =? c)%Z then text else [x]) s.

(** [safeError]: the four replacements on [String(error)], in the order of
    the source: [&], then [<], then [>], then the double quote. *)
Definition safeError (error : jsstring) : jsstring :=
  replaceAll 34 (units "&quot;")
    (replaceAll 62 (units "&gt;")
       (replaceAll 60 (units "&lt;")
          (replaceAll 38 (units "&amp;") error))).

End AuthCallback.

(** ** Notions of the callback page *)

Module PageNotions.
Import SpotifyNative NativeControl AuthCallback.
Local Open Scope string_scope.

(** The character reference that stands for a code unit in HTML text, the
    code unit itself where none is needed. *)
Definition entity (c : Z) : jsstring :=
  if (c =? 38)%Z then units "&amp;"
  else if (c =? 60)%Z then units "&lt;"
  else if (c =? 62)%Z then units "&gt;"
  else if (c =? 34)%Z then units "&quot;"
  else [c].

(** [<], [>] and the double quote: the code units that open or close a tag
    or an attribute value. *)
Definition isMarkup (c : Z) : bool := (c =? 60)%Z || (c =? 62)%Z || (c =? 34)%Z.

End PageNotions.

(** ** [JSON.stringify] with one argument *)

Module JsonCompact.
Import Json.
Local Open Scope string_scope.

(** SerializeJSONProperty with an empty [gap]: no white space between the
    tokens. *)
Fixpoint stringify (v : json) : string :=
  match v with
  | JNull => "null"
  | JBool b => if b then "true" else "false"
  | JNum repr => repr
  | JStr s => quote s
  | JArr items => "[" ++ join "," (map stringify items) ++ "]"
  | JObj props =>
      "{" ++ join "," (map (fun kv => quote (fst kv) ++ ":" ++ stringify (snd kv)) props)
      ++ "}"
  end.

(** The text of an integer, as [JSON.stringify] and [String] print it (for
    the integers below 10^21, which are printed digit by digit). *)
Definition integerText (z : Z) : string :=
  if (z <? 0)%Z then "-" ++ ClaudeWrapper.decimal (Z.to_N (- z))
  else ClaudeWrapper.decimal (Z.to_N z).

End JsonCompact.

(** ** src/daemon.ts *)

Module Daemon.
Import SpotifyNative NativeControl Spotify Json JsonCompact.
Local Open Scope string_scope.

Inductive Mode := Native | WebApi.

(** [interface DaemonState] *)
Record DaemonState := {
  playing : bool;
  mode : Mode;
  lastUpdate : Z
}.

(** What the playback functions reach outside the process: the platform
    and its shell, the token endpoint, the player API. *)
Record Host := {
  os : platform;
  execAsync : shell;
  tokens : tokenEndpoint;
  player : playerApi
}.

(** The values of [Date.now()] a handler reads: in the token check, when a
    refreshed token is saved, and for [lastUpdate]. *)
Record Times := {
  checked : Z;
  refreshed : Z;
  updated : Z
}.

(** A call of one of the four playback functions. *)
Inductive call := NativePlay | NativePause | RemotePlay | RemotePause.

(** The daemon between two events: its state, and what its handlers have
    done outside it: the config file, the playback calls made, the requests
    sent to the player API, the lines of [console.error]. *)
Record Daemon := {
  state : DaemonState;
  tokensFile : store;
  calls : list call;
  requests : list request;
  errors : list string
}.

(** The constructor: [now] is its [Date.now()]. *)
Definition create (now : Z) (file : store) : Daemon :=
  {| state := {| playing := false; mode := Native; lastUpdate := now |};
     tokensFile := file; calls := []; requests := []; errors := [] |}.

(** [await playSpotifyNative()] or [await pauseSpotifyNative()]: the answer
    is dropped. *)
Definition callNative (c : call) (r : result bool) (d : Daemon) : result unit * Daemon :=
  (match r with Ok _ => Ok tt | Throw m => Throw m end,
   {| state := state d; tokensFile := tokensFile d; calls := (calls d ++ [c])%list;
      requests := requests d; errors := errors d |}).

(** [await playSpotify()] or [await pauseSpotify()] *)
Definition callRemote (c : call) (o : outcome) (d : Daemon) : result unit * Daemon :=
  (returned o,
   {| state := state d; tokensFile := configFile o; calls := (calls d ++ [c])%list;
      requests := (requests d ++ sent o)%list; errors := errors d |}).

Definition setPlaying (b : bool) (now : Z) (d : Daemon) : Daemon :=
  {| state := {| playing := b; mode := mode (state d); lastUpdate := now |};
     tokensFile := tokensFile d; calls := calls d; requests := requests d;
     errors := errors d |}.

Definition logError (line : string) (d : Daemon) : Daemon :=
  {| state := state d; tokensFile := tokensFile d; calls := calls d;
     requests := requests d; errors := (errors d ++ [line])%list |}.

(** [handleStart] *)
Definition handleStart (h : Host) (t : Times) (d : Daemon) : Daemon :=
  if playing (state d) then d
  else
    let (r, d1) :=
      match mode (state d) with
      | Native => callNative NativePlay (playSpotifyNative (os h) (execAsync h)) d
      | WebApi =>
          callRemote RemotePlay
            (playSpotify (tokensFile d) (checked t) (refreshed t) (tokens h) (player h)) d
      end in
    match r with
    | Ok _ => setPlaying true (updated t) d1
    | Throw m => logError ("Failed to start music: " ++ m) d1
    end.

(** [handleStop] *)
Definition handleStop (h : Host) (t : Times) (d : Daemon) : Daemon :=
  if negb (playing (state d)) then d
  else
    let (r, d1) :=
      match mode (state d) with
      | Native => callNative NativePause (pauseSpotifyNative (os h) (execAsync h)) d
      | WebApi =>
          callRemote RemotePause
            (pauseSpotify (tokensFile d) (checked t) (refreshed t) (tokens h) (player h)) d
      end in
    match r with
    | Ok _ => setPlaying false (updated t) d1
    | Throw m => logError ("Failed to pause music: " ++ m) d1
    end.

(** The object [JSON.stringify(this.state)] prints. *)
Definition stateJson (s : DaemonState) : json :=
  JObj [("playing", JBool (playing s));
        ("mode", JStr (match mode s with Native => "native" | WebApi => "web-api" end));
        ("lastUpdate", JNum (integerText (lastUpdate s)))].

(** The [data] handler of a socket connection, run to its end: the daemon
    afterwards and what was written to the socket, if anything.  [data] is
    the text of the buffer. *)
Definition onData (h : Host) (t : Times) (data : jsstring) (d : Daemon)
  : Daemon * option string :=
  let command := trim data in
  if sameString command (units "start") then (handleStart h t d, Some ("OK" ++ nl))
  else if sameString command (units "stop") then (handleStop h t d, Some ("OK" ++ nl))
  else if sameString command (units "status") then
    (d, Some (stringify (stateJson (state d)) ++ nl))
  else (d, None).

(** A run of connections, each handled to its end before the next sends
    its data. *)
Definition serve (h : Host) (reqs : list (Times * jsstring)) (d : Daemon) : Daemon :=
  fold_left (fun acc req => fst (onData h (fst req) (snd req) acc)) reqs d.







End Daemon.

(** ** src/index.ts: running a command with music *)

Module TuneIn.
Import SpotifyNative NativeControl Spotify Daemon.
Local Open Scope string_scope.

(** The variables of [runCommand] and what its handlers have done: the
    playback calls made, the exit codes of the handlers stopped at the
    [await] in [pauseMusic], and the code of [process.exit]. *)
Record Task := {
  useLocalMode : bool;
  musicStarted : bool;
  played : list call;
  waiting : list Z;
  finished : option Z
}.

(** How the first part of [runCommand] ends: with [process.exit(1)] before
    anything is played or spawned, or with the child spawned.  The second
    carries the config file and the requests sent so far. *)
Inductive begun :=
| Refused (code : Z)
| Spawned (task : Task) (file : store) (sent : list request).

(** [runCommand] up to the spawn of the child. *)
Definition begin (h : Host) (t : Times) (file : store) : result begun :=
  spotifyRunning <- isSpotifyRunning (os h) (execAsync h) ;;
  let config := loadConfig file in
  if negb spotifyRunning
     && (notString (accessToken config) || notString (refreshToken config))
  then Ok (Refused 1)
  else
    let useLocalMode := spotifyRunning in
    if useLocalMode then
      success <- try_catch (playSpotifyNative (os h) (execAsync h)) (fun _ => Ok false) ;;
      Ok (Spawned {| useLocalMode := true; musicStarted := success;
                     played := [NativePlay]; waiting := []; finished := None |}
                  file [])
    else
      let o := playSpotify file (checked t) (refreshed t) (tokens h) (player h) in
      Ok (Spawned {| useLocalMode := false;
                     musicStarted := match returned o with
                                     | Ok _ => true
                                     | Throw _ => false
                                     end;
                     played := [RemotePlay]; waiting := []; finished := None |}
                  (configFile o) (sent o)).

(** [await pauseMusic(); process.exit(code)].  When no music was started
    [pauseMusic] returns at once and the process exits before the event loop
    takes another event; otherwise the handler stops at the [await] of the
    pause call it has made. *)
Definition pauseThenExit (code : Z) (k : Task) : Task :=
  if negb (musicStarted k) then
    {| useLocalMode := useLocalMode k; musicStarted := musicStarted k;
       played := played k; waiting := waiting k; finished := Some code |}
  else
    {| useLocalMode := useLocalMode k; musicStarted := musicStarted k;
       played := (played k ++ [if useLocalMode k then NativePause else RemotePause])%list;
       waiting := (waiting k ++ [code])%list; finished := finished k |}.

Inductive event :=
| ChildExit (code : option Z)
| ChildError
| Interrupt
| PauseEnded (n : nat).

(** [code || 0] *)
Definition orZero (code : option Z) : Z :=
  match code with
  | Some c => c
  | None => 0
  end.

(** One turn of the event loop.  Nothing happens after [process.exit]. *)
Definition step (k : Task) (e : event) : Task :=
  match finished k with
  | Some _ => k
  | None =>
      match e with
      | ChildExit code => pauseThenExit (orZero code) k
      | ChildError => pauseThenExit 1 k
      | Interrupt => pauseThenExit 130 k
      | PauseEnded n =>
          match nth_error (waiting k) n with
          | Some code =>
              {| useLocalMode := useLocalMode k; musicStarted := musicStarted k;
                 played := played k; waiting := waiting k; finished := Some code |}
          | None => k
          end
      end
  end.

Definition run (evs : list event) (k : Task) : Task := fold_left step evs k.

End TuneIn.

(** ** src/index.ts: the command line *)

Module Cli.
Import SpotifyNative NativeControl.
Local Open Scope string_scope.

(** What [main] goes on to do with its arguments. *)
Inductive action :=
| ShowHelp
| Auth
| Logout
| DaemonStop
| DaemonStart
| Signal (command : jsstring)
| Status
| UsageError (code : Z)
| RunCommand (args : list jsstring).

(** [!s] for a string that may be missing. *)
Definition missing (arg : option jsstring) : bool :=
  match arg with
  | None => true
  | Some [] => true
  | Some (_ :: _) => false
  end.

(** [args[1] === text], false when there is no [args[1]]. *)
Definition argIs (arg : option jsstring) (text : string) : bool :=
  match arg with
  | Some a => sameString a (units text)
  | None => false
  end.

(** The [if] and the [switch] of [main], up to the call each branch makes. *)
Definition dispatch (args : list jsstring) : action :=
  match args with
  | [] => ShowHelp
  | command :: rest =>
      if sameString command (units "help") || sameString command (units "--help")
         || sameString command (units "-h") then ShowHelp
      else if sameString command (units "auth") then Auth
      else if sameString command (units "logout") then Logout
      else if sameString command (units "daemon") then
        if argIs (hd_error rest) "stop" then DaemonStop else DaemonStart
      else if sameString command (units "signal") then
        if missing (hd_error rest) then UsageError 1
        else if negb (argIs (hd_error rest) "start") && negb (argIs (hd_error rest) "stop")
        then UsageError 1
        else match hd_error rest with
             | Some a => Signal a
             | None => UsageError 1
             end
      else if sameString command (units "status") then Status
      else RunCommand args
  end.

End Cli.

(** ** hooks/claude-code-hooks.sh *)

Module HookScript.
Import SpotifyNative NativeControl.
Local Open Scope string_scope.

(** The [case] on [$HOOK_EVENT]: the arguments [tune-in] is started with,
    if it is started.  The patterns and the right-hand sides of [==] are
    quoted, so they stand for themselves. *)
Definition invocation (hookEvent toolName : string) : option (list jsstring) :=
  if String.eqb hookEvent "tool_use:before" then
    if String.eqb toolName "Bash" || String.eqb toolName "Task"
    then Some [units "signal"; units "start"] else None
  else if String.eqb hookEvent "tool_use:after" then
    if String.eqb toolName "Bash" || String.eqb toolName "Task"
    then Some [units "signal"; units "stop"] else None
  else if String.eqb hookEvent "turn:before" then Some [units "signal"; units "start"]
  else if String.eqb hookEvent "turn:after" then Some [units "signal"; units "stop"]
  else None.

End HookScript.

(** ** Notions of the daemon and task properties *)

Module DaemonNotions.
Import SpotifyNative NativeControl Spotify Daemon TuneIn.
Local Open Scope string_scope.

(** What a command asks the playing flag to be: [start] asks for true,
    [stop] for false, anything else leaves it as it [was]. *)
Definition asked (was : bool) (data : jsstring) : bool :=
  if sameString (trim data) (units "start") then true
  else if sameString (trim data) (units "stop") then false
  else was.

Definition lastAsked (was : bool) (reqs : list (Times * jsstring)) : bool :=
  fold_left (fun b req => asked b (snd req)) reqs was.

(** Calls of the desktop player that take turns: a play when nothing
    plays, then a pause, then a play, and so on. *)
Fixpoint alternates (isPlaying : bool) (made : list call) : bool :=
  match made with
  | [] => true
  | NativePlay :: rest => negb isPlaying && alternates true rest
  | NativePause :: rest => isPlaying && alternates false rest
  | _ :: _ => false
  end.

(** The pause call of a task's back end. *)
Definition pauseCall (local : bool) : call :=
  if local then NativePause else RemotePause.

End DaemonNotions.

(** ** Sample hosts *)

Module DaemonSamples.
Import SpotifyNative NativeControl Spotify Daemon TuneIn Samples.
Local Open Scope string_scope.

(** A machine on which every command fails and the network is down. *)
Definition deadHost : Host :=
  {| os := OtherPlatform; execAsync := fun _ => Throw "command failed";
     tokens := fun _ => Throw "offline"; player := fun _ => HttpNoResponse |}.


(** A Linux machine on which [pgrep] finds Spotify and every other command
    fails. *)
Definition stuckHost : Host :=
  {| os := OtherPlatform;
     execAsync := fun c => if String.eqb c "pgrep -x spotify" then Ok [52; 50; 10]
                           else Throw "command failed";
     tokens := fun _ => Throw "offline"; player := fun _ => HttpNoResponse |}.

Definition noon : Times := {| checked := 1000000; refreshed := 1000500; updated := 1001000 |}.

(** The texts [start], [stop] and [status] with a newline, and [play]. *)
Definition startLine : jsstring := (units "start" ++ [10])%list.
Definition stopLine : jsstring := (units "stop" ++ [10])%list.



End DaemonSamples.
(** * Properties *)

Import Notions Samples.

(** ** The native back end: [getCurrentTrack] *)

Section CurrentTrack.
Import SpotifyNative.

Lemma startsWith_occurs (s sub : jsstring) :
  startsWith s sub = true -> exists post, s = sub ++ post.
Proof.
  revert s; induction sub as [|a sub IH]; intros s H.
  - exists s; reflexivity.
  - destruct s as [|b s]; simpl in H; [discriminate|].
    apply andb_true_iff in H as [Hab Hrest].
    apply Z.eqb_eq in Hab; subst b.
    destruct (IH _ Hrest) as [post ->].
    exists post; reflexivity.
Qed.

Lemma occurs_startsWith (sub post : jsstring) :
  startsWith (sub ++ post) sub = true.
Proof.
  induction sub as [|a sub IH]; simpl; [destruct post; reflexivity|].
  rewrite Z.eqb_refl; exact IH.
Qed.

Lemma indexOf_nil (sub : jsstring) :
  indexOf [] sub = if startsWith [] sub then 0 else -1.
Proof. reflexivity. Qed.

Lemma indexOf_cons (c : Z) (s sub : jsstring) :
  indexOf (c :: s) sub =
    if startsWith (c :: s) sub then 0
    else if indexOf s sub =? -1 then -1 else indexOf s sub + 1.
Proof. reflexivity. Qed.

Lemma indexOf_lower_bound (s sub : jsstring) : -1 <= indexOf s sub.
Proof.
  induction s as [|c s IH]; [rewrite indexOf_nil|rewrite indexOf_cons].
  - destruct (startsWith [] sub); lia.
  - destruct (startsWith (c :: s) sub); [lia|].
    destruct (indexOf s sub =? -1) eqn:E; lia.
Qed.

(** [indexOf] answers -1 exactly for a string in which [sub] does not occur. *)
Lemma indexOf_absent (s sub : jsstring) :
  indexOf s sub = -1 <-> (forall pre post, s <> pre ++ sub ++ post).
Proof.
  induction s as [|c s IH]; [rewrite indexOf_nil|rewrite indexOf_cons].
  - destruct (startsWith [] sub) eqn:E.
    + split; [discriminate|].
      intros H; exfalso.
      destruct (startsWith_occurs _ _ E) as [post Hp].
      apply (H [] post); exact Hp.
    + split; [|reflexivity].
      intros _ pre post Hs.
      destruct pre; [|discriminate].
      simpl in Hs; rewrite Hs in E.
      rewrite occurs_startsWith in E; discriminate.
  - destruct (startsWith (c :: s) sub) eqn:E.
    + split; [discriminate|].
      intros H; exfalso.
      destruct (startsWith_occurs _ _ E) as [post Hp].
      apply (H [] post); exact Hp.
    + destruct (indexOf s sub =? -1) eqn:Ei.
      * apply Z.eqb_eq in Ei.
        split; [|reflexivity].
        intros _ pre post Hs.
        destruct pre as [|c' pre].
        -- simpl in Hs; rewrite Hs in E.
           rewrite occurs_startsWith in E; discriminate.
        -- simpl in Hs; injection Hs as _ Hs.
           apply (proj1 IH Ei pre post); exact Hs.
      * apply Z.eqb_neq in Ei.
        pose proof (indexOf_lower_bound s sub) as Hlow.
        split; [lia|].
        intros Hno; exfalso; apply Ei; apply IH.
        intros pre post Hs.
        apply (Hno (c :: pre) post); simpl; rewrite Hs; reflexivity.
Qed.

(** The function never throws, whatever the shell does. *)
Lemma getCurrentTrack_returns (p : platform) (execAsync : shell) :
  exists r, getCurrentTrack p execAsync = Ok r.
Proof.
  unfold getCurrentTrack.
  destruct (is_darwin p); simpl; [|eexists; reflexivity].
  destruct (execAsync currentTrackScript) as [stdout|m]; simpl.
  - destruct (negb _); simpl; eexists; reflexivity.
  - eexists; reflexivity.
Qed.

(** When the separator is there, the track is cut around its first
    occurrence. *)
Lemma getCurrentTrack_darwin_found (execAsync : shell) (stdout : jsstring) :
  execAsync currentTrackScript = Ok stdout ->
  indexOf (trim stdout) trackSeparator <> -1 ->
  getCurrentTrack Darwin execAsync =
    Ok (Some {| name := slice (trim stdout) 0 (indexOf (trim stdout) trackSeparator);
                artist := sliceFrom (trim stdout)
                            (indexOf (trim stdout) trackSeparator + 3) |}).
Proof.
  intros Hrun Hidx. unfold getCurrentTrack; simpl.
  rewrite Hrun; simpl.
  apply Z.eqb_neq in Hidx; rewrite Hidx; reflexivity.
Qed.

Lemma trimStart_within (s : jsstring) : exists a, s = a ++ trimStart s.
Proof.
  induction s as [|c s IH]; simpl.
  - exists []; reflexivity.
  - destruct (isWhiteSpace c).
    + destruct IH as [a Ha]. exists (c :: a). simpl. rewrite <- Ha. reflexivity.
    + exists []; reflexivity.
Qed.

(** [trim] cuts a piece out of the string. *)
Lemma trim_within (s : jsstring) : exists a b, s = a ++ trim s ++ b.
Proof.
  unfold trim, trimEnd.
  destruct (trimStart_within s) as [a Ha].
  destruct (trimStart_within (rev (trimStart s))) as [b Hb].
  exists a, (rev b).
  rewrite <- rev_app_distr, <- Hb, rev_involutive. exact Ha.
Qed.

(** So what the whole answer lacks, the trimmed answer lacks. *)
Lemma trim_lacks (s sub : jsstring) :
  (forall pre post, s <> pre ++ sub ++ post) ->
  forall pre post, trim s <> pre ++ sub ++ post.
Proof.
  intros Hlacks pre post Heq.
  destruct (trim_within s) as (a & b & Hs).
  apply (Hlacks (a ++ pre) (post ++ b)).
  rewrite Hs at 1. rewrite Heq. rewrite <- !app_assoc. reflexivity.
Qed.

(** C10.  On a platform other than darwin [getCurrentTrack] returns null
    whatever the player would answer; on darwin it returns null when the
    answer of the player, or the answer once trimmed, does not contain the
    separator; on no platform does it throw. *)
Theorem getCurrentTrack_null (p : platform) (execAsync : shell) :
  (exists r, getCurrentTrack p execAsync = Ok r)
  /\ (p <> Darwin -> getCurrentTrack p execAsync = Ok None)
  /\ (p = Darwin ->
      forall stdout,
        execAsync currentTrackScript = Ok stdout ->
        (forall pre post, stdout <> pre ++ trackSeparator ++ post)
        \/ (forall pre post, trim stdout <> pre ++ trackSeparator ++ post) ->
        getCurrentTrack p execAsync = Ok None).
Proof.
  split; [apply getCurrentTrack_returns|]. split.
  - intros Hp. unfold getCurrentTrack.
    destruct p; [contradiction| |]; reflexivity.
  - intros -> stdout Hrun Hlacks.
    assert (Hidx : indexOf (trim stdout) trackSeparator = -1).
    { apply indexOf_absent.
      destruct Hlacks as [Hraw | Htrimmed]; [apply trim_lacks; exact Hraw | exact Htrimmed]. }
    unfold getCurrentTrack; simpl.
    rewrite Hrun; simpl. rewrite Hidx; reflexivity.
Qed.

Lemma getCurrentTrack_null_witness :
  (OtherPlatform <> Darwin /\ getCurrentTrack OtherPlatform playingShell = Ok None)
  /\ (Win32 <> Darwin /\ getCurrentTrack Win32 playingShell = Ok None)
  /\ getCurrentTrack Darwin idleShell = Ok None.
Proof.
  assert (Ho : OtherPlatform <> Darwin) by discriminate.
  assert (Hw : Win32 <> Darwin) by discriminate.
  split; [split; [exact Ho|]|split; [split; [exact Hw|]|]].
  - exact (proj1 (proj2 (getCurrentTrack_null OtherPlatform playingShell)) Ho).
  - exact (proj1 (proj2 (getCurrentTrack_null Win32 playingShell)) Hw).
  - refine (proj2 (proj2 (getCurrentTrack_null Darwin idleShell)) eq_refl _ eq_refl _).
    right. apply indexOf_absent. vm_compute. reflexivity.
Defined.

Example getCurrentTrack_darwin_playing :
  getCurrentTrack Darwin playingShell =
    Ok (Some {| name := [83; 111; 110; 103]; artist := [66; 97; 110; 100] |}).
Proof. reflexivity. Qed.

End CurrentTrack.

(** ** The remote back end: token refresh *)

Section TokenRefresh.
Import Spotify.

Lemma notString_present (s : string) :
  s <> EmptyString -> notString (Some s) = false.
Proof. destruct s; [congruence | reflexivity]. Qed.

Lemma refresh_test_true (c : Config) (now : Z) :
  expiryStale c now ->
  notNumber (expiresAt c) || expiresSoon (expiresAt c) now = true.
Proof.
  intros [Hnone | (k & Hk & Hlt)].
  - rewrite Hnone; reflexivity.
  - rewrite Hk; simpl. apply orb_true_iff; right.
    apply Z.ltb_lt; lia.
Qed.

Lemma refresh_test_false (c : Config) (now : Z) :
  0 <= now -> ~ expiryStale c now ->
  notNumber (expiresAt c) || expiresSoon (expiresAt c) now = false.
Proof.
  intros Hnow Hfresh. unfold expiryStale in Hfresh.
  destruct (expiresAt c) as [k|] eqn:Hk.
  - simpl. apply orb_false_iff; split.
    + apply Z.eqb_neq; intros ->.
      apply Hfresh; right; exists 0; split; [reflexivity | lia].
    + apply Z.ltb_ge.
      destruct (Z.lt_ge_cases k (now + 300000)) as [Hlt|Hge]; [|lia].
      exfalso; apply Hfresh; right; exists k; split; [reflexivity | exact Hlt].
  - exfalso; apply Hfresh; left; reflexivity.
Qed.

(** Without both tokens nothing is asked of the endpoint and nothing is sent. *)
Lemma playback_needs_tokens
      (file : store) (now nowAfter : Z) (post : tokenEndpoint) (put : playerApi) :
  notString (accessToken (loadConfig file))
  || notString (refreshToken (loadConfig file)) = true ->
  getValidAccessToken file now nowAfter post
  = (Throw "Not authenticated. Please run: tune-in auth", file).
Proof.
  intros H. unfold getValidAccessToken. cbv zeta. rewrite H. reflexivity.
Qed.

(** C9.  For every playback call: when the stored expiry is absent or less
    than five minutes ahead, the token endpoint is asked first, the request
    goes out with the token it returned, and that token is saved with its new
    expiry (no request goes out when the refresh fails); otherwise the
    request goes out with the stored token and the config file is left as it
    is.  A call without both tokens stored sends nothing at all. *)
Theorem playback_refreshes_stale_token
        (file : store) (now nowAfter : Z) (post : tokenEndpoint) (put : playerApi) :
  0 <= now ->
  (notString (accessToken (loadConfig file))
   || notString (refreshToken (loadConfig file)) = true ->
   sent (playSpotify file now nowAfter post put) = []
   /\ sent (pauseSpotify file now nowAfter post put) = []
   /\ configFile (playSpotify file now nowAfter post put) = file
   /\ configFile (pauseSpotify file now nowAfter post put) = file)
  /\ (forall a r : string,
        accessToken (loadConfig file) = Some a -> a <> EmptyString ->
        refreshToken (loadConfig file) = Some r -> r <> EmptyString ->
        (expiryStale (loadConfig file) now ->
         (forall tok expires_in,
             post r = Ok (tok, expires_in) ->
             getValidAccessToken file now nowAfter post
             = (Ok tok, Some {| accessToken := Some tok;
                                refreshToken := Some r;
                                expiresAt := Some (nowAfter + expires_in * 1000) |})
             /\ sent (playSpotify file now nowAfter post put) = [(playUrl, tok)]
             /\ configFile (playSpotify file now nowAfter post put)
                = Some {| accessToken := Some tok;
                          refreshToken := Some r;
                          expiresAt := Some (nowAfter + expires_in * 1000) |}
             /\ sent (pauseSpotify file now nowAfter post put) = [(pauseUrl, tok)]
             /\ configFile (pauseSpotify file now nowAfter post put)
                = Some {| accessToken := Some tok;
                          refreshToken := Some r;
                          expiresAt := Some (nowAfter + expires_in * 1000) |})
         /\ (forall m,
               post r = Throw m ->
               sent (playSpotify file now nowAfter post put) = []
               /\ sent (pauseSpotify file now nowAfter post put) = []
               /\ configFile (playSpotify file now nowAfter post put) = file
               /\ configFile (pauseSpotify file now nowAfter post put) = file))
        /\ (~ expiryStale (loadConfig file) now ->
            getValidAccessToken file now nowAfter post = (Ok a, file)
            /\ sent (playSpotify file now nowAfter post put) = [(playUrl, a)]
            /\ configFile (playSpotify file now nowAfter post put) = file
            /\ sent (pauseSpotify file now nowAfter post put) = [(pauseUrl, a)]
            /\ configFile (pauseSpotify file now nowAfter post put) = file)).
Proof.
  intros Hnow. split.
  { intros Hmissing.
    unfold playSpotify, pauseSpotify.
    rewrite (playback_needs_tokens file now nowAfter post put Hmissing).
    simpl. auto. }
  intros a r Ha Hane Hr Hrne.
  assert (Hauth : notString (accessToken (loadConfig file))
                  || notString (refreshToken (loadConfig file)) = false).
  { rewrite Ha, Hr, (notString_present _ Hane), (notString_present _ Hrne).
    reflexivity. }
  split.
  - intros Hstale.
    assert (Hget : getValidAccessToken file now nowAfter post
                   = refreshAccessToken file nowAfter post).
    { unfold getValidAccessToken. cbv zeta.
      rewrite Hauth, (refresh_test_true _ _ Hstale). reflexivity. }
    split.
    + intros tok expires_in Hpost.
      set (saved := Some {| accessToken := Some tok;
                            refreshToken := Some r;
                            expiresAt := Some (nowAfter + expires_in * 1000) |}).
      assert (Hval : getValidAccessToken file now nowAfter post = (Ok tok, saved)).
      { rewrite Hget. unfold refreshAccessToken. cbv zeta.
        rewrite Hr, (notString_present _ Hrne), Hpost. reflexivity. }
      split; [exact Hval|].
      unfold playSpotify, pauseSpotify. rewrite Hval.
      destruct (put (playUrl, tok)) as [|st|]; destruct (put (pauseUrl, tok)) as [|st'|];
        repeat match goal with
               | |- context [if ?b then _ else _] => destruct b
               end; simpl; auto.
    + intros m Hpost.
      assert (Hval : getValidAccessToken file now nowAfter post = (Throw m, file)).
      { rewrite Hget. unfold refreshAccessToken. cbv zeta.
        rewrite Hr, (notString_present _ Hrne), Hpost. reflexivity. }
      unfold playSpotify, pauseSpotify. rewrite Hval. simpl. auto.
  - intros Hfresh.
    assert (Hval : getValidAccessToken file now nowAfter post = (Ok a, file)).
    { unfold getValidAccessToken. cbv zeta.
      rewrite Hauth, (refresh_test_false _ _ Hnow Hfresh), Ha. reflexivity. }
    split; [exact Hval|].
    unfold playSpotify, pauseSpotify. rewrite Hval.
    destruct (put (playUrl, a)) as [|st|]; destruct (put (pauseUrl, a)) as [|st'|];
      repeat match goal with
             | |- context [if ?b then _ else _] => destruct b
             end; simpl; auto.
Qed.

Lemma playback_refreshes_stale_token_witness :
  (sent (playSpotify staleFile 1000000 1000500 grantingEndpoint acceptingApi)
     = [(playUrl, "new"%string)]
   /\ configFile (playSpotify staleFile 1000000 1000500 grantingEndpoint acceptingApi)
      = Some {| accessToken := Some "new"%string; refreshToken := Some "refresh"%string;
                expiresAt := Some (1000500 + 3600 * 1000) |})
  /\ (sent (playSpotify freshFile 1000000 1000500 grantingEndpoint acceptingApi)
        = [(playUrl, "old"%string)]
      /\ configFile (playSpotify freshFile 1000000 1000500 grantingEndpoint acceptingApi)
         = freshFile)
  /\ sent (playSpotify None 1000000 1000500 grantingEndpoint acceptingApi) = [].
Proof.
  split; [|split].
  - assert (Hstale : expiryStale (loadConfig staleFile) 1000000).
    { right; exists (1000000 + 240000); split; [reflexivity | lia]. }
    destruct (playback_refreshes_stale_token staleFile 1000000 1000500
                grantingEndpoint acceptingApi ltac:(lia))
      as [_ Hauth].
    destruct (Hauth "old"%string "refresh"%string
                eq_refl ltac:(discriminate) eq_refl ltac:(discriminate))
      as [Hrefresh _].
    destruct (Hrefresh Hstale) as [Hok _].
    destruct (Hok "new"%string 3600 eq_refl) as (_ & Hsent & Hfile & _).
    split; [exact Hsent | exact Hfile].
  - assert (Hfresh : ~ expiryStale (loadConfig freshFile) 1000000).
    { intros [Hnone | (k & Hk & Hlt)]; [discriminate|].
      simpl in Hk. injection Hk as <-. lia. }
    destruct (playback_refreshes_stale_token freshFile 1000000 1000500
                grantingEndpoint acceptingApi ltac:(lia))
      as [_ Hauth].
    destruct (Hauth "old"%string "refresh"%string
                eq_refl ltac:(discriminate) eq_refl ltac:(discriminate))
      as [_ Hkeep].
    destruct (Hkeep Hfresh) as (_ & Hsent & Hfile & _).
    split; [exact Hsent | exact Hfile].
  - destruct (playback_refreshes_stale_token None 1000000 1000500
                grantingEndpoint acceptingApi ltac:(lia))
      as [Hnone _].
    exact (proj1 (Hnone eq_refl)).
Defined.

End TokenRefresh.

(** ** The wrapper: keystrokes and the idle timer *)

Section Keystrokes.
Import Json ClaudeWrapper.

Lemma startup_sample (o : Options) :
  startup JsonText.parse OtherPlatform samplePidPath o (Some compactSettings) (Ok 4242%N)
  = Ok (sampleSession o).
Proof. destruct o as [[] a t]; reflexivity. Qed.

Lemma clearTimeout_not_pending (h : nat) (s : Session) (due : Z) :
  ~ In (h, due) (timeouts (clearTimeout h s)).
Proof.
  unfold clearTimeout; simpl. intros Hin.
  apply filter_In in Hin as [_ Hne]. simpl in Hne.
  rewrite Nat.eqb_refl in Hne. discriminate.
Qed.

Lemma clearTimeout_held (s : Session) (h : nat) :
  oneIdleTimer s -> typingTimer s = Some h -> timeouts (clearTimeout h s) = [].
Proof.
  intros [Hnil | (h' & due & Hl & Ht & _)] Hh; unfold clearTimeout; simpl.
  - rewrite Hnil; reflexivity.
  - rewrite Hl. assert (h' = h) by congruence; subst h'.
    simpl. rewrite Nat.eqb_refl. reflexivity.
Qed.

Lemma no_timer_held (s : Session) :
  oneIdleTimer s -> typingTimer s = None -> timeouts s = [].
Proof.
  intros [Hnil | (h' & due & _ & Ht & _)] Hh; [exact Hnil | congruence].
Qed.

(** A submission leaves no timeout pending. *)
Lemma submission_cancels_timer (o : Options) (data : list Z) (s : Session) :
  submission data = true -> oneIdleTimer s ->
  timeouts (onStdinData o data s) = [] /\ typingTimer (onStdinData o data s) = None.
Proof.
  intros Hsub Hone. unfold submission in Hsub.
  unfold onStdinData. cbv zeta. rewrite Hsub.
  change (typingTimer
            (set_charCount 0
               (set_firstMessageSent true (set_ptyInput (ptyInput s ++ [BufferText.toString data]) s))))
    with (typingTimer s).
  destruct (typingTimer s) as [h|] eqn:Hh;
    destruct (spotifyAvailable o && negb (noPauseMode o)); simpl; split;
    try reflexivity; try exact Hh;
    try exact (clearTimeout_held s h Hone Hh); exact (no_timer_held s Hone Hh).
Qed.

(** C4 (amended).  A chunk with a carriage return or a line feed marks the
    first interaction, zeroes the counter, cancels the pending idle timer and
    calls play at once when the player is available and no-pause mode is
    off; it makes no player call otherwise. *)
Theorem enter_marks_and_plays (o : Options) (data : list Z) (s : Session) :
  submission data = true ->
  firstMessageSent (onStdinData o data s) = true
  /\ charCount (onStdinData o data s) = 0
  /\ typingTimer (onStdinData o data s) = None
  /\ (forall h due, typingTimer s = Some h ->
                    ~ In (h, due) (timeouts (onStdinData o data s)))
  /\ (oneIdleTimer s -> timeouts (onStdinData o data s) = [])
  /\ signals (onStdinData o data s)
     = (signals s
        ++ if spotifyAvailable o && negb (noPauseMode o) then [Play Enter] else [])%list.
Proof.
  intros Hsub.
  assert (Hcancel : oneIdleTimer s -> timeouts (onStdinData o data s) = [])
    by (intros Hone; apply (submission_cancels_timer o data s Hsub Hone)).
  revert Hcancel. unfold submission in Hsub.
  unfold onStdinData. cbv zeta. rewrite Hsub.
  change (typingTimer
            (set_charCount 0
               (set_firstMessageSent true (set_ptyInput (ptyInput s ++ [BufferText.toString data]) s))))
    with (typingTimer s).
  destruct (typingTimer s) as [h|] eqn:Hh;
    destruct (spotifyAvailable o && negb (noPauseMode o)); simpl; intros Hcancel;
    repeat split; try reflexivity; try (rewrite app_nil_r; reflexivity);
    try discriminate; try exact Hcancel; try exact Hh.
  all: intros h' due Hh'; injection Hh' as <-;
    apply (clearTimeout_not_pending h s due).
Qed.

Lemma enter_marks_and_plays_witness :
  submission [13] = true
  /\ firstMessageSent (onStdinData vibe [13] (sampleSession vibe)) = true
  /\ signals (onStdinData vibe [13] (sampleSession vibe)) = [Play Launch; Play Enter].
Proof.
  split; [reflexivity|].
  destruct (enter_marks_and_plays vibe [13] (sampleSession vibe) eq_refl)
    as (Hfirst & _ & _ & _ & _ & Hsig).
  split; [exact Hfirst | exact Hsig].
Defined.

(** C4 as stated fails without a player: pausing mode, a carriage return,
    and no play call. *)
Lemma enter_without_player_is_silent :
  noPauseMode playerless = false
  /\ submission [13] = true
  /\ exited (sampleSession playerless) = None
  /\ signals (step playerless (sampleSession playerless) (Stdin [13]))
     = signals (sampleSession playerless)
  /\ ~ In (Play Enter) (signals (step playerless (sampleSession playerless) (Stdin [13]))).
Proof.
  repeat split; try reflexivity.
  vm_compute. intros [].
Qed.

Ltac break_tests :=
  repeat match goal with
         | |- context [if ?b then _ else _] => destruct b eqn:?
         | |- context [match ?x with Some _ => _ | None => _ end] => destruct x eqn:?
         end.

Ltac open_handlers :=
  unfold onStdinData, onTypingPlay, scheduleTypingPause, idleCallback, setTimeout,
    clearTimeout, emit; cbv zeta.

(** What the stdin handler leaves alone. *)
Lemma onStdinData_frame (o : Options) (data : list Z) (s : Session) :
  exited (onStdinData o data s) = exited s
  /\ cleanupRuns (onStdinData o data s) = cleanupRuns s
  /\ awaiting (onStdinData o data s) = awaiting s
  /\ pidFile (onStdinData o data s) = pidFile s
  /\ settingsFile (onStdinData o data s) = settingsFile s
  /\ originalSettings (onStdinData o data s) = originalSettings s
  /\ clock (onStdinData o data s) = clock s.
Proof. open_handlers. break_tests; simpl; repeat split; reflexivity. Qed.

Lemma printableCount_nonneg (data : list Z) : 0 <= printableCount data.
Proof. unfold printableCount; lia. Qed.

(** A chunk without a submission, once the first message is out: the counter
    grows by the printable bytes, and play is called when it lands on the
    threshold. *)
Lemma typing_chunk_effect (o : Options) (data : list Z) (s : Session) :
  submission data = false -> firstMessageSent s = true ->
  charCount (onStdinData o data s) = charCount s + printableCount data
  /\ firstMessageSent (onStdinData o data s) = true
  /\ signals (onStdinData o data s)
     = (signals s
        ++ if (0 <? printableCount data)
              && (charCount s + printableCount data =? TYPING_PLAY_THRESHOLD)
              && negb (noPauseMode o || negb (spotifyAvailable o))
           then [Play TypingPlay] else [])%list.
Proof.
  intros Hsub Hfirst. unfold submission in Hsub.
  pose proof (printableCount_nonneg data) as Hn.
  unfold onStdinData. cbv zeta. rewrite Hsub.
  change (firstMessageSent (set_ptyInput (ptyInput s ++ [BufferText.toString data]) s))
    with (firstMessageSent s).
  rewrite Hfirst. cbv [negb].
  fold (printableCount data).
  destruct (printableCount data =? 0) eqn:Hz.
  - apply Z.eqb_eq in Hz. rewrite Hz. simpl.
    rewrite app_nil_r. repeat split; [lia | exact Hfirst].
  - apply Z.eqb_neq in Hz.
    assert (Hpos : (0 <? printableCount data) = true) by (apply Z.ltb_lt; lia).
    rewrite Hpos.
    change (charCount
              (set_charCount (charCount (set_ptyInput (ptyInput s ++ [BufferText.toString data]) s)
                              + printableCount data)
                 (set_ptyInput (ptyInput s ++ [BufferText.toString data]) s)))
      with (charCount s + printableCount data).
    unfold onTypingPlay, scheduleTypingPause, setTimeout, clearTimeout, emit.
    cbv zeta.
    destruct (charCount s + printableCount data =? TYPING_PLAY_THRESHOLD);
      destruct (noPauseMode o); destruct (spotifyAvailable o); simpl;
      break_tests; simpl; rewrite ?app_nil_r; repeat split; auto.
Qed.

Lemma step_stdin (o : Options) (s : Session) (data : list Z) :
  exited s = None -> step o s (Stdin data) = onStdinData o data s.
Proof. intros H; unfold step; rewrite H; reflexivity. Qed.

Lemma typed_cons (o : Options) (c : list Z) (rest : list (list Z)) (s : Session) :
  typed o (c :: rest) s = typed o rest (step o s (Stdin c)).
Proof. reflexivity. Qed.

Lemma typed_app (o : Options) (a b : list (list Z)) (s : Session) :
  typed o (a ++ b) s = typed o b (typed o a s).
Proof. unfold typed, run. rewrite map_app, fold_left_app. reflexivity. Qed.

Lemma printableTotal_nonneg (chunks : list (list Z)) : 0 <= printableTotal chunks.
Proof.
  induction chunks as [|c rest IH]; simpl; [lia|].
  pose proof (printableCount_nonneg c); lia.
Qed.

Lemma printableTotal_app (a b : list (list Z)) :
  printableTotal (a ++ b) = printableTotal a + printableTotal b.
Proof. induction a as [|c a IH]; simpl; lia. Qed.

(** While the counter stays below the threshold no player call is made. *)
Lemma typed_below_threshold (o : Options) (chunks : list (list Z)) :
  forall s,
    exited s = None -> firstMessageSent s = true -> noSubmission chunks = true ->
    charCount s + printableTotal chunks < TYPING_PLAY_THRESHOLD ->
    signals (typed o chunks s) = signals s
    /\ charCount (typed o chunks s) = charCount s + printableTotal chunks
    /\ firstMessageSent (typed o chunks s) = true
    /\ exited (typed o chunks s) = None.
Proof.
  unfold TYPING_PLAY_THRESHOLD.
  induction chunks as [|c rest IH]; intros s Hex Hfirst Hsub Hlt.
  - unfold typed, run; simpl. repeat split; auto; lia.
  - rewrite typed_cons, (step_stdin _ _ _ Hex).
    simpl in Hsub. apply andb_true_iff in Hsub as [Hc Hrest].
    apply negb_true_iff in Hc.
    destruct (typing_chunk_effect o c s Hc Hfirst) as (Hcount & Hfirst' & Hsig).
    destruct (onStdinData_frame o c s) as (Hex' & _).
    pose proof (printableCount_nonneg c) as Hn.
    pose proof (printableTotal_nonneg rest) as Hr.
    simpl in Hlt.
    unfold TYPING_PLAY_THRESHOLD in Hsig.
    assert (Hne : (charCount s + printableCount c =? 3) = false)
      by (apply Z.eqb_neq; lia).
    rewrite Hne, andb_false_r, app_nil_r in Hsig.
    destruct (IH (onStdinData o c s)) as (Hs & Hc' & Hf & He);
      [congruence | exact Hfirst' | exact Hrest | lia |].
    simpl. repeat split; [congruence | lia | exact Hf | exact He].
Qed.

(** Once the counter is at the threshold or beyond, further typing makes no
    player call. *)
Lemma typed_above_threshold (o : Options) (chunks : list (list Z)) :
  forall s,
    exited s = None -> firstMessageSent s = true -> noSubmission chunks = true ->
    TYPING_PLAY_THRESHOLD <= charCount s ->
    signals (typed o chunks s) = signals s.
Proof.
  unfold TYPING_PLAY_THRESHOLD.
  induction chunks as [|c rest IH]; intros s Hex Hfirst Hsub Hge.
  - reflexivity.
  - rewrite typed_cons, (step_stdin _ _ _ Hex).
    simpl in Hsub. apply andb_true_iff in Hsub as [Hc Hrest].
    apply negb_true_iff in Hc.
    destruct (typing_chunk_effect o c s Hc Hfirst) as (Hcount & Hfirst' & Hsig).
    destruct (onStdinData_frame o c s) as (Hex' & _).
    pose proof (printableCount_nonneg c) as Hn.
    unfold TYPING_PLAY_THRESHOLD in Hsig.
    assert (Hno : (0 <? printableCount c)
                  && (charCount s + printableCount c =? 3) = false).
    { destruct (0 <? printableCount c) eqn:Hpos; [|reflexivity].
      apply Z.ltb_lt in Hpos. apply Z.eqb_neq. lia. }
    rewrite Hno, app_nil_r in Hsig. simpl in Hsig.
    rewrite (IH (onStdinData o c s)); [exact Hsig | congruence | exact Hfirst'
                                       | exact Hrest | lia].
Qed.

(** C3 (amended).  After the first submission, in a burst that starts at a
    count of zero: the chunks before the count is three make no player call;
    the chunk that brings the count to exactly three calls play once when the
    player is available and no-pause mode is off, and makes no call
    otherwise; the chunks after it make no call. *)
Theorem typing_play_at_threshold
        (o : Options) (s : Session) (before : list (list Z)) (c : list Z)
        (after : list (list Z)) :
  exited s = None -> firstMessageSent s = true -> charCount s = 0 ->
  noSubmission (before ++ c :: after) = true ->
  0 < printableCount c ->
  printableTotal before + printableCount c = TYPING_PLAY_THRESHOLD ->
  signals (typed o before s) = signals s
  /\ signals (typed o (before ++ [c]) s)
     = (signals s
        ++ if noPauseMode o || negb (spotifyAvailable o) then [] else [Play TypingPlay])%list
  /\ signals (typed o (before ++ c :: after) s) = signals (typed o (before ++ [c]) s).
Proof.
  intros Hex Hfirst Hzero Hsub Hpos Hsum.
  unfold TYPING_PLAY_THRESHOLD in *.
  unfold noSubmission in Hsub. rewrite forallb_app in Hsub.
  apply andb_true_iff in Hsub as [Hb Hca]. simpl in Hca.
  apply andb_true_iff in Hca as [Hc Ha]. apply negb_true_iff in Hc.
  destruct (typed_below_threshold o before s Hex Hfirst Hb) as (Hs1 & Hc1 & Hf1 & He1);
    [unfold TYPING_PLAY_THRESHOLD; lia|].
  destruct (typing_chunk_effect o c (typed o before s) Hc Hf1) as (Hc2 & Hf2 & Hs2).
  destruct (onStdinData_frame o c (typed o before s)) as (He2 & _).
  assert (Hstep : typed o (before ++ [c]) s = onStdinData o c (typed o before s)).
  { rewrite typed_app. unfold typed at 1. simpl. apply step_stdin; exact He1. }
  split; [exact Hs1|]. split.
  - unfold TYPING_PLAY_THRESHOLD in Hs2.
    rewrite Hstep, Hs2, Hs1.
    replace (0 <? printableCount c) with true by (symmetry; apply Z.ltb_lt; lia).
    replace (charCount (typed o before s) + printableCount c =? 3)
      with true by (symmetry; apply Z.eqb_eq; lia).
    simpl. destruct (noPauseMode o || negb (spotifyAvailable o)); reflexivity.
  - replace (before ++ c :: after)%list with ((before ++ [c]) ++ after)%list
      by (rewrite <- app_assoc; reflexivity).
    rewrite (typed_app o (before ++ [c])), Hstep.
    apply typed_above_threshold;
      [congruence | exact Hf2 | exact Ha | unfold TYPING_PLAY_THRESHOLD; lia].
Qed.

(** The keys [a b], then [c], then [d e], after a submission. *)
Lemma typing_play_at_threshold_witness :
  signals (typed vibe [[97; 98]] (onStdinData vibe [13] (sampleSession vibe)))
  = [Play Launch; Play Enter]
  /\ signals (typed vibe [[97; 98]; [99]] (onStdinData vibe [13] (sampleSession vibe)))
     = [Play Launch; Play Enter; Play TypingPlay]
  /\ signals (typed vibe [[97; 98]; [99]; [100; 101]]
                (onStdinData vibe [13] (sampleSession vibe)))
     = [Play Launch; Play Enter; Play TypingPlay].
Proof.
  destruct (typing_play_at_threshold vibe (onStdinData vibe [13] (sampleSession vibe))
              [[97; 98]] [99] [[100; 101]]
              eq_refl eq_refl eq_refl eq_refl eq_refl eq_refl)
    as (H1 & H2 & H3).
  split; [exact H1|]. split; [exact H2|].
  exact (eq_trans H3 H2).
Defined.

(** C3 as stated fails in no-pause mode: three printable keys after a
    submission, and no play call. *)
Lemma typing_in_no_pause_mode_is_silent :
  firstMessageSent (onStdinData continuous [13] (sampleSession continuous)) = true
  /\ printableTotal [[97]; [98]; [99]] = 3
  /\ signals (typed continuous [[97]; [98]; [99]]
                (onStdinData continuous [13] (sampleSession continuous)))
     = signals (onStdinData continuous [13] (sampleSession continuous))
  /\ ~ In (Play TypingPlay)
         (signals (typed continuous [[97]; [98]; [99]]
                     (onStdinData continuous [13] (sampleSession continuous)))).
Proof.
  repeat split; try reflexivity.
  vm_compute. intros [H|[]]. discriminate.
Qed.

(** A pasted chunk can take the count past three without landing on it: no
    play call, yet the idle timer is armed and its pause follows. *)
Example paste_skips_typing_play :
  let s := typed vibe [[97; 98]; [99; 100]] (onStdinData vibe [13] (sampleSession vibe)) in
  charCount s = 4
  /\ signals s = [Play Launch; Play Enter]
  /\ timeouts s = [(0%nat, 6000)]
  /\ signals (elapse 6000 s) = [Play Launch; Play Enter; Pause IdleTimer].
Proof. vm_compute. repeat split; reflexivity. Qed.

(** An arrow key arrives as the bytes ESC [ A: the escape byte is skipped,
    the two bytes after it are printable and are counted. *)
Example arrow_key_counts_two :
  printableCount [27; 91; 65] = 2
  /\ charCount (onStdinData vibe [27; 91; 65]
                  (onStdinData vibe [13] (sampleSession vibe))) = 2.
Proof. vm_compute. split; reflexivity. Qed.

(** *** The idle timer *)

(** [scheduleTypingPause] with the player available and pausing on: the timer
    held is cleared and a fresh one, due in [TYPING_IDLE_MS], takes its place. *)
Lemma schedule_arms (o : Options) (s : Session) :
  noPauseMode o || negb (spotifyAvailable o) = false -> oneIdleTimer s ->
  timeouts (scheduleTypingPause o s) = [(nextHandle s, clock s + TYPING_IDLE_MS)]
  /\ typingTimer (scheduleTypingPause o s) = Some (nextHandle s)
  /\ nextHandle (scheduleTypingPause o s) = S (nextHandle s).
Proof.
  intros Hon Hone. unfold scheduleTypingPause. cbv zeta. rewrite Hon.
  destruct (typingTimer s) as [h|] eqn:Hh.
  - pose proof (clearTimeout_held s h Hone Hh) as Hnil.
    unfold setTimeout. simpl in *. rewrite Hnil. auto.
  - pose proof (no_timer_held s Hone Hh) as Hnil.
    unfold setTimeout. simpl. rewrite Hnil. auto.
Qed.

(** In no-pause mode, or without a player, it only clears. *)
Lemma schedule_disabled (o : Options) (s : Session) :
  noPauseMode o || negb (spotifyAvailable o) = true -> oneIdleTimer s ->
  timeouts (scheduleTypingPause o s) = []
  /\ typingTimer (scheduleTypingPause o s) = typingTimer s
  /\ nextHandle (scheduleTypingPause o s) = nextHandle s.
Proof.
  intros Hoff Hone. unfold scheduleTypingPause. cbv zeta. rewrite Hoff.
  destruct (typingTimer s) as [h|] eqn:Hh.
  - pose proof (clearTimeout_held s h Hone Hh) as Hnil.
    simpl in *. rewrite Hnil, Hh. auto.
  - pose proof (no_timer_held s Hone Hh) as Hnil. rewrite Hnil, Hh. auto.
Qed.

Lemma schedule_signals (o : Options) (s : Session) :
  signals (scheduleTypingPause o s) = signals s
  /\ charCount (scheduleTypingPause o s) = charCount s
  /\ clock (scheduleTypingPause o s) = clock s
  /\ firstMessageSent (scheduleTypingPause o s) = firstMessageSent s.
Proof. open_handlers. break_tests; simpl; auto. Qed.

Lemma oneIdleTimer_schedule (o : Options) (s : Session) :
  oneIdleTimer s -> oneIdleTimer (scheduleTypingPause o s).
Proof.
  intros Hone.
  destruct (noPauseMode o || negb (spotifyAvailable o)) eqn:Hg.
  - left. apply (schedule_disabled o s Hg Hone).
  - destruct (schedule_arms o s Hg Hone) as (Ht & Hv & Hn).
    right. exists (nextHandle s), (clock s + TYPING_IDLE_MS).
    rewrite Ht, Hv, Hn. auto.
Qed.

Lemma oneIdleTimer_stdin (o : Options) (data : list Z) (s : Session) :
  oneIdleTimer s -> oneIdleTimer (onStdinData o data s).
Proof.
  intros Hone.
  destruct (submission data) eqn:Hsub.
  - left. apply (submission_cancels_timer o data s Hsub Hone).
  - unfold submission in Hsub. unfold onStdinData. cbv zeta. rewrite Hsub.
    destruct (negb (firstMessageSent _)); [exact Hone|].
    destruct (Z.of_nat _ =? 0); [exact Hone|].
    match goal with
    | |- oneIdleTimer (if _ then scheduleTypingPause o ?x else ?x) =>
        assert (Hx : oneIdleTimer x)
    end.
    { destruct (_ =? TYPING_PLAY_THRESHOLD); [|exact Hone].
      unfold onTypingPlay.
      destruct (noPauseMode o || negb (spotifyAvailable o)); exact Hone. }
    destruct (_ >=? _); [apply oneIdleTimer_schedule|]; exact Hx.
Qed.

(** Time passing over a session with nothing pending. *)
Lemma elapse_idle (ms : N) (s : Session) :
  timeouts s = [] ->
  signals (elapse ms s) = signals s
  /\ charCount (elapse ms s) = charCount s
  /\ typingTimer (elapse ms s) = typingTimer s
  /\ timeouts (elapse ms s) = []
  /\ nextHandle (elapse ms s) = nextHandle s.
Proof.
  intros Hnil. unfold elapse, runTimers. simpl. rewrite Hnil. simpl. auto.
Qed.

(** Time passing short of the due time of the pending timeout. *)
Lemma elapse_waits (ms : N) (s : Session) (h : nat) (due : Z) :
  timeouts s = [(h, due)] -> clock s + Z.of_N ms < due ->
  signals (elapse ms s) = signals s
  /\ charCount (elapse ms s) = charCount s
  /\ typingTimer (elapse ms s) = typingTimer s
  /\ timeouts (elapse ms s) = [(h, due)]
  /\ nextHandle (elapse ms s) = nextHandle s.
Proof.
  intros Hl Hlt. unfold elapse, runTimers. simpl. rewrite Hl. simpl.
  unfold isDue. simpl.
  replace (due <=? clock s + Z.of_N ms) with false by (symmetry; apply Z.leb_gt; lia).
  simpl. auto.
Qed.

(** Time passing up to the due time or beyond: the callback runs. *)
Lemma elapse_fires (ms : N) (s : Session) (h : nat) (due : Z) :
  timeouts s = [(h, due)] -> due <= clock s + Z.of_N ms ->
  signals (elapse ms s) = (signals s ++ [Pause IdleTimer])%list
  /\ charCount (elapse ms s) = 0
  /\ typingTimer (elapse ms s) = None
  /\ timeouts (elapse ms s) = []
  /\ nextHandle (elapse ms s) = nextHandle s.
Proof.
  intros Hl Hle. unfold elapse, runTimers. simpl. rewrite Hl. simpl.
  unfold isDue. simpl.
  replace (due <=? clock s + Z.of_N ms) with true by (symmetry; apply Z.leb_le; lia).
  simpl. auto.
Qed.

Lemma elapse_frame (ms : N) (s : Session) :
  exited (elapse ms s) = exited s
  /\ cleanupRuns (elapse ms s) = cleanupRuns s
  /\ awaiting (elapse ms s) = awaiting s
  /\ pidFile (elapse ms s) = pidFile s
  /\ settingsFile (elapse ms s) = settingsFile s
  /\ originalSettings (elapse ms s) = originalSettings s
  /\ firstMessageSent (elapse ms s) = firstMessageSent s
  /\ clock (elapse ms s) = clock s + Z.of_N ms.
Proof.
  unfold elapse, runTimers. simpl.
  generalize (filter (isDue (clock s + Z.of_N ms)) (timeouts s)).
  generalize (filter (fun t => negb (isDue (clock s + Z.of_N ms) t)) (timeouts s)).
  intros keep due.
  assert (H : forall t,
             exited (fold_left (fun acc _ => idleCallback acc) due t) = exited t
             /\ cleanupRuns (fold_left (fun acc _ => idleCallback acc) due t) = cleanupRuns t
             /\ awaiting (fold_left (fun acc _ => idleCallback acc) due t) = awaiting t
             /\ pidFile (fold_left (fun acc _ => idleCallback acc) due t) = pidFile t
             /\ settingsFile (fold_left (fun acc _ => idleCallback acc) due t)
                = settingsFile t
             /\ originalSettings (fold_left (fun acc _ => idleCallback acc) due t)
                = originalSettings t
             /\ firstMessageSent (fold_left (fun acc _ => idleCallback acc) due t)
                = firstMessageSent t
             /\ clock (fold_left (fun acc _ => idleCallback acc) due t) = clock t).
  { induction due as [|d due IH]; intros t; simpl; [repeat split; reflexivity|].
    destruct (IH (idleCallback t)) as (H1 & H2 & H3 & H4 & H5 & H6 & H7 & H8).
    rewrite H1, H2, H3, H4, H5, H6, H7, H8. repeat split; reflexivity. }
  exact (H (set_timeouts keep (set_clock (clock s + Z.of_N ms) s))).
Qed.

Lemma oneIdleTimer_elapse (ms : N) (s : Session) :
  oneIdleTimer s -> oneIdleTimer (elapse ms s).
Proof.
  intros [Hnil | (h & due & Hl & Ht & Hlt)].
  - left. apply (elapse_idle ms s Hnil).
  - destruct (Z.lt_ge_cases (clock s + Z.of_N ms) due) as [Hw | Hf].
    + destruct (elapse_waits ms s h due Hl Hw) as (_ & _ & Hv & Hk & Hn).
      right. exists h, due. rewrite Hk, Hv, Hn. auto.
    + left. apply (elapse_fires ms s h due Hl). lia.
Qed.

Lemma oneIdleTimer_cleanup (o : Options) (s : Session) :
  oneIdleTimer s -> timeouts (cleanup o s) = [].
Proof.
  intros Hone. unfold cleanup. cbv zeta.
  change (typingTimer (set_cleanupRuns (S (cleanupRuns s)) s)) with (typingTimer s).
  destruct (typingTimer s) as [h|] eqn:Hh.
  - pose proof (clearTimeout_held s h Hone Hh) as Hnil.
    destruct (stdinIsTTY o); destruct (spotifyAvailable o); simpl in *; exact Hnil.
  - pose proof (no_timer_held s Hone Hh) as Hnil.
    destruct (stdinIsTTY o); destruct (spotifyAvailable o); simpl in *; exact Hnil.
Qed.

Lemma oneIdleTimer_step (o : Options) (s : Session) (e : event) :
  oneIdleTimer s -> oneIdleTimer (step o s e).
Proof.
  intros Hone. unfold step. destruct (exited s); [exact Hone|].
  destruct e as [data | ms | code | | k].
  - apply oneIdleTimer_stdin; exact Hone.
  - apply oneIdleTimer_elapse; exact Hone.
  - left. unfold onExit, cleanupThenExit. cbv zeta.
    destruct (spotifyAvailable o); simpl; apply oneIdleTimer_cleanup; exact Hone.
  - left. unfold onSigint, cleanupThenExit. cbv zeta.
    destruct (spotifyAvailable o); simpl; apply oneIdleTimer_cleanup; exact Hone.
  - unfold onPauseSettled. destruct (nth_error _ _); exact Hone.
Qed.

Lemma oneIdleTimer_run (o : Options) (evs : list event) :
  forall s, oneIdleTimer s -> oneIdleTimer (run o evs s).
Proof.
  induction evs as [|e evs IH]; intros s Hone; [exact Hone|].
  simpl. apply IH. apply oneIdleTimer_step; exact Hone.
Qed.

Lemma oneIdleTimer_started (parse : parser) (p : platform) (pidPath : string)
      (o : Options) (settings0 : option string) (spawned : result N) (s0 : Session) :
  startup parse p pidPath o settings0 spawned = Ok s0 -> oneIdleTimer s0.
Proof.
  unfold startup. destruct spawned as [pid|m]; simpl; [|discriminate].
  destruct (injectHooks _ _ _ _ _) as [r|m]; simpl; [|discriminate].
  intros H; injection H as <-. left; reflexivity.
Qed.

(** C6.  In every state a session can reach, at most one timeout is pending;
    scheduling the idle timer removes whatever was pending before and leaves
    at most one; a submission leaves none. *)
Theorem one_idle_timer
        (parse : parser) (p : platform) (pidPath : string) (o : Options)
        (settings0 : option string) (spawned : result N) (s0 : Session)
        (evs : list event) :
  startup parse p pidPath o settings0 spawned = Ok s0 ->
  (List.length (timeouts (run o evs s0)) <= 1)%nat
  /\ (forall t, In t (timeouts (run o evs s0)) ->
                ~ In t (timeouts (scheduleTypingPause o (run o evs s0))))
  /\ (List.length (timeouts (scheduleTypingPause o (run o evs s0))) <= 1)%nat
  /\ (forall data, submission data = true ->
                   timeouts (onStdinData o data (run o evs s0)) = []).
Proof.
  intros Hstart.
  pose proof (oneIdleTimer_run o evs s0 (oneIdleTimer_started _ _ _ _ _ _ _ Hstart))
    as Hone.
  set (s := run o evs s0) in *.
  split; [|split; [|split]].
  - destruct Hone as [Hnil | (h & due & Hl & _)]; [rewrite Hnil | rewrite Hl]; simpl; lia.
  - intros t Hin Hstill.
    destruct (noPauseMode o || negb (spotifyAvailable o)) eqn:Hg.
    + destruct (schedule_disabled o s Hg Hone) as (Hnil & _).
      rewrite Hnil in Hstill. exact Hstill.
    + destruct (schedule_arms o s Hg Hone) as (Hl' & _).
      rewrite Hl' in Hstill.
      destruct Hone as [Hnil | (h & due & Hl & _ & Hlt)].
      * rewrite Hnil in Hin. exact Hin.
      * rewrite Hl in Hin.
        destruct Hin as [<- | []]. destruct Hstill as [Heq | []].
        injection Heq as Hh _. lia.
  - destruct (oneIdleTimer_schedule o s Hone) as [Hnil | (h & due & Hl & _)];
      [rewrite Hnil | rewrite Hl]; simpl; lia.
  - intros data Hsub. apply (submission_cancels_timer o data s Hsub Hone).
Qed.

Lemma one_idle_timer_witness :
  (List.length (timeouts (run vibe sampleKeys (sampleSession vibe))) <= 1)%nat
  /\ timeouts (onStdinData vibe [13] (run vibe sampleKeys (sampleSession vibe))) = [].
Proof.
  destruct (one_idle_timer JsonText.parse OtherPlatform samplePidPath vibe
              (Some compactSettings) (Ok 4242%N) (sampleSession vibe)
              sampleKeys (startup_sample vibe))
    as (Hlen & _ & _ & Hsub).
  split; [exact Hlen | exact (Hsub [13] eq_refl)].
Defined.

(** A typing chunk that takes the count to the threshold or beyond, player
    available and pausing on: one timeout is pending afterwards, due
    [TYPING_IDLE_MS] from now. *)
Lemma typing_chunk_arms (o : Options) (c : list Z) (s : Session) :
  noPauseMode o || negb (spotifyAvailable o) = false ->
  oneIdleTimer s -> firstMessageSent s = true ->
  submission c = false -> 0 < printableCount c ->
  TYPING_PLAY_THRESHOLD <= charCount s + printableCount c ->
  timeouts (onStdinData o c s) = [(nextHandle s, clock s + TYPING_IDLE_MS)]
  /\ typingTimer (onStdinData o c s) = Some (nextHandle s)
  /\ nextHandle (onStdinData o c s) = S (nextHandle s).
Proof.
  intros Hg Hone Hfirst Hsub Hpos Hge. unfold submission in Hsub.
  unfold onStdinData. cbv zeta. rewrite Hsub.
  change (firstMessageSent (set_ptyInput (ptyInput s ++ [BufferText.toString c]) s))
    with (firstMessageSent s).
  rewrite Hfirst. cbv [negb].
  fold (printableCount c).
  replace (printableCount c =? 0) with false by (symmetry; apply Z.eqb_neq; lia).
  match goal with
  | |- context [if _ >=? _ then scheduleTypingPause o ?x else ?x] =>
      assert (Hx : oneIdleTimer x /\ nextHandle x = nextHandle s /\ clock x = clock s
                   /\ charCount x = charCount s + printableCount c);
      [|set (X := x) in *]
  end.
  { destruct (_ =? TYPING_PLAY_THRESHOLD); [|repeat split; exact Hone].
    unfold onTypingPlay. rewrite Hg. repeat split; exact Hone. }
  destruct Hx as (HoneX & HnX & HcX & HkX).
  replace (charCount X >=? TYPING_PLAY_THRESHOLD) with true
    by (symmetry; rewrite Z.geb_leb; apply Z.leb_le; lia).
  destruct (schedule_arms o X Hg HoneX) as (Ht & Hv & Hn).
  rewrite Ht, Hv, Hn, HnX, HcX. auto.
Qed.

(** A chunk with no end-of-line and no printable byte goes to the child and
    changes nothing else. *)
Lemma unqualified_chunk_ignored (o : Options) (c : list Z) (s : Session) :
  submission c = false -> printableCount c = 0 ->
  signals (onStdinData o c s) = signals s
  /\ charCount (onStdinData o c s) = charCount s
  /\ timeouts (onStdinData o c s) = timeouts s
  /\ typingTimer (onStdinData o c s) = typingTimer s
  /\ nextHandle (onStdinData o c s) = nextHandle s
  /\ firstMessageSent (onStdinData o c s) = firstMessageSent s.
Proof.
  intros Hsub Hzero. unfold submission in Hsub.
  unfold onStdinData. cbv zeta. rewrite Hsub.
  fold (printableCount c). rewrite Hzero. simpl.
  destruct (negb (firstMessageSent s)); simpl; auto 10.
Qed.

Lemma elapsed_nonneg (evs : list event) : 0 <= elapsed evs.
Proof.
  induction evs as [|e evs IH]; simpl; [lia|].
  destruct e; try exact IH. lia.
Qed.

(** What a quiet event can be. *)
Lemma quiet_cases (e : event) :
  quiet e = true ->
  (exists ms, e = Elapse ms)
  \/ (exists c, e = Stdin c /\ submission c = false /\ printableCount c = 0).
Proof.
  destruct e as [c | ms | | |]; simpl; try discriminate.
  - intros H. apply andb_true_iff in H as [Hs Hz].
    apply negb_true_iff in Hs. apply Z.eqb_eq in Hz.
    right. exists c. auto.
  - intros _. left. exists ms. reflexivity.
Qed.

Lemma run_cons (o : Options) (e : event) (evs : list event) (s : Session) :
  run o (e :: evs) s = run o evs (step o s e).
Proof. reflexivity. Qed.

Lemma step_elapse (o : Options) (s : Session) (ms : N) :
  exited s = None -> step o s (Elapse ms) = elapse ms s.
Proof. intros H; unfold step; rewrite H; reflexivity. Qed.

(** Quiet events with nothing pending: no player call. *)
Lemma quiet_run_idle (o : Options) (evs : list event) :
  forall s,
    exited s = None -> forallb quiet evs = true -> timeouts s = [] ->
    signals (run o evs s) = signals s
    /\ charCount (run o evs s) = charCount s
    /\ timeouts (run o evs s) = [].
Proof.
  induction evs as [|e evs IH]; intros s Hex Hq Hnil; [auto|].
  simpl in Hq. apply andb_true_iff in Hq as [He Hq].
  rewrite run_cons.
  destruct (quiet_cases e He) as [[ms ->] | (c & -> & Hsub & Hzero)];
    [rewrite (step_elapse _ _ _ Hex) | rewrite (step_stdin _ _ _ Hex)].
  - destruct (elapse_idle ms s Hnil) as (Hs & Hc & _ & Ht & _).
    destruct (elapse_frame ms s) as (Hex' & _).
    destruct (IH (elapse ms s)) as (Hs' & Hc' & Ht'); [congruence | exact Hq | exact Ht |].
    rewrite Hs', Hc', Ht'. auto.
  - destruct (unqualified_chunk_ignored o c s Hsub Hzero) as (Hs & Hc & Ht & _).
    destruct (onStdinData_frame o c s) as (Hex' & _).
    destruct (IH (onStdinData o c s)) as (Hs' & Hc' & Ht');
      [congruence | exact Hq | congruence |].
    rewrite Hs', Hc', Ht'. auto.
Qed.

(** Quiet events that end before the pending timeout is due: no player call,
    the timeout still pending. *)
Lemma quiet_run_waits (o : Options) (evs : list event) :
  forall s h due,
    exited s = None -> forallb quiet evs = true ->
    timeouts s = [(h, due)] -> clock s + elapsed evs < due ->
    signals (run o evs s) = signals s
    /\ charCount (run o evs s) = charCount s
    /\ timeouts (run o evs s) = [(h, due)]
    /\ typingTimer (run o evs s) = typingTimer s
    /\ nextHandle (run o evs s) = nextHandle s
    /\ firstMessageSent (run o evs s) = firstMessageSent s
    /\ clock (run o evs s) = clock s + elapsed evs
    /\ exited (run o evs s) = None.
Proof.
  induction evs as [|e evs IH]; intros s h due Hex Hq Hl Hlt.
  - simpl. repeat split; auto; lia.
  - simpl in Hq. apply andb_true_iff in Hq as [He Hq].
    pose proof (elapsed_nonneg evs) as Hrest.
    rewrite run_cons.
    destruct (quiet_cases e He) as [[ms ->] | (c & -> & Hsub & Hzero)];
      [rewrite (step_elapse _ _ _ Hex) | rewrite (step_stdin _ _ _ Hex)].
    + simpl in Hlt.
      destruct (elapse_waits ms s h due Hl) as (Hs & Hc & Hv & Ht & Hn); [lia|].
      destruct (elapse_frame ms s) as (Hex' & _ & _ & _ & _ & _ & Hf & Hk).
      destruct (IH (elapse ms s) h due) as (H1 & H2 & H3 & H4 & H5 & H6 & H7 & H8);
        [congruence | exact Hq | exact Ht | rewrite Hk; lia |].
      rewrite H1, H2, H3, H4, H5, H6, H7, H8, Hs, Hc, Hv, Hn, Hf, Hk.
      simpl. repeat split; auto; lia.
    + simpl in Hlt.
      destruct (unqualified_chunk_ignored o c s Hsub Hzero)
        as (Hs & Hc & Ht & Hv & Hn & Hf).
      destruct (onStdinData_frame o c s) as (Hex' & _ & _ & _ & _ & _ & Hk).
      destruct (IH (onStdinData o c s) h due)
        as (H1 & H2 & H3 & H4 & H5 & H6 & H7 & H8);
        [congruence | exact Hq | congruence | rewrite Hk; lia |].
      rewrite H1, H2, H3, H4, H5, H6, H7, H8, Hs, Hc, Hv, Hn, Hf, Hk.
      simpl. repeat split; auto.
Qed.

(** Quiet events that reach the due time of the pending timeout: its
    callback runs, once. *)
Lemma quiet_run_fires (o : Options) (evs : list event) :
  forall s h due,
    exited s = None -> forallb quiet evs = true ->
    timeouts s = [(h, due)] -> clock s < due -> due <= clock s + elapsed evs ->
    signals (run o evs s) = (signals s ++ [Pause IdleTimer])%list
    /\ charCount (run o evs s) = 0
    /\ timeouts (run o evs s) = [].
Proof.
  induction evs as [|e evs IH]; intros s h due Hex Hq Hl Hnot Hdue.
  - simpl in Hdue. lia.
  - simpl in Hq. apply andb_true_iff in Hq as [He Hq].
    rewrite run_cons.
    destruct (quiet_cases e He) as [[ms ->] | (c & -> & Hsub & Hzero)];
      [rewrite (step_elapse _ _ _ Hex) | rewrite (step_stdin _ _ _ Hex)].
    + simpl in Hdue.
      destruct (elapse_frame ms s) as (Hex' & _ & _ & _ & _ & _ & _ & Hk).
      destruct (Z.lt_ge_cases (clock s + Z.of_N ms) due) as [Hw | Hf].
      * destruct (elapse_waits ms s h due Hl Hw) as (Hs & Hc & _ & Ht & _).
        destruct (IH (elapse ms s) h due) as (H1 & H2 & H3);
          [congruence | exact Hq | exact Ht | rewrite Hk; lia | rewrite Hk; lia |].
        rewrite H1, H2, H3, Hs. auto.
      * destruct (elapse_fires ms s h due Hl) as (Hs & Hc & _ & Ht & _); [lia|].
        destruct (quiet_run_idle o evs (elapse ms s)) as (H1 & H2 & H3);
          [congruence | exact Hq | exact Ht |].
        rewrite H1, H2, H3, Hs, Hc. auto.
    + simpl in Hdue.
      destruct (unqualified_chunk_ignored o c s Hsub Hzero) as (Hs & Hc & Ht & _).
      destruct (onStdinData_frame o c s) as (Hex' & _ & _ & _ & _ & _ & Hk).
      destruct (IH (onStdinData o c s) h due) as (H1 & H2 & H3);
        [congruence | exact Hq | congruence | rewrite Hk; lia | rewrite Hk; lia |].
      rewrite H1, H2, H3, Hs. auto.
Qed.

(** C5 (amended).  With the player available and no-pause mode off, a typing
    chunk that takes the count to the threshold or beyond leaves one idle
    timer pending, due 6000 ms later.  If 6000 ms or more pass with nothing
    but unqualified input (no end-of-line, no printable byte), one pause is
    called and the counter goes back to zero.  If less time has passed and a
    qualifying chunk arrives, that timer is removed and no pause is called:
    none for the next 6000 ms after a printable byte, none at all after a
    submission, as long as nothing is typed. *)
Theorem idle_pause_after_threshold (o : Options) (s : Session) (c : list Z) :
  spotifyAvailable o = true -> noPauseMode o = false -> exited s = None ->
  oneIdleTimer s -> firstMessageSent s = true ->
  submission c = false -> 0 < printableCount c ->
  TYPING_PLAY_THRESHOLD <= charCount s + printableCount c ->
  timeouts (onStdinData o c s) = [(nextHandle s, clock s + TYPING_IDLE_MS)]
  /\ (forall silence : list event,
        forallb quiet silence = true ->
        TYPING_IDLE_MS <= elapsed silence ->
        signals (run o silence (onStdinData o c s))
        = (signals (onStdinData o c s) ++ [Pause IdleTimer])%list
        /\ charCount (run o silence (onStdinData o c s)) = 0
        /\ timeouts (run o silence (onStdinData o c s)) = [])
  /\ (forall silence : list event,
        forallb quiet silence = true ->
        elapsed silence < TYPING_IDLE_MS ->
        signals (run o silence (onStdinData o c s)) = signals (onStdinData o c s)
        /\ forall c' : list Z,
             submission c' = true \/ 0 < printableCount c' ->
             (forall due,
                 ~ In (nextHandle s, due)
                      (timeouts (onStdinData o c' (run o silence (onStdinData o c s)))))
             /\ (forall more : list event,
                   forallb quiet more = true ->
                   elapsed more < TYPING_IDLE_MS ->
                   signals (run o more
                              (onStdinData o c' (run o silence (onStdinData o c s))))
                   = signals (onStdinData o c' (run o silence (onStdinData o c s))))
             /\ (submission c' = true ->
                 forall more : list event,
                   forallb quiet more = true ->
                   signals (run o more
                              (onStdinData o c' (run o silence (onStdinData o c s))))
                   = signals (onStdinData o c' (run o silence (onStdinData o c s))))).
Proof.
  intros Havail Hpause Hex Hone Hfirst Hsub Hpos Hge.
  assert (Hg : noPauseMode o || negb (spotifyAvailable o) = false)
    by (rewrite Havail, Hpause; reflexivity).
  destruct (typing_chunk_arms o c s Hg Hone Hfirst Hsub Hpos Hge) as (Hl & Hv & Hn).
  destruct (typing_chunk_effect o c s Hsub Hfirst) as (Hcount & Hfirst1 & _).
  destruct (onStdinData_frame o c s) as (Hex1 & _ & _ & _ & _ & _ & Hclock).
  rewrite Hex in Hex1.
  unfold TYPING_IDLE_MS, TYPING_PLAY_THRESHOLD in *.
  set (s1 := onStdinData o c s) in *.
  split; [exact Hl|]. split.
  - intros silence Hq Hlong.
    apply (quiet_run_fires o silence s1 _ _ Hex1 Hq Hl); rewrite Hclock; lia.
  - intros silence Hq Hshort.
    destruct (quiet_run_waits o silence s1 _ _ Hex1 Hq Hl)
      as (Hsig & Hcount2 & Hl2 & Hv2 & Hn2 & Hfirst2 & Hclock2 & Hex2);
      [rewrite Hclock; lia|].
    set (s2 := run o silence s1) in *.
    assert (Hone2 : oneIdleTimer s2).
    { right. exists (nextHandle s), (clock s + 6000).
      rewrite Hl2, Hv2, Hv, Hn2, Hn. auto. }
    split; [exact Hsig|].
    intros c' Hqual.
    destruct (onStdinData_frame o c' s2) as (Hex3 & _ & _ & _ & _ & _ & Hclock3).
    rewrite Hex2 in Hex3.
    destruct (submission c') eqn:Hsub'.
    + destruct (submission_cancels_timer o c' s2 Hsub' Hone2) as (Hnil & _).
      split; [intros due; rewrite Hnil; intros []|].
      split; intros; apply (quiet_run_idle o more _ Hex3); assumption.
    + destruct Hqual as [Hq' | Hq']; [discriminate|].
      destruct (typing_chunk_arms o c' s2 Hg Hone2) as (Hl3 & _ & _);
        [congruence | exact Hsub' | exact Hq'
         | rewrite Hcount2, Hcount; unfold TYPING_PLAY_THRESHOLD; lia |].
      split; [|split; [|discriminate]].
      * intros due. rewrite Hl3, Hn2, Hn. intros [Heq | []].
        injection Heq as Heq _. lia.
      * intros more Hqm Hms'.
        apply (quiet_run_waits o more _ _ _ Hex3 Hqm Hl3).
        unfold TYPING_IDLE_MS. rewrite Hclock3. lia.
Qed.

(** Enter, [a b c], then a backspace and 6001 ms of silence; or 5999 ms,
    the key [d], and 5999 ms more. *)
Lemma idle_pause_after_threshold_witness :
  signals (run vibe [Stdin [127]; Elapse 6001]
             (onStdinData vibe [97; 98; 99]
                (onStdinData vibe [13] (sampleSession vibe))))
  = [Play Launch; Play Enter; Play TypingPlay; Pause IdleTimer]
  /\ charCount (run vibe [Stdin [127]; Elapse 6001]
                  (onStdinData vibe [97; 98; 99]
                     (onStdinData vibe [13] (sampleSession vibe)))) = 0
  /\ signals (run vibe [Elapse 5999]
                (onStdinData vibe [100]
                   (run vibe [Elapse 5999]
                      (onStdinData vibe [97; 98; 99]
                         (onStdinData vibe [13] (sampleSession vibe))))))
     = [Play Launch; Play Enter; Play TypingPlay].
Proof.
  assert (Hone : oneIdleTimer (onStdinData vibe [13] (sampleSession vibe)))
    by (left; reflexivity).
  destruct (idle_pause_after_threshold vibe (onStdinData vibe [13] (sampleSession vibe))
              [97; 98; 99] eq_refl eq_refl eq_refl Hone eq_refl eq_refl eq_refl
              ltac:(discriminate))
    as (_ & Hfire & Hwait).
  destruct (Hfire [Stdin [127]; Elapse 6001] eq_refl
              ltac:(vm_compute; discriminate))
    as (Hsig & Hzero & _).
  destruct (Hwait [Elapse 5999] eq_refl eq_refl) as (Hsame & Hnext).
  destruct (Hnext [100] (or_intror eq_refl)) as (_ & Hquiet & _).
  split; [exact Hsig|]. split; [exact Hzero|].
  exact (Hquiet [Elapse 5999] eq_refl eq_refl).
Defined.

(** C5 as stated fails without a player: the count reaches three, 6000 ms
    pass, and no pause is called nor is the counter reset. *)
Lemma idle_without_player_never_pauses :
  firstMessageSent (onStdinData playerless [13] (sampleSession playerless)) = true
  /\ charCount (onStdinData playerless [97; 98; 99]
                  (onStdinData playerless [13] (sampleSession playerless))) = 3
  /\ signals (elapse 6000 (onStdinData playerless [97; 98; 99]
                             (onStdinData playerless [13] (sampleSession playerless))))
     = []
  /\ charCount (elapse 6000 (onStdinData playerless [97; 98; 99]
                               (onStdinData playerless [13] (sampleSession playerless))))
     = 3.
Proof. vm_compute. repeat split; reflexivity. Qed.

(** *** No-pause mode *)

(** With the timer and typing play switched off, the stdin handler calls the
    player only for a submission, and then only when pausing is on. *)
Lemma stdin_signals_disabled (o : Options) (data : list Z) (s : Session) :
  noPauseMode o || negb (spotifyAvailable o) = true ->
  signals (onStdinData o data s) = signals s.
Proof.
  intros Hoff.
  assert (Hplay : spotifyAvailable o && negb (noPauseMode o) = false)
    by (destruct (noPauseMode o), (spotifyAvailable o); simpl in *; congruence).
  unfold onStdinData, onTypingPlay, scheduleTypingPause. cbv zeta.
  rewrite Hplay, Hoff.
  unfold clearTimeout. break_tests; reflexivity.
Qed.

Lemma stdin_timeouts_disabled (o : Options) (data : list Z) (s : Session) :
  noPauseMode o || negb (spotifyAvailable o) = true ->
  timeouts s = [] -> timeouts (onStdinData o data s) = [].
Proof.
  intros Hoff Hnil.
  assert (Hplay : spotifyAvailable o && negb (noPauseMode o) = false)
    by (destruct (noPauseMode o), (spotifyAvailable o); simpl in *; congruence).
  unfold onStdinData, onTypingPlay, scheduleTypingPause. cbv zeta.
  rewrite Hplay, Hoff.
  unfold clearTimeout. break_tests; simpl; rewrite ?Hnil; reflexivity.
Qed.

(** What [cleanup] does, whatever the session is like when it runs. *)
Lemma cleanup_effect (o : Options) (s : Session) :
  cleanupRuns (cleanup o s) = S (cleanupRuns s)
  /\ pidFile (cleanup o s) = None
  /\ settingsFile (cleanup o s) = Some (stringify2 (originalSettings s))
  /\ originalSettings (cleanup o s) = originalSettings s
  /\ signals (cleanup o s)
     = (signals s ++ if spotifyAvailable o then [Pause Cleanup] else [])%list
  /\ exited (cleanup o s) = exited s
  /\ awaiting (cleanup o s) = awaiting s
  /\ (forall h due, typingTimer s = Some h -> ~ In (h, due) (timeouts (cleanup o s))).
Proof.
  unfold cleanup. cbv zeta.
  change (typingTimer (set_cleanupRuns (S (cleanupRuns s)) s)) with (typingTimer s).
  destruct (typingTimer s) as [h|] eqn:Hh;
    destruct (stdinIsTTY o); destruct (spotifyAvailable o); simpl;
    rewrite ?app_nil_r; repeat split; try reflexivity; try discriminate.
  all: intros h' due Hh'; injection Hh' as <-; apply (clearTimeout_not_pending h s due).
Qed.

Lemma getProp_setProp_other (k k' : string) (v : json) (props : list (string * json)) :
  k <> k' -> getProp k (setProp k' v props) = getProp k props.
Proof.
  intros Hne. induction props as [|[k0 v0] rest IH]; simpl.
  - destruct (String.eqb k k') eqn:E; [apply String.eqb_eq in E; contradiction|reflexivity].
  - destruct (String.eqb k' k0) eqn:E'; simpl.
    + apply String.eqb_eq in E'; subst k0.
      destruct (String.eqb k k') eqn:E; [apply String.eqb_eq in E; contradiction|reflexivity].
    + destruct (String.eqb k k0); [reflexivity | exact IH].
Qed.

Lemma getProp_setProp_same (k : string) (v : json) (props : list (string * json)) :
  getProp k (setProp k v props) = Some v.
Proof.
  induction props as [|[k0 v0] rest IH]; simpl.
  - rewrite String.eqb_refl; reflexivity.
  - destruct (String.eqb k k0) eqn:E; simpl.
    + rewrite String.eqb_refl; reflexivity.
    + rewrite E; exact IH.
Qed.

(** Pushing a group under one event leaves the lists of the other events as
    they were. *)
Lemma pushGroup_other (event k : string) (group hooks hooks' : json) :
  pushGroup event group hooks = Ok hooks' -> k <> event ->
  match hooks' with JObj hp' => getProp k hp' | _ => None end
  = match hooks with JObj hp => getProp k hp | _ => None end.
Proof.
  intros Hpush Hne. destruct hooks as [| | | |items|hp]; simpl in Hpush;
    try discriminate.
  - injection Hpush as <-. reflexivity.
  - destruct (nullish (getProp event hp) (JArr [])); try discriminate.
    injection Hpush as <-. apply getProp_setProp_other; exact Hne.
Qed.

(** The snapshot [injectHooks] returns is the settings as read. *)
Lemma injectHooks_snapshot (parse : parser) (p : platform) (noPause : bool)
      (pidPath : string) (file : option string) (original : json)
      (written : option string) :
  injectHooks parse p noPause pidPath file = Ok (original, written) ->
  original = readSettings parse file.
Proof.
  unfold injectHooks, deepClone. cbv zeta.
  destruct (readSettings parse file) as [| | | |items|props]; simpl; try discriminate.
  - intros H; injection H as <- _; reflexivity.
  - destruct (pushGroup "PreToolUse" _ _) as [h1|]; simpl; [|discriminate].
    destruct (negb noPause); simpl.
    + destruct (pushGroup "Stop" _ _) as [h2|]; simpl; [|discriminate].
      destruct (pushGroup "Notification" _ _) as [h3|]; simpl; [|discriminate].
      intros H; injection H as <- _; reflexivity.
    + intros H; injection H as <- _; reflexivity.
Qed.

(** In no-pause mode the settings written list the same groups under [Stop]
    and [Notification] as the settings read. *)
Lemma no_pause_hooks_untouched (parse : parser) (p : platform) (pidPath : string)
      (file : option string) (original : json) (written : option string) :
  injectHooks parse p true pidPath file = Ok (original, written) ->
  exists doc,
    written = Some (stringify2 doc)
    /\ hookList "Stop" doc = hookList "Stop" original
    /\ hookList "Notification" doc = hookList "Notification" original.
Proof.
  unfold injectHooks, deepClone, writeSettings. cbv zeta.
  destruct (readSettings parse file) as [| | | |items|props]; simpl; try discriminate.
  - intros H; injection H as <- <-. eexists; repeat split.
  - destruct (pushGroup "PreToolUse" _ _) as [h1|] eqn:Hpush; simpl; [|discriminate].
    intros H; injection H as <- <-. eexists; split; [reflexivity|].
    unfold hookList. rewrite getProp_setProp_same.
    pose proof (pushGroup_other "PreToolUse" "Stop" _ _ _ Hpush ltac:(discriminate))
      as Hstop.
    pose proof (pushGroup_other "PreToolUse" "Notification" _ _ _ Hpush
                  ltac:(discriminate)) as Hnote.
    destruct (getProp "hooks" props) as [[| | | |hitems|hp]|]; simpl in *;
      try discriminate;
      destruct h1; simpl in *; split; congruence.
Qed.

(** The player calls of a no-pause session: play at launch, pause at cleanup. *)
Lemma no_pause_step (o : Options) (s : Session) (e : event) :
  noPauseMode o = true ->
  timeouts s = [] ->
  (forall sig, In sig (signals s) -> sig = Play Launch \/ sig = Pause Cleanup) ->
  timeouts (step o s e) = []
  /\ (forall sig, In sig (signals (step o s e)) ->
                  sig = Play Launch \/ sig = Pause Cleanup).
Proof.
  intros Hnp Hnil Hsig.
  assert (Hoff : noPauseMode o || negb (spotifyAvailable o) = true)
    by (rewrite Hnp; reflexivity).
  assert (Hone : oneIdleTimer s) by (left; exact Hnil).
  unfold step. destruct (exited s); [split; assumption|].
  destruct e as [data | ms | code | | k].
  - rewrite (stdin_signals_disabled o data s Hoff).
    split; [apply stdin_timeouts_disabled|]; assumption.
  - destruct (elapse_idle ms s Hnil) as (Hs & _ & _ & Ht & _).
    rewrite Hs. split; assumption.
  - unfold onExit, cleanupThenExit. cbv zeta.
    destruct (cleanup_effect o s) as (_ & _ & _ & _ & Hs & _).
    pose proof (oneIdleTimer_cleanup o s Hone) as Ht.
    destruct (spotifyAvailable o); simpl; (split; [exact Ht|]);
      rewrite Hs; intros sig Hin; apply in_app_or in Hin as [Hin | Hin]; auto;
      simpl in Hin; intuition.
  - unfold onSigint, cleanupThenExit. cbv zeta.
    set (s' := set_childKills (S (childKills s)) s).
    assert (Hone' : oneIdleTimer s') by exact Hone.
    destruct (cleanup_effect o s') as (_ & _ & _ & _ & Hs & _).
    pose proof (oneIdleTimer_cleanup o s' Hone') as Ht.
    destruct (spotifyAvailable o); simpl; (split; [exact Ht|]);
      rewrite Hs; intros sig Hin; apply in_app_or in Hin as [Hin | Hin]; auto;
      simpl in Hin; intuition.
  - unfold onPauseSettled. destruct (nth_error _ _); split; assumption.
Qed.

Lemma no_pause_run (o : Options) (evs : list event) :
  noPauseMode o = true ->
  forall s,
    timeouts s = [] ->
    (forall sig, In sig (signals s) -> sig = Play Launch \/ sig = Pause Cleanup) ->
    timeouts (run o evs s) = []
    /\ (forall sig, In sig (signals (run o evs s)) ->
                    sig = Play Launch \/ sig = Pause Cleanup).
Proof.
  intros Hnp. induction evs as [|e evs IH]; intros s Hnil Hsig; [split; assumption|].
  simpl. destruct (no_pause_step o s e Hnp Hnil Hsig) as (Hnil' & Hsig').
  apply IH; assumption.
Qed.

(** C7 (amended).  In no-pause mode: play is called at launch when the player
    is available; whatever happens afterwards, the only other player call is
    the pause of cleanup, so no idle pause is called, no idle timer is ever
    pending, and no stdin chunk, submission or not, calls play; the hooks
    written leave the pause events [Stop] and [Notification] as they were
    found. *)
Theorem no_pause_mode_signals
        (parse : parser) (p : platform) (pidPath : string) (o : Options)
        (settings0 : option string) (spawned : result N) (s0 : Session)
        (evs : list event) :
  noPauseMode o = true ->
  startup parse p pidPath o settings0 spawned = Ok s0 ->
  signals s0 = (if spotifyAvailable o then [Play Launch] else [])
  /\ (forall sig, In sig (signals (run o evs s0)) ->
                  sig = Play Launch \/ sig = Pause Cleanup)
  /\ timeouts (run o evs s0) = []
  /\ (forall data,
        signals (onStdinData o data (run o evs s0)) = signals (run o evs s0))
  /\ (exists doc,
        settingsFile s0 = Some (stringify2 doc)
        /\ hookList "Stop" doc = hookList "Stop" (readSettings parse settings0)
        /\ hookList "Notification" doc
           = hookList "Notification" (readSettings parse settings0)).
Proof.
  intros Hnp Hstart.
  unfold startup in Hstart.
  destruct spawned as [pid|m]; simpl in Hstart; [|discriminate].
  destruct (injectHooks parse p (noPauseMode o) pidPath settings0)
    as [[original written]|m] eqn:Hinj; simpl in Hstart; [|discriminate].
  injection Hstart as <-.
  rewrite Hnp in Hinj.
  assert (Hsig0 : forall sig, In sig (signals (installed o pid (original, written))) ->
                              sig = Play Launch \/ sig = Pause Cleanup).
  { simpl. destruct (spotifyAvailable o); simpl; intuition. }
  destruct (no_pause_run o evs Hnp (installed o pid (original, written)) eq_refl Hsig0)
    as (Hnil & Hsig).
  split; [reflexivity|]. split; [exact Hsig|]. split; [exact Hnil|]. split.
  - intros data. apply stdin_signals_disabled. rewrite Hnp; reflexivity.
  - rewrite <- (injectHooks_snapshot _ _ _ _ _ _ _ Hinj).
    exact (no_pause_hooks_untouched _ _ _ _ _ _ Hinj).
Qed.

Lemma no_pause_mode_signals_witness :
  noPauseMode continuous = true
  /\ signals (sampleSession continuous) = [Play Launch]
  /\ signals (onStdinData continuous [13] (run continuous sampleKeys (sampleSession continuous)))
     = signals (run continuous sampleKeys (sampleSession continuous))
  /\ timeouts (run continuous sampleKeys (sampleSession continuous)) = [].
Proof.
  destruct (no_pause_mode_signals JsonText.parse OtherPlatform samplePidPath continuous
              (Some compactSettings) (Ok 4242%N) (sampleSession continuous) sampleKeys
              eq_refl (startup_sample continuous))
    as (Hlaunch & _ & Hnil & Hstdin & _).
  split; [reflexivity|]. split; [exact Hlaunch|]. split; [exact (Hstdin [13]) | exact Hnil].
Defined.

(** C7 as stated fails on its second half: in no-pause mode a submission
    calls no play. *)
Lemma enter_in_no_pause_mode_is_silent :
  noPauseMode continuous = true
  /\ spotifyAvailable continuous = true
  /\ submission [13] = true
  /\ signals (step continuous (sampleSession continuous) (Stdin [13]))
     = signals (sampleSession continuous)
  /\ ~ In (Play Enter) (signals (step continuous (sampleSession continuous) (Stdin [13]))).
Proof.
  repeat split; try reflexivity.
  vm_compute. intros [H|[]]. discriminate.
Qed.

End Keystrokes.

(** ** The wrapper: leaving *)

Section Leaving.
Import Json ClaudeWrapper.

Lemma cleanupThenExit_effect (o : Options) (code : Z) (s : Session) :
  cleanupRuns (cleanupThenExit o code s) = S (cleanupRuns s)
  /\ pidFile (cleanupThenExit o code s) = None
  /\ settingsFile (cleanupThenExit o code s) = Some (stringify2 (originalSettings s))
  /\ originalSettings (cleanupThenExit o code s) = originalSettings s
  /\ awaiting (cleanupThenExit o code s)
     = (if spotifyAvailable o then awaiting s ++ [code] else awaiting s)%list
  /\ exited (cleanupThenExit o code s)
     = (if spotifyAvailable o then exited s else Some code).
Proof.
  destruct (cleanup_effect o s) as (Hruns & Hpid & Hset & Horig & _ & Hex & Haw & _).
  unfold cleanupThenExit. cbv zeta.
  destruct (spotifyAvailable o); simpl; rewrite ?Haw; auto 10.
Qed.

Lemma leaving_cleanupThenExit (o : Options) (original : json) (code : Z) (s : Session) :
  exited s = None -> leaving o original s ->
  leaving o original (cleanupThenExit o code s).
Proof.
  intros Hrunning (Horig & Hfiles & Hwith & Hwithout).
  destruct (cleanupThenExit_effect o code s)
    as (Hruns & Hpid & Hset & Horig' & Haw & Hex).
  unfold leaving. rewrite Hruns, Hpid, Hset, Horig', Haw, Hex, Horig.
  split; [reflexivity|]. split; [auto|]. split.
  - intros Ha. rewrite Ha. destruct (Hwith Ha) as (Hlen & _).
    rewrite length_app, Hlen. simpl. split; [lia|].
    intros _ Hnil. apply app_eq_nil in Hnil as [_ Hnil]. discriminate.
  - intros Ha. rewrite Ha. destruct (Hwithout Ha) as (Hnil & Hzero & _).
    split; [exact Hnil|]. split; [discriminate|].
    intros _. rewrite (Hzero Hrunning). reflexivity.
Qed.

Lemma leaving_step (o : Options) (original : json) (s : Session) (e : event) :
  leaving o original s -> leaving o original (step o s e).
Proof.
  intros Hl. unfold step. destruct (exited s) as [c|] eqn:Hex; [exact Hl|].
  destruct e as [data | ms | code | | k].
  - destruct (onStdinData_frame o data s) as (H1 & H2 & H3 & H4 & H5 & H6 & _).
    unfold leaving. rewrite H1, H2, H3, H4, H5, H6, Hex.
    unfold leaving in Hl. rewrite Hex in Hl. exact Hl.
  - destruct (elapse_frame ms s) as (H1 & H2 & H3 & H4 & H5 & H6 & _).
    unfold leaving. rewrite H1, H2, H3, H4, H5, H6, Hex.
    unfold leaving in Hl. rewrite Hex in Hl. exact Hl.
  - apply leaving_cleanupThenExit; assumption.
  - unfold onSigint. apply leaving_cleanupThenExit; [exact Hex|].
    unfold leaving in *. simpl. rewrite Hex in Hl. rewrite Hex. exact Hl.
  - unfold onPauseSettled.
    destruct (nth_error (awaiting s) k) as [c|] eqn:Hk; [|exact Hl].
    destruct Hl as (Horig & Hfiles & Hwith & Hwithout).
    unfold leaving. simpl.
    split; [exact Horig|]. split; [exact Hfiles|]. split.
    + intros Ha. destruct (Hwith Ha) as (Hlen & _). split; [exact Hlen|].
      intros _ Hnil. rewrite Hnil in Hk. destruct k; discriminate.
    + intros Ha. destruct (Hwithout Ha) as (Hnil & _).
      rewrite Hnil in Hk. destruct k; discriminate.
Qed.

Lemma leaving_run (o : Options) (original : json) (evs : list event) :
  forall s, leaving o original s -> leaving o original (run o evs s).
Proof.
  induction evs as [|e evs IH]; intros s Hl; [exact Hl|].
  simpl. apply IH. apply leaving_step. exact Hl.
Qed.

Lemma leaving_started (parse : parser) (p : platform) (pidPath : string)
      (o : Options) (settings0 : option string) (spawned : result N) (s0 : Session) :
  startup parse p pidPath o settings0 spawned = Ok s0 ->
  leaving o (readSettings parse settings0) s0.
Proof.
  unfold startup. destruct spawned as [pid|m]; simpl; [|discriminate].
  destruct (injectHooks _ _ _ _ _) as [[original written]|m] eqn:Hinj; simpl;
    [|discriminate].
  intros H; injection H as <-.
  unfold leaving. simpl.
  split; [exact (injectHooks_snapshot _ _ _ _ _ _ _ Hinj)|].
  split; [lia|]. split; intros _; repeat split; try reflexivity; congruence.
Qed.

(** [cleanup] runs no more often than child exits and interrupts arrive. *)
Lemma cleanupRuns_bound (o : Options) (evs : list event) :
  forall s, (cleanupRuns (run o evs s) <= cleanupRuns s + exitEvents evs)%nat.
Proof.
  induction evs as [|e evs IH]; intros s; [simpl; lia|].
  rewrite run_cons. specialize (IH (step o s e)).
  assert (Hstep : (cleanupRuns (step o s e) + exitEvents evs
                   <= cleanupRuns s + exitEvents (e :: evs))%nat).
  { unfold step. destruct (exited s); [destruct e; simpl; lia|].
    destruct e as [data | ms | code | | k]; cbn [exitEvents].
    - destruct (onStdinData_frame o data s) as (_ & H & _). rewrite H. lia.
    - destruct (elapse_frame ms s) as (_ & H & _). rewrite H. lia.
    - unfold onExit. destruct (cleanupThenExit_effect o
                                 (match code with Some c => c | None => 0 end) s)
        as (H & _). rewrite H. lia.
    - unfold onSigint.
      destruct (cleanupThenExit_effect o 130 (set_childKills (S (childKills s)) s))
        as (H & _). rewrite H.
      change (cleanupRuns (set_childKills (S (childKills s)) s)) with (cleanupRuns s).
      lia.
    - unfold onPauseSettled. destruct (nth_error _ _); simpl; lia. }
  lia.
Qed.

(** C1 (amended).  Whatever the input and whichever handler ends the session,
    child exit or interrupt, [cleanup] has run at least once when the process
    exits and at most once for each child exit or interrupt that arrived, and
    exactly once when no player is available; each of the two handlers runs
    it.  Every run has the same effect: the pid file is gone, the settings
    hold the snapshot taken at startup, the timer held is no longer pending,
    a pause is called when the player is available; a second run changes none
    of the files. *)
Theorem cleanup_on_every_exit
        (parse : parser) (p : platform) (pidPath : string) (o : Options)
        (settings0 : option string) (spawned : result N) (s0 : Session)
        (evs : list event) (code : Z) :
  startup parse p pidPath o settings0 spawned = Ok s0 ->
  exited (run o evs s0) = Some code ->
  (1 <= cleanupRuns (run o evs s0) <= exitEvents evs)%nat
  /\ (spotifyAvailable o = false -> cleanupRuns (run o evs s0) = 1%nat)
  /\ pidFile (run o evs s0) = None
  /\ settingsFile (run o evs s0) = Some (stringify2 (readSettings parse settings0))
  /\ (forall t exitCode,
        exited t = None ->
        cleanupRuns (step o t (ChildExit exitCode)) = S (cleanupRuns t)
        /\ cleanupRuns (step o t Sigint) = S (cleanupRuns t))
  /\ (forall t,
        pidFile (cleanup o t) = None
        /\ settingsFile (cleanup o t) = Some (stringify2 (originalSettings t))
        /\ (forall h due, typingTimer t = Some h -> ~ In (h, due) (timeouts (cleanup o t)))
        /\ signals (cleanup o t)
           = (signals t ++ if spotifyAvailable o then [Pause Cleanup] else [])%list
        /\ pidFile (cleanup o (cleanup o t)) = pidFile (cleanup o t)
        /\ settingsFile (cleanup o (cleanup o t)) = settingsFile (cleanup o t)).
Proof.
  intros Hstart Hexit.
  pose proof (leaving_run o _ evs s0 (leaving_started _ _ _ _ _ _ _ Hstart))
    as (Horig & Hfiles & Hwith & Hwithout).
  assert (Hex : exited (run o evs s0) <> None) by congruence.
  assert (Hruns : (1 <= cleanupRuns (run o evs s0))%nat).
  { destruct (spotifyAvailable o) eqn:Ha.
    - destruct (Hwith eq_refl) as (Hlen & Hne). specialize (Hne Hex).
      rewrite Hlen. destruct (awaiting (run o evs s0)); [congruence | simpl; lia].
    - destruct (Hwithout eq_refl) as (_ & _ & Hone). rewrite (Hone Hex). lia. }
  split.
  { split; [exact Hruns|].
    pose proof (cleanupRuns_bound o evs s0) as Hbound.
    pose proof (leaving_started _ _ _ _ _ _ _ Hstart) as Hfresh.
    assert (Hzero : cleanupRuns s0 = 0%nat).
    { unfold startup in Hstart.
      destruct spawned as [pid|m]; simpl in Hstart; [|discriminate].
      destruct (injectHooks _ _ _ _ _) as [r|m]; simpl in Hstart; [|discriminate].
      injection Hstart as <-. reflexivity. }
    lia. }
  split.
  { intros Ha. apply (Hwithout Ha). exact Hex. }
  destruct (Hfiles Hruns) as (Hpid & Hset).
  split; [exact Hpid|]. split; [exact Hset|]. split.
  - intros t exitCode Ht. unfold step. rewrite Ht. unfold onExit, onSigint.
    split; [apply cleanupThenExit_effect|].
    exact (proj1 (cleanupThenExit_effect o 130 (set_childKills (S (childKills t)) t))).
  - intros t.
    destruct (cleanup_effect o t) as (_ & Hp & Hs & Ho & Hsig & _ & _ & Htimer).
    destruct (cleanup_effect o (cleanup o t)) as (_ & Hp2 & Hs2 & _).
    rewrite Hp2, Hs2, Hp, Hs, Ho. auto 10.
Qed.

Lemma cleanup_on_every_exit_witness :
  exited (run playerless [Stdin [13]; Sigint] (sampleSession playerless)) = Some 130
  /\ cleanupRuns (run playerless [Stdin [13]; Sigint] (sampleSession playerless)) = 1%nat
  /\ pidFile (run playerless [Stdin [13]; Sigint] (sampleSession playerless)) = None
  /\ settingsFile (run playerless [Stdin [13]; Sigint] (sampleSession playerless))
     = Some (stringify2 (readSettings JsonText.parse (Some compactSettings))).
Proof.
  destruct (cleanup_on_every_exit JsonText.parse OtherPlatform samplePidPath playerless
              (Some compactSettings) (Ok 4242%N) (sampleSession playerless)
              [Stdin [13]; Sigint] 130 (startup_sample playerless) eq_refl)
    as (_ & Honce & Hpid & Hset & _).
  split; [reflexivity|]. split; [exact (Honce eq_refl)|]. split; assumption.
Defined.

(** With a player and a single exit event, [cleanup] runs once as well. *)
Example child_exit_alone_cleans_once :
  exited (run vibe [Stdin [13]; ChildExit (Some 0); PauseSettled 0] (sampleSession vibe))
  = Some 0
  /\ cleanupRuns (run vibe [Stdin [13]; ChildExit (Some 0); PauseSettled 0]
                    (sampleSession vibe)) = 1%nat.
Proof. vm_compute. split; reflexivity. Qed.

(** C1 as stated fails with a player: the interrupt handler kills the child
    and stops at the pause of [cleanup]; the child's exit arrives meanwhile
    and its handler runs [cleanup] again. *)
Lemma interrupt_then_exit_cleans_twice :
  exited (run vibe interruptedExit (sampleSession vibe)) = Some 130
  /\ cleanupRuns (run vibe interruptedExit (sampleSession vibe)) = 2%nat
  /\ signals (run vibe interruptedExit (sampleSession vibe))
     = [Play Launch; Pause Cleanup; Pause Cleanup].
Proof. vm_compute. repeat split; reflexivity. Qed.

End Leaving.

(** ** The wrapper: hook injection *)

Section Hooks.
Import Json ClaudeWrapper HookShell.
Local Open Scope string_scope.

(** C2 (amended).  After [injectHooks] and [restoreHooks] with the snapshot
    it returned, the settings file holds the two-space serialization of the
    settings as they were read before (of the empty object when the file was
    missing or did not parse): it is byte-equal to the file before exactly
    when the file already was that serialization, and, for a parser that
    reads this serialization back, it reads as the same document. *)
Theorem restore_writes_parsed_snapshot
        (parse : parser) (p : platform) (noPause : bool) (pidPath : string)
        (file : option string) (original : json) (written : option string) :
  injectHooks parse p noPause pidPath file = Ok (original, written) ->
  restoreHooks original = Some (stringify2 (readSettings parse file))
  /\ (restoreHooks original = file
      <-> file = Some (stringify2 (readSettings parse file)))
  /\ (parse (stringify2 (readSettings parse file)) = Some (readSettings parse file) ->
      readSettings parse (restoreHooks original) = readSettings parse file).
Proof.
  intros Hinj.
  pose proof (injectHooks_snapshot _ _ _ _ _ _ _ Hinj) as Hsnap.
  assert (Hrestored : restoreHooks original
                      = Some (stringify2 (readSettings parse file)))
    by (rewrite Hsnap; reflexivity).
  split; [exact Hrestored|]. split.
  - rewrite Hrestored. split; intros H; congruence.
  - intros Hback. rewrite Hrestored. simpl. rewrite Hback. reflexivity.
Qed.

Lemma restore_writes_parsed_snapshot_witness :
  (exists original written,
      injectHooks JsonText.parse OtherPlatform false samplePidPath (Some prettySettings)
      = Ok (original, written)
      /\ written <> Some prettySettings
      /\ restoreHooks original = Some prettySettings)
  /\ (exists original written,
         injectHooks JsonText.parse OtherPlatform false samplePidPath
           (Some compactSettings)
         = Ok (original, written)
         /\ readSettings JsonText.parse (restoreHooks original)
            = readSettings JsonText.parse (Some compactSettings)).
Proof.
  split.
  - destruct (injectHooks JsonText.parse OtherPlatform false samplePidPath
                (Some prettySettings)) as [[original written]|m] eqn:Hinj;
      [|vm_compute in Hinj; discriminate].
    exists original, written. split; [reflexivity|]. split.
    + vm_compute in Hinj. injection Hinj as _ <-. discriminate.
    + destruct (restore_writes_parsed_snapshot _ _ _ _ _ _ _ Hinj) as (_ & Hsame & _).
      apply Hsame. vm_compute. reflexivity.
  - destruct (injectHooks JsonText.parse OtherPlatform false samplePidPath
                (Some compactSettings)) as [[original written]|m] eqn:Hinj;
      [|vm_compute in Hinj; discriminate].
    exists original, written. split; [reflexivity|].
    destruct (restore_writes_parsed_snapshot _ _ _ _ _ _ _ Hinj) as (_ & _ & Hdoc).
    apply Hdoc. vm_compute. reflexivity.
Defined.

(** C2 as stated fails on a well-formed file that is not laid out the way
    [JSON.stringify(_, null, 2)] lays it out: after install and restore the
    one-line file has become three lines. *)
Lemma restore_reformats_compact_settings :
  exists original written,
    injectHooks JsonText.parse OtherPlatform false samplePidPath (Some compactSettings)
    = Ok (original, written)
    /\ restoreHooks original = Some prettySettings
    /\ restoreHooks original <> Some compactSettings.
Proof.
  eexists. eexists. split; [vm_compute; reflexivity|].
  split; [vm_compute; reflexivity | vm_compute; discriminate].
Qed.

(** A settings file that did not exist is there after restore, and a file
    that did not parse holds the empty object. *)
Example restore_creates_missing_settings :
  exists original written,
    injectHooks JsonText.parse OtherPlatform false samplePidPath None
    = Ok (original, written)
    /\ restoreHooks original = Some "{}".
Proof. eexists. eexists. split; vm_compute; reflexivity. Qed.

Example restore_replaces_malformed_settings :
  exists original written,
    injectHooks JsonText.parse OtherPlatform false samplePidPath (Some "{ hooks: ")
    = Ok (original, written)
    /\ restoreHooks original = Some "{}".
Proof. eexists. eexists. split; vm_compute; reflexivity. Qed.

(** *** Guarded commands *)

Lemma append_assoc (a b c : string) : (a ++ b) ++ c = a ++ (b ++ c).
Proof. induction a as [|x a IH]; simpl; [reflexivity | rewrite IH; reflexivity]. Qed.

Lemma spotifyPlayCmd_guarded (p : platform) (pidPath : string) :
  spotifyPlayCmd p pidPath = render {| idFile := pidPath; payload := playPayload p |}.
Proof.
  unfold spotifyPlayCmd, render, playPayload. cbv zeta. cbv [idFile payload].
  destruct p; cbv [is_darwin is_win32]; repeat rewrite append_assoc; reflexivity.
Qed.

Lemma spotifyPauseCmd_guarded (p : platform) (pidPath : string) :
  spotifyPauseCmd p pidPath = render {| idFile := pidPath; payload := pausePayload p |}.
Proof.
  unfold spotifyPauseCmd, render, pausePayload. cbv zeta. cbv [idFile payload].
  destruct p; cbv [is_darwin is_win32]; repeat rewrite append_assoc; reflexivity.
Qed.

(** [injectHooks] on a settings object is the pushes of [injections], in
    order, on its [hooks]. *)
Lemma injectHooks_pushes (parse : parser) (p : platform) (noPause : bool)
      (pidPath : string) (file : option string) (props : list (string * json)) :
  readSettings parse file = JObj props ->
  injectHooks parse p noPause pidPath file
  = (hooks <- pushAll (injections p noPause pidPath)
                      (nullish (getProp "hooks" props) (JObj [])) ;;
     Ok (JObj props, writeSettings (JObj (setProp "hooks" hooks props)))).
Proof.
  intros Hread. unfold injectHooks, deepClone, injections. cbv zeta. rewrite Hread.
  simpl pushAll.
  destruct (pushGroup "PreToolUse" _ _) as [h1|m]; simpl; [|reflexivity].
  destruct noPause; simpl; [reflexivity|].
  destruct (pushGroup "Stop" _ h1) as [h2|m]; simpl; [|reflexivity].
  destruct (pushGroup "Notification" _ h2) as [h3|m]; simpl; reflexivity.
Qed.


Lemma decimal_inj (a b : N) : decimal a = decimal b -> a = b.
Proof.
  unfold decimal. intros H.
  apply (f_equal NilEmpty.uint_of_string) in H.
  rewrite !NilEmpty.usu in H. injection H as H.
  rewrite <- (DecimalN.Unsigned.of_to a), <- (DecimalN.Unsigned.of_to b), H.
  reflexivity.
Qed.

Lemma decimal_not_empty (n : N) : decimal n <> EmptyString.
Proof.
  unfold decimal. intros H.
  apply (f_equal NilEmpty.uint_of_string) in H.
  rewrite NilEmpty.usu in H. simpl in H. injection H as H.
  pose proof (DecimalN.Unsigned.of_to n) as Hback. rewrite H in Hback.
  simpl in Hback. subst n. discriminate.
Qed.

Lemma string_of_uint_digits (d : Decimal.uint) :
  forall c, In c (list_ascii_of_string (NilEmpty.string_of_uint d)) ->
            nat_of_ascii c <> 10%nat.
Proof.
  induction d; simpl; intros c Hin; try contradiction;
    destruct Hin as [<- | Hin]; try (apply IHd; exact Hin); discriminate.
Qed.

Lemma dropLeadingNewlines_none (l : list ascii) :
  (forall c, In c l -> nat_of_ascii c <> 10%nat) -> dropLeadingNewlines l = l.
Proof.
  destruct l as [|c rest]; intros H; simpl; [reflexivity|].
  replace (nat_of_ascii c =? 10)%nat with false; [reflexivity|].
  symmetry. apply Nat.eqb_neq. apply H. left; reflexivity.
Qed.

(** [cat] of a pid file gives the decimal back. *)
Lemma commandSubstitution_decimal (n : N) :
  commandSubstitution (Some (decimal n)) = decimal n.
Proof.
  unfold commandSubstitution, decimal.
  rewrite dropLeadingNewlines_none.
  - rewrite rev_involutive. apply string_of_list_ascii_of_string.
  - intros c Hin. apply in_rev in Hin.
    exact (string_of_uint_digits _ c Hin).
Qed.

Lemma stripPrefix_append (pre s : string) : stripPrefix pre (pre ++ s) = Some s.
Proof.
  induction pre as [|c pre IH]; [reflexivity|].
  simpl. rewrite Ascii.eqb_refl. exact IH.
Qed.

Lemma cutAtQuote_append (before after : string) :
  noSingleQuote before = true ->
  cutAtQuote (before ++ String (ascii_of_nat 39) after) = Some (before, after).
Proof.
  unfold noSingleQuote. induction before as [|c before IH]; intros Hno.
  - reflexivity.
  - simpl in Hno. apply andb_true_iff in Hno as [Hc Hrest].
    apply negb_true_iff in Hc.
    simpl. rewrite Hc, (IH Hrest). reflexivity.
Qed.

(** The shell reads a rendered command back into its two parts. *)
Lemma readGuard_render (g : guarded) :
  noSingleQuote (idFile g) = true -> readGuard (render g) = Some g.
Proof.
  intros Hno. destruct g as [file command]. simpl in Hno.
  unfold readGuard, render. cbn [idFile payload].
  change ("[ " ++ dq ++ "$(cat '" ++ file ++ "' 2>/dev/null)" ++ dq
          ++ " = " ++ dq ++ "$PPID" ++ dq ++ " ] && " ++ command)
    with (guardOpening
          ++ (file ++ String (ascii_of_nat 39) (guardClosing ++ command))).
  rewrite stripPrefix_append, (cutAtQuote_append _ _ Hno), stripPrefix_append.
  reflexivity.
Qed.

(** What the shell does with a rendered command. *)
Lemma sh_render (files : string -> option string) (ppid : N) (g : guarded) :
  noSingleQuote (idFile g) = true ->
  sh files ppid (render g)
  = if String.eqb (commandSubstitution (files (idFile g))) (decimal ppid)
    then Runs (payload g) else Skips.
Proof. intros Hno. unfold sh. rewrite (readGuard_render g Hno). reflexivity. Qed.

(** The pid file holds the decimal of [b]: the command runs for [b] only. *)
Lemma sh_render_held (files : string -> option string) (g : guarded) (a b : N) :
  noSingleQuote (idFile g) = true ->
  files (idFile g) = Some (decimal b) ->
  (sh files a (render g) = Runs (payload g) <-> a = b)
  /\ (a <> b -> sh files a (render g) = Skips).
Proof.
  intros Hno Hfile. rewrite (sh_render files a g Hno), Hfile, commandSubstitution_decimal.
  destruct (String.eqb (decimal b) (decimal a)) eqn:E.
  - apply String.eqb_eq in E. apply decimal_inj in E. subst b.
    split; [split; auto | intros Hne; contradiction].
  - apply String.eqb_neq in E.
    split; [split; [discriminate | intros ->; contradiction] | reflexivity].
Qed.

(** The pid file is missing: the command runs for nobody. *)
Lemma sh_render_missing (files : string -> option string) (g : guarded) (a : N) :
  noSingleQuote (idFile g) = true ->
  files (idFile g) = None ->
  sh files a (render g) = Skips.
Proof.
  intros Hno Hfile. rewrite (sh_render files a g Hno), Hfile. simpl.
  destruct (decimal a) eqn:E; [|reflexivity].
  exfalso. exact (decimal_not_empty a E).
Qed.

End Hooks.

(** * Further properties *)

(** ** The wrapper: what a session does with its input *)

Section SessionInput.
Import Json ClaudeWrapper HookShell SessionNotions SessionSamples.

Ltac split_tests :=
  repeat match goal with
         | |- context [if ?b then _ else _] => destruct b eqn:?
         | |- context [match ?x with Some _ => _ | None => _ end] => destruct x eqn:?
         end.

Lemma startup_installed (parse : parser) (p : platform) (pidPath : string)
      (o : Options) (settings0 : option string) (spawned : result N) (s0 : Session) :
  startup parse p pidPath o settings0 spawned = Ok s0 ->
  exists pid r,
    spawned = Ok pid
    /\ injectHooks parse p (noPauseMode o) pidPath settings0 = Ok r
    /\ s0 = installed o pid r.
Proof.
  unfold startup. intros Hstart.
  destruct spawned as [pid|m]; simpl in Hstart; [|discriminate].
  destruct (injectHooks _ _ _ _ _) as [r|m] eqn:Hinj; simpl in Hstart; [|discriminate].
  injection Hstart as <-. exists pid, r. auto.
Qed.

Lemma step_after_exit (o : Options) (s : Session) (e : event) (c : Z) :
  exited s = Some c -> step o s e = s.
Proof. intros H. unfold step. rewrite H. reflexivity. Qed.

Lemma run_after_exit (o : Options) (evs : list event) (s : Session) (c : Z) :
  exited s = Some c -> run o evs s = s.
Proof.
  induction evs as [|e evs IH]; intros H; [reflexivity|].
  rewrite run_cons, (step_after_exit o s e c H). exact (IH H).
Qed.

(** The terminal side of the stdin handler: the chunk goes to the child,
    the terminal mode and the child are left alone. *)
Lemma onStdinData_forwards (o : Options) (data : list Z) (s : Session) :
  ptyInput (onStdinData o data s) = (ptyInput s ++ [BufferText.toString data])%list
  /\ rawMode (onStdinData o data s) = rawMode s
  /\ childKills (onStdinData o data s) = childKills s.
Proof.
  unfold onStdinData, onTypingPlay, scheduleTypingPause, setTimeout, clearTimeout, emit.
  cbv zeta. split_tests; simpl; auto.
Qed.

Lemma elapse_terminal (ms : N) (s : Session) :
  ptyInput (elapse ms s) = ptyInput s
  /\ rawMode (elapse ms s) = rawMode s
  /\ childKills (elapse ms s) = childKills s.
Proof.
  unfold elapse, runTimers. simpl.
  generalize (filter (isDue (clock s + Z.of_N ms)) (timeouts s)).
  generalize (filter (fun t => negb (isDue (clock s + Z.of_N ms) t)) (timeouts s)).
  intros keep due.
  assert (H : forall t,
             ptyInput (fold_left (fun acc _ => idleCallback acc) due t) = ptyInput t
             /\ rawMode (fold_left (fun acc _ => idleCallback acc) due t) = rawMode t
             /\ childKills (fold_left (fun acc _ => idleCallback acc) due t)
                = childKills t).
  { induction due as [|d due IH]; intros t; simpl; [auto|].
    destruct (IH (idleCallback t)) as (H1 & H2 & H3).
    rewrite H1, H2, H3. auto. }
  exact (H (set_timeouts keep (set_clock (clock s + Z.of_N ms) s))).
Qed.

Lemma cleanupThenExit_terminal (o : Options) (code : Z) (s : Session) :
  ptyInput (cleanupThenExit o code s) = ptyInput s
  /\ rawMode (cleanupThenExit o code s) = (if stdinIsTTY o then false else rawMode s)
  /\ childKills (cleanupThenExit o code s) = childKills s.
Proof.
  unfold cleanupThenExit, cleanup, clearTimeout, emit. cbv zeta.
  split_tests; simpl; auto.
Qed.

Lemma onPauseSettled_frame (k : nat) (s : Session) :
  ptyInput (onPauseSettled k s) = ptyInput s
  /\ rawMode (onPauseSettled k s) = rawMode s
  /\ pidFile (onPauseSettled k s) = pidFile s
  /\ settingsFile (onPauseSettled k s) = settingsFile s
  /\ signals (onPauseSettled k s) = signals s
  /\ timeouts (onPauseSettled k s) = timeouts s
  /\ awaiting (onPauseSettled k s) = awaiting s.
Proof. unfold onPauseSettled. destruct (nth_error _ _); simpl; auto 10. Qed.

(** A chunk without an end of line, before the first submission. *)
Lemma chunk_before_first_message (o : Options) (c : list Z) (s : Session) :
  submission c = false -> firstMessageSent s = false ->
  signals (onStdinData o c s) = signals s
  /\ charCount (onStdinData o c s) = charCount s
  /\ timeouts (onStdinData o c s) = timeouts s
  /\ typingTimer (onStdinData o c s) = typingTimer s
  /\ firstMessageSent (onStdinData o c s) = false.
Proof.
  intros Hsub Hfirst. unfold submission in Hsub.
  unfold onStdinData. cbv zeta. rewrite Hsub.
  change (firstMessageSent (set_ptyInput (ptyInput s ++ [BufferText.toString c]) s))
    with (firstMessageSent s).
  rewrite Hfirst. simpl. auto.
Qed.

(** X1.  Until the first chunk with a carriage return or a line feed has
    arrived, the text of each chunk is passed on to the child and nothing
    else happens: no player call, no counting, no timer, however many
    printable bytes arrive. *)
Theorem typing_ignored_before_first_message
        (o : Options) (chunks : list (list Z)) :
  forall s,
    exited s = None -> firstMessageSent s = false -> noSubmission chunks = true ->
    signals (typed o chunks s) = signals s
    /\ charCount (typed o chunks s) = charCount s
    /\ timeouts (typed o chunks s) = timeouts s
    /\ typingTimer (typed o chunks s) = typingTimer s
    /\ firstMessageSent (typed o chunks s) = false
    /\ ptyInput (typed o chunks s)
       = (ptyInput s ++ map BufferText.toString chunks)%list.
Proof.
  induction chunks as [|c rest IH]; intros s Hex Hfirst Hsub.
  - unfold typed, run; simpl. rewrite app_nil_r. auto 10.
  - rewrite typed_cons, (step_stdin _ _ _ Hex).
    simpl in Hsub. apply andb_true_iff in Hsub as [Hc Hrest].
    apply negb_true_iff in Hc.
    destruct (chunk_before_first_message o c s Hc Hfirst)
      as (Hsig & Hcount & Htime & Htimer & Hfirst').
    destruct (onStdinData_frame o c s) as (Hex' & _).
    destruct (onStdinData_forwards o c s) as (Hpty & _).
    destruct (IH (onStdinData o c s)) as (H1 & H2 & H3 & H4 & H5 & H6);
      [congruence | exact Hfirst' | exact Hrest |].
    rewrite H1, H2, H3, H4, H5, H6, Hsig, Hcount, Htime, Htimer, Hpty.
    rewrite <- app_assoc. simpl. auto 10.
Qed.

(** The keys [h i], a backspace and [!!!] typed at the onboarding prompt. *)
Lemma typing_ignored_before_first_message_witness :
  signals (typed vibe [[104; 105]; [127]; [33; 33; 33]] (sampleSession vibe))
  = [Play Launch]
  /\ charCount (typed vibe [[104; 105]; [127]; [33; 33; 33]] (sampleSession vibe)) = 0
  /\ timeouts (typed vibe [[104; 105]; [127]; [33; 33; 33]] (sampleSession vibe)) = []
  /\ ptyInput (typed vibe [[104; 105]; [127]; [33; 33; 33]] (sampleSession vibe))
     = [[104; 105]; [127]; [33; 33; 33]].
Proof.
  destruct (typing_ignored_before_first_message vibe
              [[104; 105]; [127]; [33; 33; 33]] (sampleSession vibe)
              eq_refl eq_refl eq_refl)
    as (H1 & H2 & H3 & _ & _ & H6).
  split; [exact H1|]. split; [exact H2|]. split; [exact H3 | exact H6].
Defined.

Lemma stdinChunks_cons (e : event) (evs : list event) :
  stdinChunks (e :: evs) = (stdinChunks [e] ++ stdinChunks evs)%list.
Proof. destruct e; reflexivity. Qed.

Lemma step_forwards (o : Options) (s : Session) (e : event) :
  exited s = None ->
  ptyInput (step o s e)
  = (ptyInput s ++ map BufferText.toString (stdinChunks [e]))%list.
Proof.
  intros Hex. unfold step. rewrite Hex.
  destruct e as [data | ms | code | | k]; simpl; rewrite ?app_nil_r.
  - apply onStdinData_forwards.
  - apply elapse_terminal.
  - apply cleanupThenExit_terminal.
  - unfold onSigint.
    exact (proj1 (cleanupThenExit_terminal o 130 (set_childKills (S (childKills s)) s))).
  - apply onPauseSettled_frame.
Qed.

Lemma toString_ascii (data : list Z) :
  forallb (fun b => b <=? 127) data = true -> BufferText.toString data = data.
Proof.
  unfold BufferText.toString. induction data as [|b rest IH]; intros Hall.
  - reflexivity.
  - simpl in Hall. apply andb_true_iff in Hall as [Hb Hrest].
    cbn [BufferText.decode]. unfold BufferText.lead. rewrite Hb.
    cbn [fst snd app]. rewrite (IH Hrest). reflexivity.
Qed.

Lemma toString_lone (b : Z) : 128 <= b -> BufferText.toString [b] = [65533].
Proof.
  intros Hb. unfold BufferText.toString. cbn [BufferText.decode].
  unfold BufferText.lead.
  replace (b <=? 127) with false by (symmetry; apply Z.leb_gt; lia).
  destruct ((194 <=? b) && (b <=? 223)); [reflexivity|].
  destruct ((224 <=? b) && (b <=? 239)); [reflexivity|].
  destruct ((240 <=? b) && (b <=? 244)); reflexivity.
Qed.

(** X2.  As long as the process has not exited, what the child has been
    written is the text of each chunk read from stdin, [data.toString()], one
    write for each chunk and in the order the chunks arrived, whatever else
    happened in between and in every mode.  The text of a chunk of bytes
    below 128 is the chunk itself; a chunk that is a single byte of 128 or
    more, for one the first byte of a character split over two reads, goes
    out as U+FFFD. *)
Theorem stdin_forwarded_in_order (o : Options) (evs : list event) :
  forall s,
    exited (run o evs s) = None ->
    ptyInput (run o evs s)
    = (ptyInput s ++ map BufferText.toString (stdinChunks evs))%list
    /\ (forall data,
          forallb (fun b => b <=? 127) data = true -> BufferText.toString data = data)
    /\ (forall b, 128 <= b -> BufferText.toString [b] = [65533]).
Proof.
  intros s Hrun.
  split; [|split; [exact toString_ascii | exact toString_lone]].
  revert s Hrun.
  induction evs as [|e evs IH]; intros s Hrun.
  - simpl. rewrite app_nil_r. reflexivity.
  - rewrite run_cons in Hrun. rewrite run_cons.
    assert (Hs : exited s = None).
    { destruct (exited s) as [c|] eqn:Hex; [|reflexivity].
      rewrite (step_after_exit o s e c Hex), (run_after_exit o evs s c Hex) in Hrun.
      congruence. }
    rewrite (stdinChunks_cons e evs), map_app, app_assoc.
    rewrite (IH _ Hrun), (step_forwards o s e Hs). reflexivity.
Qed.

(** Enter and four keys; and the two bytes of an accented letter arriving
    in two reads. *)
Lemma stdin_forwarded_in_order_witness :
  ptyInput (run vibe sampleKeys (sampleSession vibe)) = [[13]; [97; 98; 99]; [100]]
  /\ ptyInput (run vibe [Stdin [195]; Stdin [169]] (sampleSession vibe))
     = [[65533]; [65533]]
  /\ ptyInput (run vibe [Stdin [195; 169]] (sampleSession vibe)) = [[233]].
Proof.
  split; [|split].
  - exact (proj1 (stdin_forwarded_in_order vibe sampleKeys (sampleSession vibe) eq_refl)).
  - exact (proj1 (stdin_forwarded_in_order vibe [Stdin [195]; Stdin [169]]
                    (sampleSession vibe) eq_refl)).
  - exact (proj1 (stdin_forwarded_in_order vibe [Stdin [195; 169]]
                    (sampleSession vibe) eq_refl)).
Defined.

Lemma cleanupThenExit_signals (o : Options) (code : Z) (s : Session) :
  signals (cleanupThenExit o code s)
  = (signals s ++ if spotifyAvailable o then [Pause Cleanup] else [])%list.
Proof.
  destruct (cleanup_effect o s) as (_ & _ & _ & _ & Hsig & _).
  unfold cleanupThenExit. cbv zeta.
  destruct (spotifyAvailable o); cbn [signals set_awaiting set_exited]; exact Hsig.
Qed.

Lemma cleanupThenExit_timeouts (o : Options) (code : Z) (s : Session) :
  timeouts s = [] -> timeouts (cleanupThenExit o code s) = [].
Proof.
  intros Hnil.
  assert (Hone : Notions.oneIdleTimer s) by (left; exact Hnil).
  pose proof (oneIdleTimer_cleanup o s Hone) as Hc.
  unfold cleanupThenExit. cbv zeta.
  destruct (spotifyAvailable o); cbn [timeouts set_awaiting set_exited]; exact Hc.
Qed.

Lemma playerless_step (o : Options) (s : Session) (e : event) :
  spotifyAvailable o = false ->
  signals s = [] -> timeouts s = [] ->
  signals (step o s e) = [] /\ timeouts (step o s e) = [].
Proof.
  intros Ha Hsig Htime.
  assert (Hoff : noPauseMode o || negb (spotifyAvailable o) = true)
    by (rewrite Ha; apply orb_true_r).
  unfold step. destruct (exited s); [auto|].
  destruct e as [data | ms | code | | k].
  - rewrite (stdin_signals_disabled o data s Hoff).
    rewrite (stdin_timeouts_disabled o data s Hoff Htime). auto.
  - destruct (elapse_idle ms s Htime) as (H1 & _ & _ & H2 & _).
    rewrite H1, H2. auto.
  - unfold onExit. rewrite cleanupThenExit_signals, Ha, app_nil_r.
    split; [exact Hsig | apply cleanupThenExit_timeouts; exact Htime].
  - unfold onSigint. rewrite cleanupThenExit_signals, Ha, app_nil_r.
    split; [exact Hsig | apply cleanupThenExit_timeouts; exact Htime].
  - destruct (onPauseSettled_frame k s) as (_ & _ & _ & _ & H1 & H2 & _).
    rewrite H1, H2. auto.
Qed.

(** X3.  A session started without a player never calls the player and
    never arms a timer: not at launch, not on a submission, not on typing,
    not at exit, in pausing mode and in no-pause mode alike. *)
Theorem no_player_no_calls
        (parse : parser) (p : platform) (pidPath : string) (o : Options)
        (settings0 : option string) (spawned : result N) (s0 : Session)
        (evs : list event) :
  spotifyAvailable o = false ->
  startup parse p pidPath o settings0 spawned = Ok s0 ->
  signals (run o evs s0) = [] /\ timeouts (run o evs s0) = [].
Proof.
  intros Ha Hstart.
  destruct (startup_installed _ _ _ _ _ _ _ Hstart) as (pid & r & _ & _ & ->).
  assert (Hinit : signals (installed o pid r) = [] /\ timeouts (installed o pid r) = [])
    by (simpl; rewrite Ha; auto).
  revert Hinit. generalize (installed o pid r).
  induction evs as [|e evs IH]; intros s [Hsig Htime]; [auto|].
  rewrite run_cons. apply IH.
  apply playerless_step; assumption.
Qed.

Lemma no_player_no_calls_witness :
  signals (run playerless (sampleKeys ++ [Elapse 6000; Sigint]) (sampleSession playerless))
  = []
  /\ timeouts (run playerless (sampleKeys ++ [Elapse 6000; Sigint])
                 (sampleSession playerless)) = [].
Proof.
  exact (no_player_no_calls JsonText.parse OtherPlatform samplePidPath playerless
           (Some compactSettings) (Ok 4242%N) (sampleSession playerless)
           (sampleKeys ++ [Elapse 6000; Sigint]) eq_refl (startup_sample playerless)).
Defined.

Lemma typing_chunk_below (o : Options) (c : list Z) (s : Session) :
  submission c = false -> firstMessageSent s = true ->
  charCount s + printableCount c < TYPING_PLAY_THRESHOLD ->
  timeouts (onStdinData o c s) = timeouts s.
Proof.
  intros Hsub Hfirst Hlt. unfold submission in Hsub.
  unfold TYPING_PLAY_THRESHOLD in Hlt.
  unfold onStdinData. cbv zeta. rewrite Hsub.
  change (firstMessageSent (set_ptyInput (ptyInput s ++ [BufferText.toString c]) s))
    with (firstMessageSent s).
  rewrite Hfirst. cbv [negb].
  fold (printableCount c).
  destruct (printableCount c =? 0); [reflexivity|].
  change (charCount
            (set_charCount (charCount (set_ptyInput (ptyInput s ++ [BufferText.toString c]) s)
                            + printableCount c)
               (set_ptyInput (ptyInput s ++ [BufferText.toString c]) s)))
    with (charCount s + printableCount c).
  unfold TYPING_PLAY_THRESHOLD.
  replace (charCount s + printableCount c =? 3) with false
    by (symmetry; apply Z.eqb_neq; lia).
  cbv iota.
  change (charCount
            (set_charCount (charCount (set_ptyInput (ptyInput s ++ [BufferText.toString c]) s)
                            + printableCount c)
               (set_ptyInput (ptyInput s ++ [BufferText.toString c]) s)))
    with (charCount s + printableCount c).
  replace (charCount s + printableCount c >=? 3) with false
    by (symmetry; rewrite Z.geb_leb; apply Z.leb_gt; lia).
  reflexivity.
Qed.

Lemma cleanupThenExit_clears (o : Options) (code : Z) (s : Session) :
  Notions.oneIdleTimer s -> timeouts (cleanupThenExit o code s) = [].
Proof.
  intros Hone. pose proof (oneIdleTimer_cleanup o s Hone) as Hc.
  unfold cleanupThenExit. cbv zeta.
  destruct (spotifyAvailable o); cbn [timeouts set_awaiting set_exited]; exact Hc.
Qed.

Lemma armedAfterTyping_step (o : Options) (s : Session) (e : event) :
  Notions.oneIdleTimer s -> armedAfterTyping o s -> armedAfterTyping o (step o s e).
Proof.
  intros Hone Harmed. unfold step. destruct (exited s); [exact Harmed|].
  destruct e as [data | ms | code | | k].
  - destruct (submission data) eqn:Hsub.
    { intros Hpending. exfalso. apply Hpending.
      apply (submission_cancels_timer o data s Hsub Hone). }
    destruct (firstMessageSent s) eqn:Hfirst.
    2:{ destruct (chunk_before_first_message o data s Hsub Hfirst)
          as (_ & _ & Htime & _ & _).
        intros Hpending. rewrite Htime in Hpending.
        destruct (Harmed Hpending) as (Hyes & _). congruence. }
    destruct (typing_chunk_effect o data s Hsub Hfirst) as (Hcount & Hfirst' & _).
    pose proof (printableCount_nonneg data) as Hn.
    destruct (Z.lt_ge_cases (charCount s + printableCount data) TYPING_PLAY_THRESHOLD)
      as [Hlt | Hge].
    + pose proof (typing_chunk_below o data s Hsub Hfirst Hlt) as Htime.
      intros Hpending. rewrite Htime in Hpending.
      destruct (Harmed Hpending) as (_ & Hthree & _). lia.
    + intros Hpending. rewrite Hfirst', Hcount.
      split; [reflexivity|]. split; [exact Hge|].
      destruct (noPauseMode o || negb (spotifyAvailable o)) eqn:Hoff.
      * exfalso. apply Hpending.
        apply (stdin_timeouts_disabled o data s Hoff).
        destruct (timeouts s) as [|x l] eqn:Hl; [reflexivity|].
        assert (Hp : timeouts s <> []) by (rewrite Hl; discriminate).
        destruct (Harmed Hp) as (_ & _ & Hno & Hav).
        rewrite Hno, Hav in Hoff. discriminate.
      * destruct (noPauseMode o), (spotifyAvailable o); try discriminate. auto.
  - destruct Hone as [Hnil | (h & due & Hl & _)].
    + intros Hpending. exfalso. apply Hpending. apply (elapse_idle ms s Hnil).
    + destruct (elapse_frame ms s) as (_ & _ & _ & _ & _ & _ & Hfirst & _).
      destruct (Z.lt_ge_cases (clock s + Z.of_N ms) due) as [Hw | Hf].
      * destruct (elapse_waits ms s h due Hl Hw) as (_ & Hcount & _ & Htime & _).
        intros Hpending. rewrite Hfirst, Hcount. apply Harmed.
        rewrite Hl. discriminate.
      * intros Hpending. exfalso. apply Hpending.
        apply (elapse_fires ms s h due Hl). lia.
  - intros Hpending. exfalso. apply Hpending.
    unfold onExit. apply cleanupThenExit_clears. exact Hone.
  - intros Hpending. exfalso. apply Hpending.
    unfold onSigint. apply cleanupThenExit_clears.
    destruct Hone as [Hnil | (h & due & Hl & Ht & Hlt)];
      [left; exact Hnil | right; exists h, due; auto].
  - unfold onPauseSettled. destruct (nth_error _ _); exact Harmed.
Qed.

(** X23.  An idle timer is pending only after typing.  Whenever a timeout
    is pending in a session, the first submission has been made, the count of
    printable characters since the last submission or idle pause is at the
    threshold or beyond, and the session has a player and pauses.  So the
    idle pause, which only a pending timeout calls, never comes out of the
    blue. *)
Theorem idle_timer_needs_typing
        (parse : parser) (p : platform) (pidPath : string) (o : Options)
        (settings0 : option string) (spawned : result N) (s0 : Session)
        (evs : list event) :
  startup parse p pidPath o settings0 spawned = Ok s0 ->
  (timeouts (run o evs s0) <> [] ->
   firstMessageSent (run o evs s0) = true
   /\ TYPING_PLAY_THRESHOLD <= charCount (run o evs s0)
   /\ noPauseMode o = false /\ spotifyAvailable o = true)
  /\ (forall ms,
        signals (step o (run o evs s0) (Elapse ms)) <> signals (run o evs s0) ->
        timeouts (run o evs s0) <> []).
Proof.
  intros Hstart.
  pose proof (oneIdleTimer_started _ _ _ _ _ _ _ Hstart) as Hone.
  assert (Hinit : armedAfterTyping o s0).
  { destruct (startup_installed _ _ _ _ _ _ _ Hstart) as (pid & r & _ & _ & ->).
    intros Hpending. exfalso. apply Hpending. reflexivity. }
  assert (Hall : forall l s, Notions.oneIdleTimer s -> armedAfterTyping o s ->
                             armedAfterTyping o (run o l s)).
  { induction l as [|e l IH]; intros s H1 H2; [exact H2|].
    rewrite run_cons. apply IH.
    - apply oneIdleTimer_step; exact H1.
    - apply armedAfterTyping_step; assumption. }
  split; [exact (Hall evs s0 Hone Hinit)|].
  intros ms Hchanged Hnil. apply Hchanged.
  unfold step. destruct (exited (run o evs s0)); [reflexivity|].
  apply (elapse_idle ms _ Hnil).
Qed.

(** After Enter and the keys [a b c] a timeout is pending. *)
Lemma idle_timer_needs_typing_witness :
  firstMessageSent (run vibe [Stdin [13]; Stdin [97; 98; 99]] (sampleSession vibe)) = true
  /\ 3 <= charCount (run vibe [Stdin [13]; Stdin [97; 98; 99]] (sampleSession vibe)).
Proof.
  destruct (idle_timer_needs_typing JsonText.parse OtherPlatform samplePidPath vibe
              (Some compactSettings) (Ok 4242%N) (sampleSession vibe)
              [Stdin [13]; Stdin [97; 98; 99]] (startup_sample vibe))
    as (Harmed & _).
  destruct (Harmed ltac:(vm_compute; discriminate)) as (Hfirst & Hcount & _).
  split; [exact Hfirst | exact Hcount].
Defined.

End SessionInput.

(** ** The wrapper: the end of a session *)

Section SessionExit.
Import Json ClaudeWrapper HookShell SessionNotions SessionSamples.

Lemma codesFrom_more (seen more : list event) (s : Session) :
  codesFrom seen s -> codesFrom (seen ++ more) s.
Proof.
  intros H c Hc. destruct (H c Hc) as (e & Hin & He).
  exists e. split; [apply in_or_app; left; exact Hin | exact He].
Qed.

Lemma codesFrom_cleanupThenExit (o : Options) (seen : list event) (e : event)
      (code : Z) (s : Session) :
  exitCodeOf e = Some code -> exited s = None -> codesFrom seen s ->
  codesFrom (seen ++ [e]) (cleanupThenExit o code s).
Proof.
  intros He Hex H c Hc.
  destruct (cleanupThenExit_effect o code s) as (_ & _ & _ & _ & Haw & Hexit).
  rewrite Haw, Hexit, Hex in Hc.
  assert (Hnew : exists e', In e' (seen ++ [e]) /\ exitCodeOf e' = Some code).
  { exists e. split; [apply in_or_app; right; left; reflexivity | exact He]. }
  destruct (spotifyAvailable o).
  - destruct Hc as [Hin | Hc]; [|discriminate].
    apply in_app_or in Hin as [Hin | [<- | []]]; [|exact Hnew].
    apply (codesFrom_more seen [e] s H). left; exact Hin.
  - destruct Hc as [Hin | Hc].
    + apply (codesFrom_more seen [e] s H). left; exact Hin.
    + injection Hc as <-. exact Hnew.
Qed.

Lemma codesFrom_step (o : Options) (seen : list event) (s : Session) (e : event) :
  codesFrom seen s -> codesFrom (seen ++ [e]) (step o s e).
Proof.
  intros H. unfold step. destruct (exited s) as [c0|] eqn:Hex.
  - apply codesFrom_more; exact H.
  - destruct e as [data | ms | code | | k].
    + destruct (onStdinData_frame o data s) as (H1 & _ & H3 & _).
      intros c Hc. rewrite H1, H3 in Hc. apply (codesFrom_more seen _ s H). exact Hc.
    + destruct (elapse_frame ms s) as (H1 & _ & H3 & _).
      intros c Hc. rewrite H1, H3 in Hc. apply (codesFrom_more seen _ s H). exact Hc.
    + unfold onExit. apply codesFrom_cleanupThenExit; [destruct code; reflexivity | exact Hex | exact H].
    + unfold onSigint. apply codesFrom_cleanupThenExit; [reflexivity | exact Hex | exact H].
    + unfold onPauseSettled.
      destruct (nth_error (awaiting s) k) as [code|] eqn:Hk;
        [|apply codesFrom_more; exact H].
      intros c Hc. cbn [awaiting exited set_exited] in Hc.
      apply (codesFrom_more seen _ s H).
      destruct Hc as [Hin | Hc]; [left; exact Hin|].
      injection Hc as <-. left. exact (nth_error_In _ _ Hk).
Qed.

Lemma codesFrom_run (o : Options) (evs : list event) :
  forall seen s, codesFrom seen s -> codesFrom (seen ++ evs) (run o evs s).
Proof.
  induction evs as [|e evs IH]; intros seen s H.
  - rewrite app_nil_r. exact H.
  - rewrite run_cons.
    replace (seen ++ e :: evs)%list with ((seen ++ [e]) ++ evs)%list
      by (rewrite <- app_assoc; reflexivity).
    apply IH. apply codesFrom_step. exact H.
Qed.

(** Events that are neither a child exit nor an interrupt leave a session
    that has no handler waiting as it is, as far as leaving goes. *)
Lemma running_step (o : Options) (s : Session) (e : event) :
  exitEvents [e] = 0%nat -> exited s = None -> awaiting s = [] ->
  exited (step o s e) = None
  /\ awaiting (step o s e) = []
  /\ pidFile (step o s e) = pidFile s
  /\ settingsFile (step o s e) = settingsFile s
  /\ rawMode (step o s e) = rawMode s
  /\ cleanupRuns (step o s e) = cleanupRuns s.
Proof.
  intros He Hex Haw. unfold step. rewrite Hex.
  destruct e as [data | ms | code | | k]; try discriminate.
  - destruct (onStdinData_frame o data s) as (H1 & H2 & H3 & H4 & H5 & _).
    destruct (onStdinData_forwards o data s) as (_ & H6 & _).
    rewrite H1, H2, H3, H4, H5, H6. auto 10.
  - destruct (elapse_frame ms s) as (H1 & H2 & H3 & H4 & H5 & _).
    destruct (elapse_terminal ms s) as (_ & H6 & _).
    rewrite H1, H2, H3, H4, H5, H6. auto 10.
  - unfold onPauseSettled. rewrite Haw. destruct k; simpl; auto 10.
Qed.

Lemma exitEvents_cons (e : event) (evs : list event) :
  exitEvents (e :: evs) = (exitEvents [e] + exitEvents evs)%nat.
Proof. destruct e; reflexivity. Qed.

Lemma running_run (o : Options) (evs : list event) :
  forall s,
    exitEvents evs = 0%nat -> exited s = None -> awaiting s = [] ->
    exited (run o evs s) = None
    /\ awaiting (run o evs s) = []
    /\ pidFile (run o evs s) = pidFile s
    /\ settingsFile (run o evs s) = settingsFile s
    /\ rawMode (run o evs s) = rawMode s
    /\ cleanupRuns (run o evs s) = cleanupRuns s.
Proof.
  induction evs as [|e evs IH]; intros s Hev Hex Haw; [simpl; auto 10|].
  rewrite exitEvents_cons in Hev.
  destruct (running_step o s e) as (H1 & H2 & H3 & H4 & H5 & H6); [lia | assumption..|].
  rewrite run_cons.
  destruct (IH (step o s e)) as (K1 & K2 & K3 & K4 & K5 & K6); [lia | assumption..|].
  rewrite K1, K2, K3, K4, K5, K6, H3, H4, H5, H6. auto 10.
Qed.

(** X4.  The code the process exits with is the code of one of the events
    that arrived: 130 for an interrupt, the child's exit code for a child
    exit, 0 when the child reports no code.  Without a player the first such
    event decides; with a player its handler waits for the pause it started,
    and exits with that code when the pause has ended. *)
Theorem exit_code_origin
        (parse : parser) (p : platform) (pidPath : string) (o : Options)
        (settings0 : option string) (spawned : result N) (s0 : Session) :
  startup parse p pidPath o settings0 spawned = Ok s0 ->
  (forall evs code,
      exited (run o evs s0) = Some code ->
      exists e, In e evs /\ exitCodeOf e = Some code)
  /\ (forall before e rest code,
        exitEvents before = 0%nat -> exitCodeOf e = Some code ->
        if spotifyAvailable o
        then exited (run o (before ++ [e]) s0) = None
             /\ exited (run o (before ++ [e; PauseSettled 0]) s0) = Some code
        else exited (run o (before ++ e :: rest) s0) = Some code).
Proof.
  intros Hstart.
  destruct (startup_installed _ _ _ _ _ _ _ Hstart) as (pid & r & _ & _ & ->).
  split.
  - intros evs code Hexit.
    assert (Hinit : codesFrom [] (installed o pid r)).
    { intros c [Hin | Hc]; [contradiction | discriminate]. }
    apply (codesFrom_run o evs [] _ Hinit code). right. exact Hexit.
  - intros before e rest code Hbefore He.
    destruct (running_run o before (installed o pid r) Hbefore eq_refl eq_refl)
      as (Hex & Haw & _).
    assert (Hstep : step o (run o before (installed o pid r)) e
                    = cleanupThenExit o code
                        (match e with
                         | Sigint => set_childKills
                                       (S (childKills (run o before (installed o pid r))))
                                       (run o before (installed o pid r))
                         | _ => run o before (installed o pid r)
                         end)).
    { unfold step. rewrite Hex.
      destruct e as [data | ms | [c|] | | k]; try discriminate;
        injection He as <-; reflexivity. }
    assert (Hheld : exited (step o (run o before (installed o pid r)) e)
                    = (if spotifyAvailable o then None else Some code)
                    /\ awaiting (step o (run o before (installed o pid r)) e)
                       = (if spotifyAvailable o then [code] else [])).
    { rewrite Hstep.
      destruct (cleanupThenExit_effect o code
                  (match e with
                   | Sigint => set_childKills
                                 (S (childKills (run o before (installed o pid r))))
                                 (run o before (installed o pid r))
                   | _ => run o before (installed o pid r)
                   end)) as (_ & _ & _ & _ & Haw' & Hex').
      rewrite Haw', Hex'.
      destruct e; cbn [awaiting exited set_childKills]; rewrite Hex, Haw;
        destruct (spotifyAvailable o); auto. }
    destruct Hheld as (Hex1 & Haw1).
    unfold run in *. rewrite !fold_left_app. cbn [fold_left].
    destruct (spotifyAvailable o).
    + split; [exact Hex1|].
      unfold step at 1. rewrite Hex1. unfold onPauseSettled. rewrite Haw1.
      reflexivity.
    + fold (run o rest (step o (fold_left (step o) before (installed o pid r)) e)).
      rewrite (run_after_exit o rest _ code Hex1). exact Hex1.
Qed.

(** An interrupt after some typing, with and without a player. *)
Lemma exit_code_origin_witness :
  exited (run playerless (sampleKeys ++ Sigint :: [ChildExit (Some 0)])
            (sampleSession playerless)) = Some 130
  /\ exited (run vibe (sampleKeys ++ [ChildExit None; PauseSettled 0])
               (sampleSession vibe)) = Some 0.
Proof.
  split.
  - exact (proj2 (exit_code_origin JsonText.parse OtherPlatform samplePidPath playerless
                    (Some compactSettings) (Ok 4242%N) (sampleSession playerless)
                    (startup_sample playerless))
             sampleKeys Sigint [ChildExit (Some 0)] 130 eq_refl eq_refl).
  - exact (proj2 (proj2 (exit_code_origin JsonText.parse OtherPlatform samplePidPath vibe
                           (Some compactSettings) (Ok 4242%N) (sampleSession vibe)
                           (startup_sample vibe))
                    sampleKeys (ChildExit None) [] 0 eq_refl eq_refl)).
Defined.

(** X5.  Until a child exit or an interrupt arrives the session goes on and
    leaves its files and the terminal as startup set them: the pid file holds
    the child's pid in decimal, the settings file holds what [injectHooks]
    wrote, the terminal is in raw mode exactly if stdin is a TTY, and
    [cleanup] has not run. *)
Theorem session_files_until_exit
        (parse : parser) (p : platform) (pidPath : string) (o : Options)
        (settings0 : option string) (pid : N) (s0 : Session) (evs : list event) :
  startup parse p pidPath o settings0 (Ok pid) = Ok s0 ->
  exitEvents evs = 0%nat ->
  exited (run o evs s0) = None
  /\ pidFile (run o evs s0) = Some (decimal pid)
  /\ settingsFile (run o evs s0) = settingsFile s0
  /\ rawMode (run o evs s0) = stdinIsTTY o
  /\ cleanupRuns (run o evs s0) = 0%nat.
Proof.
  intros Hstart Hev.
  destruct (startup_installed _ _ _ _ _ _ _ Hstart) as (pid' & r & Hpid & _ & ->).
  injection Hpid as <-.
  destruct (running_run o evs (installed o pid r) Hev eq_refl eq_refl)
    as (H1 & _ & H3 & H4 & H5 & H6).
  rewrite H1, H3, H4, H5, H6. auto 10.
Qed.

Lemma session_files_until_exit_witness :
  exited (run vibe sampleKeys (sampleSession vibe)) = None
  /\ pidFile (run vibe sampleKeys (sampleSession vibe)) = Some (decimal 4242)
  /\ rawMode (run vibe sampleKeys (sampleSession vibe)) = true.
Proof.
  destruct (session_files_until_exit JsonText.parse OtherPlatform samplePidPath vibe
              (Some compactSettings) 4242 (sampleSession vibe) sampleKeys
              (startup_sample vibe) eq_refl)
    as (H1 & H2 & _ & H4 & _).
  split; [exact H1|]. split; [exact H2 | exact H4].
Defined.

End SessionExit.

(** ** The wrapper: what installing the hooks does to the settings *)

Section HookInstall.
Import Json ClaudeWrapper HookShell SessionNotions SessionSamples.
Local Open Scope string_scope.

Lemma pushGroup_object (event : string) (group : json)
      (hooks : list (string * json)) (hooks' : json) :
  pushGroup event group (JObj hooks) = Ok hooks' ->
  exists old,
    groupsOf event hooks = JArr old
    /\ hooks' = JObj (setProp event (JArr (old ++ [group])) hooks).
Proof.
  unfold pushGroup, groupsOf.
  destruct (nullish (getProp event hooks) (JArr [])) as [| | | |old|];
    try discriminate.
  intros H; injection H as <-. exists old. auto.
Qed.

Lemma pushGroup_appendable (event : string) (group : json)
      (hooks : list (string * json)) :
  (exists hooks', pushGroup event group (JObj hooks) = Ok hooks')
  <-> appendable (getProp event hooks) = true.
Proof.
  unfold pushGroup, appendable.
  destruct (nullish (getProp event hooks) (JArr [])); split;
    try discriminate; try (intros [h H]; discriminate); eauto.
Qed.

Lemma injections_distinct (p : platform) (noPause : bool) (pidPath : string) :
  NoDup (map fst (Notions.injections p noPause pidPath)).
Proof.
  unfold Notions.injections. destruct noPause; simpl.
  - constructor; [intros [] | constructor].
  - repeat constructor; simpl; intuition discriminate.
Qed.

(** A run of pushes under distinct events: each event gets its group after
    the groups it had, the other events keep theirs. *)
Lemma pushAll_object (groups : list (string * string)) :
  NoDup (map fst groups) ->
  forall hooks hooks',
    Notions.pushAll groups (JObj hooks) = Ok hooks' ->
    exists after,
      hooks' = JObj after
      /\ (forall event command,
            In (event, command) groups ->
            exists old,
              groupsOf event hooks = JArr old
              /\ getProp event after = Some (JArr (old ++ [hookGroup command])))
      /\ (forall k, ~ In k (map fst groups) -> getProp k after = getProp k hooks).
Proof.
  induction groups as [|[ev cmd] rest IH]; intros Hdup hooks hooks' Hpush.
  - simpl in Hpush. injection Hpush as <-. exists hooks.
    split; [reflexivity|]. split; [intros ? ? []|reflexivity].
  - simpl in Hdup. inversion Hdup as [|? ? Hfresh Hrest]; subst.
    change (Notions.pushAll ((ev, cmd) :: rest) (JObj hooks))
      with (bind (pushGroup ev (hookGroup cmd) (JObj hooks))
                 (fun h => Notions.pushAll rest h)) in Hpush.
    destruct (pushGroup ev (hookGroup cmd) (JObj hooks)) as [h1|m] eqn:Hone;
      cbn [bind] in Hpush; [|discriminate].
    destruct (pushGroup_object _ _ _ _ Hone) as (old & Hold & ->).
    destruct (IH Hrest _ _ Hpush) as (after & -> & Hgroups & Hothers).
    exists after. split; [reflexivity|]. split.
    + intros event command [Heq | Hin].
      * injection Heq as <- <-. exists old. split; [exact Hold|].
        rewrite (Hothers ev Hfresh). apply getProp_setProp_same.
      * assert (Hne : event <> ev).
        { intros ->. apply Hfresh. apply (in_map fst) in Hin. exact Hin. }
        destruct (Hgroups event command Hin) as (old' & Hold' & Hnew).
        exists old'. split; [|exact Hnew].
        unfold groupsOf in *. rewrite getProp_setProp_other in Hold' by exact Hne.
        exact Hold'.
    + intros k Hk. simpl in Hk.
      rewrite (Hothers k) by tauto.
      apply getProp_setProp_other. intros ->. tauto.
Qed.

Lemma hookedEvents_injections (p : platform) (noPause : bool) (pidPath : string) :
  map fst (Notions.injections p noPause pidPath) = Notions.hookedEvents noPause.
Proof. destruct noPause; reflexivity. Qed.

Lemma injection_payload (p : platform) (noPause : bool) (pidPath event command : string) :
  In (event, command) (Notions.injections p noPause pidPath) ->
  exists what,
    command = render {| idFile := pidPath; payload := what |}
    /\ (what = Notions.playPayload p \/ what = Notions.pausePayload p).
Proof.
  unfold Notions.injections. intros [Heq | Hin].
  - injection Heq as _ <-. exists (Notions.playPayload p).
    split; [apply spotifyPlayCmd_guarded | auto].
  - destruct noPause; [contradiction|].
    exists (Notions.pausePayload p). split; [|auto].
    destruct Hin as [Heq | [Heq | []]]; injection Heq as _ <-;
      apply spotifyPauseCmd_guarded.
Qed.

(** The settings [injectHooks] writes: under each hooked event the groups
    that were there and then one more, whose one command is a guard on the
    pid file followed by a playback command; the other events as before. *)
Lemma injected_commands
      (parse : parser) (p : platform) (noPause : bool) (pidPath : string)
      (file : option string) (props hooks : list (string * json))
      (original : json) (written : option string) :
  readSettings parse file = JObj props ->
  nullish (getProp "hooks" props) (JObj []) = JObj hooks ->
  injectHooks parse p noPause pidPath file = Ok (original, written) ->
  exists doc,
    written = Some (stringify2 doc)
    /\ (forall event,
          In event (Notions.hookedEvents noPause) ->
          exists old group what,
            groupsOf event hooks = JArr old
            /\ Notions.hookList event doc = Some (JArr (old ++ [group]))
            /\ Notions.groupCommands group
               = [render {| idFile := pidPath; payload := what |}]
            /\ (what = Notions.playPayload p \/ what = Notions.pausePayload p))
    /\ (forall event,
          ~ In event (Notions.hookedEvents noPause) ->
          Notions.hookList event doc = getProp event hooks).
Proof.
  intros Hread Hhooks Hinj.
  rewrite (injectHooks_pushes parse p noPause pidPath file props Hread) in Hinj.
  rewrite Hhooks in Hinj.
  destruct (Notions.pushAll (Notions.injections p noPause pidPath) (JObj hooks))
    as [hooks'|m] eqn:Hpush; simpl in Hinj; [|discriminate].
  destruct (pushAll_object _ (injections_distinct p noPause pidPath) _ _ Hpush)
    as (after & -> & Hgroups & Hothers).
  injection Hinj as _ <-.
  rewrite (hookedEvents_injections p noPause pidPath) in Hothers.
  exists (JObj (setProp "hooks" (JObj after) props)).
  split; [reflexivity|].
  unfold Notions.hookList. rewrite getProp_setProp_same.
  split; [|exact Hothers].
  intros event Hev.
  rewrite <- (hookedEvents_injections p noPause pidPath) in Hev.
  apply in_map_iff in Hev as ([event' command] & Hfst & Hin).
  simpl in Hfst. subst event'.
  destruct (Hgroups event command Hin) as (old & Hold & Hnew).
  destruct (injection_payload p noPause pidPath event command Hin) as (what & -> & Hwhat).
  exists old, (hookGroup (render {| idFile := pidPath; payload := what |})), what.
  split; [exact Hold|]. split; [exact Hnew|]. split; [reflexivity | exact Hwhat].
Qed.




(** X6.  The hook commands a session has written work for that session
    and for no longer, as long as the pid file on the host is as the session
    left it.  For a pid path without a single quote: while no child exit or
    interrupt has arrived, the command of each injected group runs its
    playback command when started by the session's child and does nothing
    when started by any other process; once [cleanup] has run it does
    nothing whoever starts it, even if it is still listed in some settings
    file.  The pid file is one path shared by every session: when another
    session has put the pid of its own child there, the command does nothing
    for this session's child, and runs for the other one. *)
Theorem hooks_live_until_cleanup
        (parse : parser) (p : platform) (pidPath : string) (o : Options)
        (settings0 : option string) (pid : N) (s0 : Session)
        (props hooks : list (string * json)) :
  noSingleQuote pidPath = true ->
  startup parse p pidPath o settings0 (Ok pid) = Ok s0 ->
  readSettings parse settings0 = JObj props ->
  nullish (getProp "hooks" props) (JObj []) = JObj hooks ->
  exists doc,
    settingsFile s0 = Some (stringify2 doc)
    /\ forall event,
         In event (Notions.hookedEvents (noPauseMode o)) ->
         exists old group command what,
           Notions.hookList event doc = Some (JArr (old ++ [group]))
           /\ Notions.groupCommands group = [command]
           /\ (forall evs (files : string -> option string),
                 files pidPath = pidFile (run o evs s0) ->
                 exitEvents evs = 0%nat ->
                 sh files pid command = Runs what
                 /\ forall other, other <> pid -> sh files other command = Skips)
           /\ (forall evs (files : string -> option string),
                 files pidPath = pidFile (run o evs s0) ->
                 (1 <= cleanupRuns (run o evs s0))%nat ->
                 forall ppid, sh files ppid command = Skips)
           /\ (forall (files : string -> option string) (other : N),
                 other <> pid ->
                 files pidPath = Some (decimal other) ->
                 sh files pid command = Skips
                 /\ sh files other command = Runs what).
Proof.
  intros Hquote Hstart Hread Hhooks.
  destruct (startup_installed _ _ _ _ _ _ _ Hstart)
    as (pid' & [original written] & Hpid & Hinj & ->).
  injection Hpid as <-.
  destruct (injected_commands _ _ _ _ _ _ _ _ _ Hread Hhooks Hinj)
    as (doc & Hwritten & Hgroups & _).
  exists doc. split; [exact Hwritten|].
  intros event Hev.
  destruct (Hgroups event Hev) as (old & group & what & _ & Hlist & Hcmd & _).
  exists old, group, (render {| idFile := pidPath; payload := what |}), what.
  split; [exact Hlist|]. split; [exact Hcmd|]. split; [|split].
  - intros evs files Hfile Hev0.
    destruct (running_run o evs (installed o pid (original, written)) Hev0
                eq_refl eq_refl) as (_ & _ & Hkept & _).
    rewrite Hkept in Hfile. cbn [pidFile installed] in Hfile.
    split.
    + apply (sh_render_held files {| idFile := pidPath; payload := what |} pid pid
               Hquote Hfile). reflexivity.
    + intros other Hne.
      apply (sh_render_held files {| idFile := pidPath; payload := what |} other pid
               Hquote Hfile). exact Hne.
  - intros evs files Hfile Hruns ppid.
    pose proof (leaving_run o _ evs _ (leaving_started _ _ _ _ _ _ _ Hstart))
      as (_ & Hfiles & _).
    destruct (Hfiles Hruns) as (Hgone & _).
    rewrite Hgone in Hfile.
    exact (sh_render_missing files {| idFile := pidPath; payload := what |} ppid
             Hquote Hfile).
  - intros files other Hne Hfile. split.
    + apply (sh_render_held files {| idFile := pidPath; payload := what |} pid other
               Hquote Hfile). congruence.
    + apply (sh_render_held files {| idFile := pidPath; payload := what |} other other
               Hquote Hfile). reflexivity.
Qed.

(** The Stop hook of the sample session: fired by the child 4242 and by a
    stranger while the session runs, by the child after an interrupt, and by
    the child once a second session has put 5151 in the pid file. *)
Lemma hooks_live_until_cleanup_witness :
  exists doc old group command what,
    settingsFile (sampleSession vibe) = Some (stringify2 doc)
    /\ Notions.hookList "Stop" doc = Some (JArr (old ++ [group]))
    /\ Notions.groupCommands group = [command]
    /\ sh (onlyFile samplePidPath (decimal 4242)) 4242 command = Runs what
    /\ sh (onlyFile samplePidPath (decimal 4242)) 5151 command = Skips
    /\ sh (fun _ => None) 4242 command = Skips
    /\ sh (onlyFile samplePidPath (decimal 5151)) 4242 command = Skips.
Proof.
  destruct (hooks_live_until_cleanup JsonText.parse OtherPlatform samplePidPath vibe
              (Some compactSettings) 4242 (sampleSession vibe)
              [("hooks", JObj [])] []
              eq_refl (startup_sample vibe) eq_refl eq_refl)
    as (doc & Hwritten & Hgroups).
  destruct (Hgroups "Stop" (or_intror (or_introl eq_refl)))
    as (old & group & command & what & Hlist & Hcmd & Hlive & Hdead & Hother).
  exists doc, old, group, command, what.
  split; [exact Hwritten|]. split; [exact Hlist|]. split; [exact Hcmd|].
  destruct (Hlive sampleKeys (onlyFile samplePidPath (decimal 4242)) eq_refl eq_refl)
    as (Hchild & Hstranger).
  split; [exact Hchild|]. split; [apply Hstranger; discriminate|].
  split.
  - apply (Hdead [Sigint] (fun _ => None) eq_refl). vm_compute. apply le_n.
  - apply (Hother (onlyFile samplePidPath (decimal 5151)) 5151%N);
      [discriminate | reflexivity].
Defined.

(** X7.  Installing the hooks adds to the user's settings and takes nothing
    away: every top-level setting other than [hooks] is written back as it
    was read; under each event it hooks, the groups that were listed are kept,
    in order, with the injected group appended last; every other event keeps
    its groups. *)
Theorem injectHooks_keeps_user_hooks
        (parse : parser) (p : platform) (noPause : bool) (pidPath : string)
        (file : option string) (props hooks : list (string * json))
        (original : json) (written : option string) :
  readSettings parse file = JObj props ->
  nullish (getProp "hooks" props) (JObj []) = JObj hooks ->
  injectHooks parse p noPause pidPath file = Ok (original, written) ->
  exists after,
    written = Some (stringify2 (JObj (setProp "hooks" (JObj after) props)))
    /\ (forall k, k <> "hooks" ->
                  getProp k (setProp "hooks" (JObj after) props) = getProp k props)
    /\ (forall event command,
          In (event, command) (Notions.injections p noPause pidPath) ->
          exists old,
            groupsOf event hooks = JArr old
            /\ getProp event after = Some (JArr (old ++ [hookGroup command])))
    /\ (forall k, ~ In k (map fst (Notions.injections p noPause pidPath)) ->
                  getProp k after = getProp k hooks).
Proof.
  intros Hread Hhooks Hinj.
  rewrite (injectHooks_pushes parse p noPause pidPath file props Hread) in Hinj.
  rewrite Hhooks in Hinj.
  destruct (Notions.pushAll (Notions.injections p noPause pidPath) (JObj hooks))
    as [hooks'|m] eqn:Hpush; simpl in Hinj; [|discriminate].
  destruct (pushAll_object _ (injections_distinct p noPause pidPath) _ _ Hpush)
    as (after & -> & Hgroups & Hothers).
  injection Hinj as _ <-.
  exists after. split; [reflexivity|]. split; [|split; assumption].
  intros k Hk. apply getProp_setProp_other. exact Hk.
Qed.

(** Settings with a theme and one Stop hook of the user's. *)
Lemma injectHooks_keeps_user_hooks_witness :
  exists original written after,
    injectHooks JsonText.parse Darwin false samplePidPath (Some userSettings)
    = Ok (original, written)
    /\ written = Some (stringify2 (JObj (setProp "hooks" (JObj after)
                                          [("theme", JStr "dark");
                                           ("hooks", JObj [("Stop", JArr [userGroup])])])))
    /\ getProp "Stop" after
       = Some (JArr [userGroup; hookGroup (spotifyPauseCmd Darwin samplePidPath)])
    /\ getProp "theme" (setProp "hooks" (JObj after)
                          [("theme", JStr "dark");
                           ("hooks", JObj [("Stop", JArr [userGroup])])])
       = Some (JStr "dark").
Proof.
  destruct (injectHooks JsonText.parse Darwin false samplePidPath (Some userSettings))
    as [[original written]|m] eqn:Hinj; [|vm_compute in Hinj; discriminate].
  destruct (injectHooks_keeps_user_hooks JsonText.parse Darwin false samplePidPath
              (Some userSettings)
              [("theme", JStr "dark"); ("hooks", JObj [("Stop", JArr [userGroup])])]
              [("Stop", JArr [userGroup])] original written
              eq_refl eq_refl Hinj)
    as (after & Hwritten & Hkeys & Hgroups & _).
  exists original, written, after.
  split; [reflexivity|]. split; [exact Hwritten|]. split.
  - destruct (Hgroups "Stop" (spotifyPauseCmd Darwin samplePidPath))
      as (old & Hold & Hnew); [right; left; reflexivity|].
    injection Hold as <-. exact Hnew.
  - exact (Hkeys "theme" ltac:(discriminate)).
Defined.

(** X8.  [injectHooks] goes through exactly on the settings documents of
    [installable]: an array, or an object whose [hooks] is missing, null, an
    array, or an object in which each hooked event is missing, null or an
    array.  On every other document it throws and writes nothing.  A settings
    file that is missing or does not parse is read as the empty object, so
    installing over it always goes through. *)
Theorem injectHooks_succeeds_iff
        (parse : parser) (p : platform) (noPause : bool) (pidPath : string)
        (file : option string) :
  ((exists r, injectHooks parse p noPause pidPath file = Ok r)
   <-> installable noPause (readSettings parse file) = true)
  /\ (file = None \/ (exists text, file = Some text /\ parse text = None) ->
      exists r, injectHooks parse p noPause pidPath file = Ok r).
Proof.
  assert (Hiff : (exists r, injectHooks parse p noPause pidPath file = Ok r)
                 <-> installable noPause (readSettings parse file) = true).
  { unfold injectHooks, deepClone, installable. cbv zeta.
    destruct (readSettings parse file) as [| | | |items|props];
      try (split; [intros [r H]; discriminate | discriminate]);
      [split; eauto|].
    destruct (nullish (getProp "hooks" props) (JObj [])) as [| | | |items|hooks];
      try (cbn [pushGroup bind]; split; [intros [r H]; discriminate | discriminate]).
    - cbn [pushGroup bind]. destruct noPause; cbn [negb bind]; split; eauto.
    - pose proof (pushGroup_appendable "PreToolUse"
                    (hookGroup (spotifyPlayCmd p pidPath)) hooks) as Hpre.
      destruct (pushGroup "PreToolUse" _ (JObj hooks)) as [h1|m] eqn:H1; cbn [bind].
      + destruct (pushGroup_object _ _ _ _ H1) as (old1 & _ & ->).
        replace (appendable (getProp "PreToolUse" hooks)) with true
          by (symmetry; apply Hpre; eauto).
        destruct noPause; cbn [negb bind andb orb]; [split; eauto|].
        pose proof (pushGroup_appendable "Stop"
                      (hookGroup (spotifyPauseCmd p pidPath))
                      (setProp "PreToolUse"
                         (JArr (old1 ++ [hookGroup (spotifyPlayCmd p pidPath)])) hooks))
          as Hstop.
        rewrite getProp_setProp_other in Hstop by discriminate.
        destruct (pushGroup "Stop" _ _) as [h2|m] eqn:H2; cbn [bind].
        * destruct (pushGroup_object _ _ _ _ H2) as (old2 & _ & ->).
          replace (appendable (getProp "Stop" hooks)) with true
            by (symmetry; apply Hstop; eauto).
          pose proof (pushGroup_appendable "Notification"
                        (hookGroup (spotifyPauseCmd p pidPath))
                        (setProp "Stop"
                           (JArr (old2 ++ [hookGroup (spotifyPauseCmd p pidPath)]))
                           (setProp "PreToolUse"
                              (JArr (old1 ++ [hookGroup (spotifyPlayCmd p pidPath)]))
                              hooks)))
            as Hnote.
          rewrite !getProp_setProp_other in Hnote by discriminate.
          cbn [andb].
          destruct (pushGroup "Notification" _ _) as [h3|m] eqn:H3; cbn [bind].
          -- split; [intros _; apply Hnote; eauto | eauto].
          -- split; [intros [r H]; discriminate|].
             intros Hn. apply Hnote in Hn. destruct Hn as [h Hn]. discriminate.
        * split; [intros [r H]; discriminate|].
          intros Hn. apply andb_true_iff in Hn as [Hn _].
          apply Hstop in Hn. destruct Hn as [h Hn]. discriminate.
      + split; [intros [r H]; discriminate|].
        intros Hn. apply andb_true_iff in Hn as [Hn _].
        apply Hpre in Hn. destruct Hn as [h Hn]. discriminate. }
  split; [exact Hiff|].
  intros Hfile. apply Hiff.
  assert (Hempty : readSettings parse file = JObj []).
  { destruct Hfile as [-> | (text & -> & Hbad)]; simpl; [|rewrite Hbad]; reflexivity. }
  rewrite Hempty. destruct noPause; reflexivity.
Qed.

(** A file that does not parse, and settings whose Stop hooks are a string. *)
Lemma injectHooks_succeeds_iff_witness :
  (exists r, injectHooks JsonText.parse Win32 false samplePidPath (Some "{ hooks: ")
             = Ok r)
  /\ ~ (exists r, injectHooks JsonText.parse Win32 false samplePidPath
                    (Some oddSettings) = Ok r)
  /\ (exists r, injectHooks JsonText.parse Win32 true samplePidPath
                  (Some oddSettings) = Ok r).
Proof.
  split; [|split].
  - apply (proj2 (injectHooks_succeeds_iff JsonText.parse Win32 false samplePidPath
                    (Some "{ hooks: "))).
    right. exists "{ hooks: ". split; reflexivity.
  - intros H.
    apply (proj1 (proj1 (injectHooks_succeeds_iff JsonText.parse Win32 false
                           samplePidPath (Some oddSettings)))) in H.
    vm_compute in H. discriminate.
  - apply (proj2 (proj1 (injectHooks_succeeds_iff JsonText.parse Win32 true
                           samplePidPath (Some oddSettings)))).
    vm_compute. reflexivity.
Defined.

(** X24.  A session that did not get to clean up leaves its hooks behind
    for good.  The settings file it wrote lists its group under each hooked
    event; a later session that starts over that file takes it, injected
    groups and all, as its snapshot, and its own restore writes the file
    back with the groups of the earlier session still listed (for a parser
    that reads the written file back). *)
Theorem restore_after_crash_keeps_stale_hooks
        (parse : parser) (p : platform) (noPause : bool) (pidPath : string)
        (file : option string) (props hooks after : list (string * json)) :
  readSettings parse file = JObj props ->
  nullish (getProp "hooks" props) (JObj []) = JObj hooks ->
  Notions.pushAll (Notions.injections p noPause pidPath) (JObj hooks) = Ok (JObj after) ->
  injectHooks parse p noPause pidPath file
  = Ok (JObj props, Some (stringify2 (JObj (setProp "hooks" (JObj after) props))))
  /\ (forall event command,
        In (event, command) (Notions.injections p noPause pidPath) ->
        exists old,
          Notions.hookList event (JObj (setProp "hooks" (JObj after) props))
          = Some (JArr (old ++ [hookGroup command])))
  /\ (parse (stringify2 (JObj (setProp "hooks" (JObj after) props)))
      = Some (JObj (setProp "hooks" (JObj after) props)) ->
      forall p' noPause' pidPath' original2 written2,
        injectHooks parse p' noPause' pidPath'
          (Some (stringify2 (JObj (setProp "hooks" (JObj after) props))))
        = Ok (original2, written2) ->
        original2 = JObj (setProp "hooks" (JObj after) props)
        /\ restoreHooks original2
           = Some (stringify2 (JObj (setProp "hooks" (JObj after) props)))).
Proof.
  intros Hread Hhooks Hpush.
  split; [|split].
  - rewrite (injectHooks_pushes parse p noPause pidPath file props Hread).
    rewrite Hhooks, Hpush. reflexivity.
  - intros event command Hin.
    destruct (pushAll_object _ (injections_distinct p noPause pidPath) _ _ Hpush)
      as (after' & Hafter & Hgroups & _).
    injection Hafter as <-.
    destruct (Hgroups event command Hin) as (old & _ & Hnew).
    exists old. unfold Notions.hookList. rewrite getProp_setProp_same. exact Hnew.
  - intros Hback p' noPause' pidPath' original2 written2 Hsecond.
    pose proof (injectHooks_snapshot _ _ _ _ _ _ _ Hsecond) as Hsnap.
    cbn [readSettings] in Hsnap. rewrite Hback in Hsnap.
    subst original2. split; reflexivity.
Qed.

(** A first session on macOS over the user's settings, a second one, on
    Linux and in no-pause mode, over the file the first left. *)
Lemma restore_after_crash_keeps_stale_hooks_witness :
  exists doc original2 written2,
    injectHooks JsonText.parse Darwin false samplePidPath (Some userSettings)
    = Ok (JObj [("theme", JStr "dark"); ("hooks", JObj [("Stop", JArr [userGroup])])],
          Some (stringify2 doc))
    /\ injectHooks JsonText.parse OtherPlatform true samplePidPath
         (Some (stringify2 doc))
       = Ok (original2, written2)
    /\ restoreHooks original2 = Some (stringify2 doc)
    /\ Notions.hookList "Stop" doc
       = Some (JArr [userGroup; hookGroup (spotifyPauseCmd Darwin samplePidPath)]).
Proof.
  destruct (restore_after_crash_keeps_stale_hooks JsonText.parse Darwin false
              samplePidPath (Some userSettings)
              [("theme", JStr "dark"); ("hooks", JObj [("Stop", JArr [userGroup])])]
              [("Stop", JArr [userGroup])]
              [("Stop", JArr [userGroup;
                              hookGroup (spotifyPauseCmd Darwin samplePidPath)]);
               ("PreToolUse", JArr [hookGroup (spotifyPlayCmd Darwin samplePidPath)]);
               ("Notification",
                JArr [hookGroup (spotifyPauseCmd Darwin samplePidPath)])]
              eq_refl eq_refl eq_refl)
    as (Hfirst & Hlisted & Hlater).
  eexists.
  destruct (injectHooks JsonText.parse OtherPlatform true samplePidPath
              (Some (stringify2
                       (JObj (setProp "hooks"
                                (JObj [("Stop",
                                        JArr [userGroup;
                                              hookGroup
                                                (spotifyPauseCmd Darwin samplePidPath)]);
                                       ("PreToolUse",
                                        JArr [hookGroup
                                                (spotifyPlayCmd Darwin samplePidPath)]);
                                       ("Notification",
                                        JArr [hookGroup
                                                (spotifyPauseCmd Darwin samplePidPath)])])
                                [("theme", JStr "dark");
                                 ("hooks", JObj [("Stop", JArr [userGroup])])])))))
    as [[original2 written2]|m] eqn:Hsecond; [|vm_compute in Hsecond; discriminate].
  exists original2, written2.
  split; [exact Hfirst|]. split; [exact Hsecond|].
  destruct (Hlater ltac:(vm_compute; reflexivity) _ _ _ _ _ Hsecond) as (_ & Hrestore).
  split; [exact Hrestore|].
  reflexivity.
Defined.

End HookInstall.

(** ** The desktop player *)

Section DesktopPlayer.
Import SpotifyNative NativeControl PlayerNotions Json ClaudeWrapper HookShell.
Local Open Scope string_scope.

Lemma playSpotifyNative_ran (p : platform) (execAsync : shell) :
  playSpotifyNative p execAsync = Ok (ran (execAsync (Notions.playPayload p))).
Proof.
  unfold playSpotifyNative, Notions.playPayload.
  destruct p; cbv [is_darwin is_win32];
    match goal with
    | |- context [execAsync ?c] => destruct (execAsync c); reflexivity
    end.
Qed.

Lemma pauseSpotifyNative_ran (p : platform) (execAsync : shell) :
  pauseSpotifyNative p execAsync = Ok (ran (execAsync (Notions.pausePayload p))).
Proof.
  unfold pauseSpotifyNative, Notions.pausePayload.
  destruct p; cbv [is_darwin is_win32];
    match goal with
    | |- context [execAsync ?c] => destruct (execAsync c); reflexivity
    end.
Qed.

(** X9.  [playSpotifyNative] and [pauseSpotifyNative] never throw: each
    runs one command and answers whether it ended without an error.  That
    command is, on every platform, the very text the injected hook command
    runs behind its guard, so a hook and the wrapper drive the player the
    same way. *)
Theorem hook_payload_is_native_command
        (p : platform) (pidPath : string) (execAsync : shell) :
  spotifyPlayCmd p pidPath
  = render {| idFile := pidPath; payload := Notions.playPayload p |}
  /\ spotifyPauseCmd p pidPath
     = render {| idFile := pidPath; payload := Notions.pausePayload p |}
  /\ playSpotifyNative p execAsync = Ok (ran (execAsync (Notions.playPayload p)))
  /\ pauseSpotifyNative p execAsync = Ok (ran (execAsync (Notions.pausePayload p))).
Proof.
  split; [apply spotifyPlayCmd_guarded|].
  split; [apply spotifyPauseCmd_guarded|].
  split; [apply playSpotifyNative_ran | apply pauseSpotifyNative_ran].
Qed.

Lemma trimStart_empty (s : jsstring) :
  trimStart s = [] <-> hasText s = false.
Proof.
  unfold hasText. induction s as [|c rest IH]; simpl; [tauto|].
  destruct (isWhiteSpace c); simpl; [exact IH|].
  split; discriminate.
Qed.

Lemma hasText_app (a b : jsstring) : hasText (a ++ b)%list = hasText a || hasText b.
Proof. unfold hasText. apply existsb_app. Qed.

Lemma hasText_rev (s : jsstring) : hasText (rev s) = hasText s.
Proof.
  induction s as [|c rest IH]; [reflexivity|].
  simpl rev. rewrite hasText_app, IH. unfold hasText. simpl.
  destruct (negb (isWhiteSpace c)), (existsb _ rest); reflexivity.
Qed.

Lemma hasText_trimStart (s : jsstring) : hasText (trimStart s) = hasText s.
Proof.
  unfold hasText. induction s as [|c rest IH]; [reflexivity|].
  simpl. destruct (isWhiteSpace c) eqn:E; simpl; [exact IH|].
  rewrite E. reflexivity.
Qed.

(** Trimming leaves nothing exactly of a string that is all white space. *)
Lemma trim_empty (s : jsstring) : trim s = [] <-> hasText s = false.
Proof.
  unfold trim, trimEnd.
  rewrite <- (hasText_trimStart s), <- (hasText_rev (trimStart s)).
  rewrite <- trimStart_empty.
  split; intros H.
  - apply (f_equal (@rev Z)) in H. rewrite rev_involutive in H. exact H.
  - rewrite H. reflexivity.
Qed.

Lemma sameString_eq (a b : jsstring) : sameString a b = true <-> a = b.
Proof.
  revert b. induction a as [|x a IH]; intros [|y b]; simpl;
    try (split; [discriminate | discriminate]); [tauto|].
  rewrite andb_true_iff, Z.eqb_eq, IH. split.
  - intros [-> ->]; reflexivity.
  - intros H; injection H as -> ->; auto.
Qed.

Lemma indexOf_found (s sub : jsstring) :
  indexOf s sub <> -1 -> exists pre post, s = (pre ++ sub ++ post)%list.
Proof.
  induction s as [|c s IH].
  - rewrite indexOf_nil. destruct (startsWith [] sub) eqn:E; [|congruence].
    intros _. destruct (startsWith_occurs _ _ E) as (post & Hpost).
    exists [], post. exact Hpost.
  - rewrite indexOf_cons. destruct (startsWith (c :: s) sub) eqn:E.
    + intros _. destruct (startsWith_occurs _ _ E) as (post & Hpost).
      exists [], post. exact Hpost.
    + destruct (indexOf s sub =? -1)%Z eqn:En; [congruence|].
      intros _. apply Z.eqb_neq in En.
      destruct (IH En) as (pre & post & ->).
      exists (c :: pre), post. reflexivity.
Qed.

(** X10.  [isSpotifyRunning] never throws, and says no when its probe
    fails.  When the probe ends it says yes exactly if: on macOS the output,
    trimmed, is the word [true]; on Windows the output has [Spotify.exe]
    somewhere in it; elsewhere [pgrep] printed something that is not white
    space. *)
Theorem isSpotifyRunning_answer (p : platform) :
  exists command,
    forall execAsync : shell,
      (forall m, execAsync command = Throw m -> isSpotifyRunning p execAsync = Ok false)
      /\ (forall stdout,
            execAsync command = Ok stdout ->
            exists b,
              isSpotifyRunning p execAsync = Ok b
              /\ (b = true <->
                  match p with
                  | Darwin => trim stdout = units "true"
                  | Win32 => exists pre post, stdout = pre ++ units "Spotify.exe" ++ post
                  | OtherPlatform => hasText stdout = true
                  end)%list).
Proof.
  unfold isSpotifyRunning.
  destruct p; cbv [is_darwin is_win32]; eexists; intros execAsync;
    (split; [intros m Hm; rewrite Hm; reflexivity
            | intros stdout Hout; rewrite Hout; cbn [bind try_catch]]).
  - exists (sameString (trim stdout) (units "true")).
    split; [reflexivity | apply sameString_eq].
  - exists (includesText stdout (units "Spotify.exe")).
    split; [reflexivity|].
    unfold includesText. rewrite negb_true_iff, Z.eqb_neq.
    pose proof (indexOf_absent stdout (units "Spotify.exe")) as Habs.
    split.
    + intros Hfound.
      exact (indexOf_found stdout (units "Spotify.exe") Hfound).
    + intros (pre & post & ->) Hnone.
      exact (proj1 Habs Hnone pre post eq_refl).
  - exists (Z.of_nat (List.length (trim stdout)) >? 0)%Z.
    split; [reflexivity|].
    pose proof (trim_empty stdout) as Hempty.
    destruct (trim stdout) as [|c rest] eqn:E.
    + simpl. replace (hasText stdout) with false
        by (symmetry; apply Hempty; reflexivity).
      split; discriminate.
    + destruct (hasText stdout) eqn:Ht.
      * split; [reflexivity|]. intros _.
        apply Z.gtb_lt. simpl List.length. lia.
      * exfalso. assert (c :: rest = []) by (apply Hempty; reflexivity).
        discriminate.
Qed.

(** [pgrep] printing a pid, printing nothing, and failing. *)
Lemma isSpotifyRunning_answer_witness :
  isSpotifyRunning OtherPlatform (fun _ => Ok [52; 50; 52; 50; 10]) = Ok true
  /\ isSpotifyRunning OtherPlatform (fun _ => Ok [10]) = Ok false
  /\ isSpotifyRunning OtherPlatform (fun _ => Throw "exit status 1") = Ok false.
Proof.
  destruct (isSpotifyRunning_answer OtherPlatform) as (command & H).
  split; [|split].
  - destruct (H (fun _ => Ok [52; 50; 52; 50; 10])) as (_ & Hok).
    destruct (Hok _ eq_refl) as (b & Hb & Hiff).
    rewrite Hb. f_equal. apply Hiff. reflexivity.
  - destruct (H (fun _ => Ok [10])) as (_ & Hok).
    destruct (Hok _ eq_refl) as (b & Hb & Hiff).
    rewrite Hb. f_equal. destruct b; [|reflexivity].
    assert (Hno : hasText [10] = true) by (apply Hiff; reflexivity).
    vm_compute in Hno. discriminate.
  - destruct (H (fun _ => Throw "exit status 1")) as (Hfail & _).
    exact (Hfail _ eq_refl).
Defined.

End DesktopPlayer.

(** ** The remote player *)

Section RemotePlayer.
Import Spotify Account PlayerNotions.

Ltac split_ifs :=
  repeat match goal with
         | |- context [if ?b then _ else _] => destruct b eqn:?
         end.

Lemma notString_false (s : option string) :
  notString s = false -> exists t, s = Some t /\ t <> EmptyString.
Proof.
  destruct s as [[|c t]|]; simpl; try discriminate.
  intros _. exists (String c t). split; [reflexivity | discriminate].
Qed.

(** What a successful [getValidAccessToken] leaves in the config file. *)
Lemma getValidAccessToken_stored
      (file : store) (now nowAfter : Z) (post : tokenEndpoint)
      (tok : string) (file' : store) :
  getValidAccessToken file now nowAfter post = (Ok tok, file') ->
  accessToken (loadConfig file') = Some tok
  /\ refreshToken (loadConfig file') = refreshToken (loadConfig file)
  /\ notString (refreshToken (loadConfig file)) = false.
Proof.
  unfold getValidAccessToken, refreshAccessToken. cbv zeta.
  destruct (notString (accessToken (loadConfig file))) eqn:Ha; simpl;
    [intros H; discriminate|].
  destruct (notString (refreshToken (loadConfig file))) eqn:Hr; simpl;
    [intros H; discriminate|].
  destruct (notNumber (expiresAt (loadConfig file))
            || expiresSoon (expiresAt (loadConfig file)) now).
  - destruct (refreshToken (loadConfig file)) as [rt|] eqn:Hrt; [|discriminate].
    destruct (post rt) as [[access expires]|m]; intros H; [|discriminate].
    injection H as <- <-. simpl. auto.
  - destruct (accessToken (loadConfig file)) as [a|] eqn:Hacc; intros H;
      [|discriminate].
    injection H as <- <-. auto.
Qed.

(** X11.  A token that [getValidAccessToken] has returned is returned
    again, with the config file left as it is and whatever the token endpoint
    would answer, by every later call made no later than five minutes before
    the stored expiry.  (The token is taken to be a non-empty string and the
    stored expiry not to be 0: an empty token reads as not authenticated, an
    expiry of 0 as no expiry.) *)
Theorem valid_token_reused
        (file : store) (now nowAfter : Z) (post : tokenEndpoint)
        (tok : string) (file' : store) :
  getValidAccessToken file now nowAfter post = (Ok tok, file') ->
  tok <> EmptyString ->
  forall (e later laterAfter : Z) (post' : tokenEndpoint),
    expiresAt (loadConfig file') = Some e -> e <> 0 ->
    later + 300000 <= e ->
    getValidAccessToken file' later laterAfter post' = (Ok tok, file').
Proof.
  intros Hfirst Htok e later laterAfter post' He Hnz Hle.
  destruct (getValidAccessToken_stored _ _ _ _ _ _ Hfirst) as (Hacc & Href & Hr).
  unfold getValidAccessToken. cbv zeta.
  rewrite Hacc, Href, Hr, He, (notString_present tok Htok).
  simpl.
  replace (e =? 0) with false by (symmetry; apply Z.eqb_neq; exact Hnz).
  replace (e <? later + 300000) with false by (symmetry; apply Z.ltb_ge; lia).
  reflexivity.
Qed.

(** A refresh at 1000500 grants an hour; a call fifty minutes later. *)
Lemma valid_token_reused_witness :
  getValidAccessToken
    (snd (getValidAccessToken staleFile 1000000 1000500 grantingEndpoint))
    4000000 4000500 (fun _ => Throw "offline"%string)
  = (Ok "new"%string,
     snd (getValidAccessToken staleFile 1000000 1000500 grantingEndpoint)).
Proof.
  apply (valid_token_reused staleFile 1000000 1000500 grantingEndpoint "new"%string
           (snd (getValidAccessToken staleFile 1000000 1000500 grantingEndpoint))
           eq_refl ltac:(discriminate)
           (1000500 + 3600 * 1000) 4000000 4000500 (fun _ => Throw "offline"%string)
           eq_refl ltac:(discriminate) ltac:(vm_compute; discriminate)).
Defined.

Lemma playSpotify_file (file : store) (now nowAfter : Z)
      (post : tokenEndpoint) (put : playerApi) :
  configFile (playSpotify file now nowAfter post put)
  = snd (getValidAccessToken file now nowAfter post).
Proof.
  unfold playSpotify.
  destruct (getValidAccessToken file now nowAfter post) as [[tok|m] file']; simpl;
    [|reflexivity].
  destruct (put (playUrl, tok)); split_ifs; reflexivity.
Qed.

Lemma pauseSpotify_file (file : store) (now nowAfter : Z)
      (post : tokenEndpoint) (put : playerApi) :
  configFile (pauseSpotify file now nowAfter post put)
  = snd (getValidAccessToken file now nowAfter post).
Proof.
  unfold pauseSpotify.
  destruct (getValidAccessToken file now nowAfter post) as [[tok|m] file']; simpl;
    [|reflexivity].
  destruct (put (pauseUrl, tok)); split_ifs; reflexivity.
Qed.

Lemma getValidAccessToken_refreshToken
      (file : store) (now nowAfter : Z) (post : tokenEndpoint) :
  refreshToken (loadConfig (snd (getValidAccessToken file now nowAfter post)))
  = refreshToken (loadConfig file).
Proof.
  unfold getValidAccessToken, refreshAccessToken. cbv zeta.
  destruct (notString (accessToken (loadConfig file))
            || notString (refreshToken (loadConfig file))); [reflexivity|].
  destruct (notNumber (expiresAt (loadConfig file))
            || expiresSoon (expiresAt (loadConfig file)) now).
  - destruct (notString (refreshToken (loadConfig file))); [reflexivity|].
    destruct (refreshToken (loadConfig file)) as [rt|] eqn:Hrt; [|exact Hrt].
    destruct (post rt) as [[access expires]|m]; [reflexivity | exact Hrt].
  - destruct (accessToken (loadConfig file)); reflexivity.
Qed.

(** X12.  No playback call ever changes the stored refresh token: whether
    it refreshes the access token or not, succeeds or throws, the refresh
    token in the config file afterwards is the one that was there before. *)
Theorem refresh_token_is_kept
        (file : store) (now nowAfter : Z) (post : tokenEndpoint) (put : playerApi) :
  refreshToken (loadConfig (configFile (playSpotify file now nowAfter post put)))
  = refreshToken (loadConfig file)
  /\ refreshToken (loadConfig (configFile (pauseSpotify file now nowAfter post put)))
     = refreshToken (loadConfig file).
Proof.
  rewrite playSpotify_file, pauseSpotify_file.
  split; apply getValidAccessToken_refreshToken.
Qed.

(** X13.  Once a token is at hand, [playSpotify] and [pauseSpotify] send
    one request each and return normally on the same answers: success, 404
    and 403; on any other answer, and when no answer comes, they throw.
    [playSpotify] prints a warning exactly on 404 and 403; [pauseSpotify]
    never prints one. *)
Theorem playback_soft_failures
        (file : store) (now nowAfter : Z) (post : tokenEndpoint) (put : playerApi)
        (tok : string) (file' : store) :
  getValidAccessToken file now nowAfter post = (Ok tok, file') ->
  sent (playSpotify file now nowAfter post put) = [(playUrl, tok)]
  /\ sent (pauseSpotify file now nowAfter post put) = [(pauseUrl, tok)]
  /\ (returned (playSpotify file now nowAfter post put) = Ok tt
      <-> put (playUrl, tok) = Http2xx \/ put (playUrl, tok) = HttpStatus 404
          \/ put (playUrl, tok) = HttpStatus 403)
  /\ (returned (pauseSpotify file now nowAfter post put) = Ok tt
      <-> put (pauseUrl, tok) = Http2xx \/ put (pauseUrl, tok) = HttpStatus 404
          \/ put (pauseUrl, tok) = HttpStatus 403)
  /\ (warned (playSpotify file now nowAfter post put) <> []
      <-> put (playUrl, tok) = HttpStatus 404 \/ put (playUrl, tok) = HttpStatus 403)
  /\ warned (pauseSpotify file now nowAfter post put) = [].
Proof.
  intros Htok. unfold playSpotify, pauseSpotify. rewrite Htok.
  assert (Hcode : forall r (status : Z),
             r = HttpStatus status ->
             ((status =? 404) = true <-> r = HttpStatus 404)
             /\ ((status =? 403) = true <-> r = HttpStatus 403)).
  { intros r status ->. rewrite !Z.eqb_eq.
    split; split; intros H; try (injection H as ->); subst; reflexivity. }
  split; [destruct (put (playUrl, tok)); split_ifs; reflexivity|].
  split; [destruct (put (pauseUrl, tok)); split_ifs; reflexivity|].
  split; [|split; [|split]].
  - destruct (put (playUrl, tok)) as [|status|] eqn:E.
    + simpl. tauto.
    + destruct (Hcode _ status eq_refl) as (H404 & H403).
      destruct (status =? 404) eqn:E4; [simpl; split; [intros _|reflexivity];
                                        right; left; apply H404; reflexivity|].
      destruct (status =? 403) eqn:E3; [simpl; split; [intros _|reflexivity];
                                        right; right; apply H403; reflexivity|].
      simpl. split; [discriminate|].
      intros [H | [H | H]]; [discriminate | apply H404 in H | apply H403 in H];
        discriminate.
    + simpl. split; [discriminate|]. intros [H | [H | H]]; discriminate.
  - destruct (put (pauseUrl, tok)) as [|status|] eqn:E.
    + simpl. tauto.
    + destruct (Hcode _ status eq_refl) as (H404 & H403).
      destruct (status =? 404) eqn:E4; [simpl; split; [intros _|reflexivity];
                                        right; left; apply H404; reflexivity|].
      destruct (status =? 403) eqn:E3; [simpl; split; [intros _|reflexivity];
                                        right; right; apply H403; reflexivity|].
      simpl. split; [discriminate|].
      intros [H | [H | H]]; [discriminate | apply H404 in H | apply H403 in H];
        discriminate.
    + simpl. split; [discriminate|]. intros [H | [H | H]]; discriminate.
  - destruct (put (playUrl, tok)) as [|status|] eqn:E.
    + simpl. split; [congruence|]. intros [H | H]; discriminate.
    + destruct (Hcode _ status eq_refl) as (H404 & H403).
      destruct (status =? 404) eqn:E4; [simpl; split; [intros _|discriminate];
                                        left; apply H404; reflexivity|].
      destruct (status =? 403) eqn:E3; [simpl; split; [intros _|discriminate];
                                        right; apply H403; reflexivity|].
      simpl. split; [congruence|].
      intros [H | H]; [apply H404 in H | apply H403 in H]; discriminate.
    + simpl. split; [congruence|]. intros [H | H]; discriminate.
  - destruct (put (pauseUrl, tok)); split_ifs; reflexivity.
Qed.

(** No active device: the API answers 404 to every request. *)
Lemma playback_soft_failures_witness :
  returned (playSpotify freshFile 1000000 1000500 grantingEndpoint
              (fun _ => HttpStatus 404)) = Ok tt
  /\ warned (playSpotify freshFile 1000000 1000500 grantingEndpoint
               (fun _ => HttpStatus 404)) <> []
  /\ returned (pauseSpotify freshFile 1000000 1000500 grantingEndpoint
                 (fun _ => HttpStatus 404)) = Ok tt
  /\ warned (pauseSpotify freshFile 1000000 1000500 grantingEndpoint
               (fun _ => HttpStatus 404)) = [].
Proof.
  destruct (playback_soft_failures freshFile 1000000 1000500 grantingEndpoint
              (fun _ => HttpStatus 404) "old"%string freshFile eq_refl)
    as (_ & _ & Hplay & Hpause & Hwarn & Hquiet).
  split; [apply Hplay; right; left; reflexivity|].
  split; [apply Hwarn; left; reflexivity|].
  split; [apply Hpause; right; left; reflexivity | exact Hquiet].
Defined.

(** X14.  Logging in and out.  After a successful [exchangeCodeForToken]
    with non-empty tokens, a playback call made no later than five minutes
    before the expiry just stored goes out with the new access token, asks
    nothing of the token endpoint and leaves the config file as the exchange
    wrote it; a failed exchange leaves the config file as it was.  After
    [clearConfig] every playback call throws the not-authenticated error
    without sending anything, whatever was stored before. *)
Theorem login_then_logout
        (code : string) (now : Z) (exchange : codeEndpoint) (file : store) :
  (forall access refresh expires_in later laterAfter post put,
      exchange code = Ok (access, refresh, expires_in) ->
      access <> EmptyString -> refresh <> EmptyString ->
      now + expires_in * 1000 <> 0 ->
      later + 300000 <= now + expires_in * 1000 ->
      fst (exchangeCodeForToken code now exchange file) = Ok tt
      /\ sent (playSpotify (snd (exchangeCodeForToken code now exchange file))
                 later laterAfter post put) = [(playUrl, access)]
      /\ sent (pauseSpotify (snd (exchangeCodeForToken code now exchange file))
                 later laterAfter post put) = [(pauseUrl, access)]
      /\ configFile (playSpotify (snd (exchangeCodeForToken code now exchange file))
                       later laterAfter post put)
         = snd (exchangeCodeForToken code now exchange file))
  /\ (forall m, exchange code = Throw m ->
                exchangeCodeForToken code now exchange file = (Throw m, file))
  /\ (forall later laterAfter post put,
        sent (playSpotify (clearConfig (snd (exchangeCodeForToken code now exchange file)))
                later laterAfter post put) = []
        /\ returned (playSpotify
                       (clearConfig (snd (exchangeCodeForToken code now exchange file)))
                       later laterAfter post put)
           = Throw "Not authenticated. Please run: tune-in auth"%string
        /\ sent (pauseSpotify (clearConfig (snd (exchangeCodeForToken code now exchange file)))
                   later laterAfter post put) = []
        /\ returned (pauseSpotify
                       (clearConfig (snd (exchangeCodeForToken code now exchange file)))
                       later laterAfter post put)
           = Throw "Not authenticated. Please run: tune-in auth"%string).
Proof.
  split; [|split].
  - intros access refresh expires_in later laterAfter post put Hex Ha Hr Hnz Hle.
    unfold exchangeCodeForToken. rewrite Hex. cbv zeta. cbn [fst snd].
    split; [reflexivity|].
    assert (Hval : getValidAccessToken
                     (saveConfig {| accessToken := Some access;
                                    refreshToken := Some refresh;
                                    expiresAt := Some (now + expires_in * 1000) |})
                     later laterAfter post
                   = (Ok access,
                      saveConfig {| accessToken := Some access;
                                    refreshToken := Some refresh;
                                    expiresAt := Some (now + expires_in * 1000) |})).
    { unfold getValidAccessToken. cbv zeta.
      cbn [loadConfig saveConfig accessToken refreshToken expiresAt].
      rewrite (notString_present access Ha), (notString_present refresh Hr).
      cbn [orb notNumber expiresSoon]. change (5 * 60 * 1000) with 300000.
      replace (now + expires_in * 1000 =? 0) with false
        by (symmetry; apply Z.eqb_neq; exact Hnz).
      replace (now + expires_in * 1000 <? later + 300000) with false
        by (symmetry; apply Z.ltb_ge; lia).
      reflexivity. }
    rewrite playSpotify_file.
    unfold playSpotify, pauseSpotify. rewrite Hval.
    split; [destruct (put (playUrl, access)); split_ifs; reflexivity|].
    split; [destruct (put (pauseUrl, access)); split_ifs; reflexivity|].
    reflexivity.
  - intros m Hex. unfold exchangeCodeForToken. rewrite Hex. reflexivity.
  - intros later laterAfter post put.
    assert (Hgone : clearConfig (snd (exchangeCodeForToken code now exchange file))
                    = None).
    { destruct (snd (exchangeCodeForToken code now exchange file)); reflexivity. }
    rewrite Hgone. auto.
Qed.

(** A login at 1000000 that grants an hour, a call half an hour later. *)
Lemma login_then_logout_witness :
  sent (playSpotify
          (snd (exchangeCodeForToken "code"%string 1000000
                  (fun _ => Ok ("access"%string, "refresh"%string, 3600)) None))
          2800000 2800500 grantingEndpoint acceptingApi)
  = [(playUrl, "access"%string)]
  /\ exchangeCodeForToken "code"%string 1000000
       (fun _ => Throw "invalid_grant"%string) freshFile
     = (Throw "invalid_grant"%string, freshFile).
Proof.
  destruct (login_then_logout "code"%string 1000000
              (fun _ => Ok ("access"%string, "refresh"%string, 3600)) None)
    as (Hin & _ & _).
  destruct (Hin "access"%string "refresh"%string 3600 2800000 2800500
              grantingEndpoint acceptingApi eq_refl
              ltac:(discriminate) ltac:(discriminate)
              ltac:(vm_compute; discriminate) ltac:(vm_compute; discriminate))
    as (_ & Hsent & _).
  split; [exact Hsent|].
  destruct (login_then_logout "code"%string 1000000
              (fun _ => Throw "invalid_grant"%string) freshFile)
    as (_ & Hfail & _).
  exact (Hfail "invalid_grant"%string eq_refl).
Defined.

End RemotePlayer.

(** ** The callback page *)

Section CallbackPage.
Import SpotifyNative NativeControl AuthCallback PageNotions.
Local Open Scope string_scope.

Lemma flat_map_twice {A B C : Type} (f : A -> list B) (g : B -> list C) (l : list A) :
  flat_map g (flat_map f l) = flat_map (fun x => flat_map g (f x)) l.
Proof.
  induction l as [|x l IH]; [reflexivity|].
  simpl. rewrite flat_map_app, IH. reflexivity.
Qed.

(** The four replacements on a single code unit. *)
Lemma safeError_unit (c : Z) : safeError [c] = entity c.
Proof.
  unfold safeError, entity, replaceAll. cbn [flat_map]. rewrite !app_nil_r.
  destruct (c =? 38)%Z eqn:E38; [vm_compute; reflexivity|].
  cbn [flat_map]. rewrite !app_nil_r.
  destruct (c =? 60)%Z eqn:E60; [vm_compute; reflexivity|].
  cbn [flat_map]. rewrite !app_nil_r.
  destruct (c =? 62)%Z eqn:E62; [vm_compute; reflexivity|].
  cbn [flat_map]. rewrite !app_nil_r.
  destruct (c =? 34)%Z eqn:E34; reflexivity.
Qed.

Lemma safeError_app (a b : jsstring) :
  safeError (a ++ b)%list = (safeError a ++ safeError b)%list.
Proof. unfold safeError, replaceAll. rewrite !flat_map_app. reflexivity. Qed.

(** X15.  The four chained replacements of [safeError] act as one pass
    that puts a character reference for each [&], [<], [>] and double quote
    and leaves every other code unit alone: nothing is escaped twice.  The
    text that goes into the page has no [<], [>] or double quote left in it,
    and a string with none of the four characters is left as it is. *)
Theorem safeError_escapes (error : jsstring) :
  safeError error = flat_map entity error
  /\ (forall c, In c (safeError error) -> isMarkup c = false)
  /\ ((forall c, In c error -> isMarkup c = false /\ c <> 38) ->
      safeError error = error).
Proof.
  assert (Hpass : forall s, safeError s = flat_map entity s).
  { induction s as [|c s IH]; [reflexivity|].
    change (c :: s) with ([c] ++ s)%list.
    rewrite safeError_app, safeError_unit, IH. reflexivity. }
  split; [apply Hpass|]. split.
  - intros c Hin. rewrite Hpass in Hin.
    apply in_flat_map in Hin as (x & _ & Hc).
    unfold entity in Hc.
    destruct (x =? 38)%Z; [vm_compute in Hc; intuition (subst; reflexivity)|].
    destruct (x =? 60)%Z eqn:E60; [vm_compute in Hc; intuition (subst; reflexivity)|].
    destruct (x =? 62)%Z eqn:E62; [vm_compute in Hc; intuition (subst; reflexivity)|].
    destruct (x =? 34)%Z eqn:E34; [vm_compute in Hc; intuition (subst; reflexivity)|].
    destruct Hc as [<- | []]. unfold isMarkup. rewrite E60, E62, E34. reflexivity.
  - intros Hplain. rewrite Hpass.
    induction error as [|c s IH]; [reflexivity|].
    simpl. rewrite IH by (intros x Hx; apply Hplain; right; exact Hx).
    destruct (Hplain c (or_introl eq_refl)) as (Hm & Hamp).
    unfold isMarkup in Hm. apply orb_false_iff in Hm as [Hm H34].
    apply orb_false_iff in Hm as [H60 H62].
    unfold entity. rewrite H60, H62, H34.
    replace (c =? 38)%Z with false by (symmetry; apply Z.eqb_neq; exact Hamp).
    reflexivity.
Qed.

(** An error text with a tag and an ampersand in it, and a plain one. *)
Lemma safeError_escapes_witness :
  safeError (units "<b>&") = units "&lt;b&gt;&amp;"
  /\ safeError (units "access_denied") = units "access_denied".
Proof.
  split.
  - rewrite (proj1 (safeError_escapes (units "<b>&"))). vm_compute. reflexivity.
  - apply (proj2 (proj2 (safeError_escapes (units "access_denied")))).
    intros c Hin. vm_compute in Hin.
    repeat (destruct Hin as [<- | Hin]; [split; [reflexivity | discriminate]|]).
    contradiction.
Defined.

End CallbackPage.

(** ** The daemon *)

Section DaemonCommands.
Import SpotifyNative NativeControl Spotify Daemon DaemonNotions DaemonSamples PlayerNotions.
Local Open Scope string_scope.

(** One connection to a daemon in native mode. *)
Lemma onData_native (h : Host) (t : Times) (data : jsstring) (d : Daemon) :
  mode (state d) = Native ->
  mode (state (fst (onData h t data d))) = Native
  /\ tokensFile (fst (onData h t data d)) = tokensFile d
  /\ requests (fst (onData h t data d)) = requests d
  /\ errors (fst (onData h t data d)) = errors d
  /\ playing (state (fst (onData h t data d))) = asked (playing (state d)) data
  /\ calls (fst (onData h t data d))
     = (calls d
        ++ if Bool.eqb (playing (state d)) (asked (playing (state d)) data) then []
           else [if playing (state d) then NativePause else NativePlay])%list.
Proof.
  intros Hmode. unfold onData, asked. cbv zeta.
  destruct (sameString (trim data) (units "start")).
  - cbn [fst]. unfold handleStart.
    destruct (playing (state d)) eqn:Hp;
      [cbn [Bool.eqb]; rewrite app_nil_r; auto 10|].
    rewrite Hmode. unfold callNative. rewrite playSpotifyNative_ran.
    cbn. auto 10.
  - destruct (sameString (trim data) (units "stop")).
    + cbn [fst]. unfold handleStop.
      destruct (playing (state d)) eqn:Hp;
        [|cbn [negb Bool.eqb]; rewrite app_nil_r; auto 10].
      cbn [negb]. rewrite Hmode. unfold callNative. rewrite pauseSpotifyNative_ran.
      cbn. auto 10.
    + destruct (sameString (trim data) (units "status")); cbn [fst];
        rewrite Bool.eqb_reflx, app_nil_r; auto 10.
Qed.

Lemma serve_cons (h : Host) (req : Times * jsstring) (reqs : list (Times * jsstring))
      (d : Daemon) :
  serve h (req :: reqs) d = serve h reqs (fst (onData h (fst req) (snd req) d)).
Proof. reflexivity. Qed.

Lemma isSpotifyRunning_returns (p : platform) (execAsync : shell) :
  exists b, isSpotifyRunning p execAsync = Ok b.
Proof.
  unfold isSpotifyRunning.
  destruct p; cbv [is_darwin is_win32];
    match goal with
    | |- context [execAsync ?c] => destruct (execAsync c); cbn; eauto
    end.
Qed.

(** X16.  A daemon in native mode, serving one connection after the
    other on any host: its playing flag is always what the last [start] or
    [stop] command asked for, whether or not the player commands succeed;
    the calls it makes to the desktop player take turns, a play only when
    the flag is off and a pause only when it is on, so a repeated command
    makes no call; it never sends a request to the remote API, never touches
    the config file and never logs an error. *)
Theorem native_daemon_follows_commands
        (h : Host) (reqs : list (Times * jsstring)) :
  forall d,
    mode (state d) = Native ->
    mode (state (serve h reqs d)) = Native
    /\ playing (state (serve h reqs d)) = lastAsked (playing (state d)) reqs
    /\ (exists made,
           calls (serve h reqs d) = (calls d ++ made)%list
           /\ alternates (playing (state d)) made = true)
    /\ requests (serve h reqs d) = requests d
    /\ tokensFile (serve h reqs d) = tokensFile d
    /\ errors (serve h reqs d) = errors d.
Proof.
  induction reqs as [|[t data] reqs IH]; intros d Hmode.
  - cbn. split; [exact Hmode|]. split; [reflexivity|].
    split; [exists []; rewrite app_nil_r; auto | auto].
  - rewrite serve_cons. cbn [fst snd].
    destruct (onData_native h t data d Hmode) as (Hm & Hfile & Hreq & Herr & Hflag & Hcalls).
    destruct (IH _ Hm) as (Hm' & Hflag' & (made & Hmade & Halt) & Hreq' & Hfile' & Herr').
    rewrite Hm', Hflag', Hreq', Hfile', Herr', Hflag, Hreq, Hfile, Herr.
    repeat split; try reflexivity.
    rewrite Hmade, Hcalls, <- app_assoc.
    eexists. split; [reflexivity|].
    rewrite Hflag in Halt.
    destruct (playing (state d)), (asked _ data); cbn; exact Halt.
Qed.

(** Start twice, stop, an unknown command and start again, on a machine
    where every command fails. *)
Lemma native_daemon_follows_commands_witness :
  playing (state (serve deadHost
                    [(noon, startLine); (noon, startLine); (noon, stopLine);
                     (noon, units "play"); (noon, units "start")]
                    (create 0 None))) = true
  /\ calls (serve deadHost
              [(noon, startLine); (noon, startLine); (noon, stopLine);
               (noon, units "play"); (noon, units "start")]
              (create 0 None)) = [NativePlay; NativePause; NativePlay]
  /\ errors (serve deadHost
               [(noon, startLine); (noon, startLine); (noon, stopLine);
                (noon, units "play"); (noon, units "start")]
               (create 0 None)) = [].
Proof.
  destruct (native_daemon_follows_commands deadHost
              [(noon, startLine); (noon, startLine); (noon, stopLine);
               (noon, units "play"); (noon, units "start")]
              (create 0 None) eq_refl)
    as (_ & Hflag & _ & _ & _ & Herr).
  split; [exact Hflag|]. split; [reflexivity | exact Herr].
Defined.

(** X17.  A start that fails.  In web-api mode a [playSpotify] that throws
    leaves the flag off and logs the error, so the next [start] tries again.
    In native mode the answer of the player command is dropped: whether the
    command fails or not, the flag is set, nothing is logged, and the next
    [start] makes no call. *)
Theorem failed_start_by_mode (h : Host) (t t' : Times) (d : Daemon) :
  playing (state d) = false ->
  (mode (state d) = WebApi ->
   forall m,
     returned (playSpotify (tokensFile d) (checked t) (refreshed t) (tokens h) (player h))
     = Throw m ->
     playing (state (handleStart h t d)) = false
     /\ errors (handleStart h t d)
        = (errors d ++ [("Failed to start music: " ++ m)%string])%list
     /\ calls (handleStart h t' (handleStart h t d))
        = (calls d ++ [RemotePlay; RemotePlay])%list)
  /\ (mode (state d) = Native ->
      playing (state (handleStart h t d)) = true
      /\ errors (handleStart h t d) = errors d
      /\ calls (handleStart h t' (handleStart h t d)) = (calls d ++ [NativePlay])%list).
Proof.
  intros Hoff. split.
  - intros Hmode m Hthrow.
    assert (Hone : handleStart h t d
                   = logError ("Failed to start music: " ++ m)
                       (snd (callRemote RemotePlay
                               (playSpotify (tokensFile d) (checked t) (refreshed t)
                                  (tokens h) (player h)) d))).
    { unfold handleStart. rewrite Hoff, Hmode. unfold callRemote.
      rewrite Hthrow. reflexivity. }
    rewrite Hone. split; [exact Hoff|]. split; [reflexivity|].
    unfold handleStart at 1.
    cbn [logError callRemote snd state playing mode]. rewrite Hoff, Hmode.
    unfold callRemote.
    match goal with
    | |- context [returned ?o] => destruct (returned o)
    end; cbn; rewrite <- app_assoc; reflexivity.
  - intros Hmode.
    assert (Hone : handleStart h t d
                   = setPlaying true (updated t)
                       (snd (callNative NativePlay (Ok true) d))).
    { unfold handleStart. rewrite Hoff, Hmode. unfold callNative.
      rewrite playSpotifyNative_ran. reflexivity. }
    rewrite Hone. split; [reflexivity|]. split; reflexivity.
Qed.

Lemma failed_start_by_mode_witness :
  playing (state (handleStart deadHost noon (create 0 None))) = true
  /\ calls (handleStart deadHost noon (handleStart deadHost noon (create 0 None)))
     = [NativePlay].
Proof.
  destruct (failed_start_by_mode deadHost noon noon (create 0 None) eq_refl)
    as (_ & Hnative).
  destruct (Hnative eq_refl) as (Hflag & _ & Hcalls).
  split; [exact Hflag | exact Hcalls].
Defined.

Lemma trimStart_idempotent (s : jsstring) : trimStart (trimStart s) = trimStart s.
Proof.
  induction s as [|c s IH]; [reflexivity|].
  simpl. destruct (isWhiteSpace c) eqn:E; [exact IH|].
  simpl. rewrite E. reflexivity.
Qed.

Lemma trimStart_keeps_last (a : jsstring) (c : Z) :
  isWhiteSpace c = false -> exists a', trimStart (a ++ [c])%list = (a' ++ [c])%list.
Proof.
  intros Hc. induction a as [|x a IH]; simpl.
  - rewrite Hc. exists []. reflexivity.
  - destruct (isWhiteSpace x); [exact IH|].
    exists (x :: a). reflexivity.
Qed.

Lemma trimEnd_idempotent (s : jsstring) : trimEnd (trimEnd s) = trimEnd s.
Proof.
  unfold trimEnd. rewrite rev_involutive, trimStart_idempotent. reflexivity.
Qed.

(** Trimming a trimmed string changes nothing. *)
Lemma trim_idempotent (s : jsstring) : trim (trim s) = trim s.
Proof.
  unfold trim.
  destruct (trimStart s) as [|c r] eqn:E; [reflexivity|].
  assert (Hc : isWhiteSpace c = false).
  { destruct (isWhiteSpace c) eqn:Hw; [|reflexivity].
    pose proof (trimStart_idempotent s) as Hi. rewrite E in Hi.
    simpl in Hi. rewrite Hw in Hi.
    assert (Hlen : (List.length (trimStart r) <= List.length r)%nat).
    { clear. induction r as [|x r IH]; simpl; [lia|].
      destruct (isWhiteSpace x); simpl; lia. }
    rewrite Hi in Hlen. simpl in Hlen. lia. }
  assert (Hhead : trimStart (trimEnd (c :: r)) = trimEnd (c :: r)).
  { unfold trimEnd. simpl rev.
    destruct (trimStart_keeps_last (rev r) c Hc) as (a' & Ha).
    rewrite Ha, rev_app_distr. simpl. rewrite Hc. reflexivity. }
  rewrite Hhead. apply trimEnd_idempotent.
Qed.

(** X18.  What a connection gets back.  The reply to [start] and to
    [stop] is [OK] and a newline whether or not the playback call
    succeeded; white space around the command does not matter.  [status]
    is answered with the state as JSON on one line and changes nothing.  Any
    other text gets no reply and changes nothing. *)
Theorem socket_replies (h : Host) (t : Times) (data : jsstring) (d : Daemon) :
  (trim data = units "start" \/ trim data = units "stop" ->
   snd (onData h t data d) = Some ("OK" ++ Json.nl))
  /\ (trim data = units "status" ->
      onData h t data d
      = (d, Some (JsonCompact.stringify (stateJson (state d)) ++ Json.nl)))
  /\ (trim data <> units "start" -> trim data <> units "stop" ->
      trim data <> units "status" ->
      onData h t data d = (d, None))
  /\ onData h t (trim data) d = onData h t data d.
Proof.
  assert (Htest : forall a b, sameString a b = false <-> a <> b).
  { intros a b. rewrite <- sameString_eq. destruct (sameString a b); intuition congruence. }
  split; [|split; [|split]].
  - intros [H | H]; unfold onData; cbv zeta; rewrite H; reflexivity.
  - intros H. unfold onData. cbv zeta. rewrite H. reflexivity.
  - intros H1 H2 H3. unfold onData. cbv zeta.
    rewrite (proj2 (Htest _ _) H1), (proj2 (Htest _ _) H2), (proj2 (Htest _ _) H3).
    reflexivity.
  - unfold onData. cbv zeta. rewrite trim_idempotent. reflexivity.
Qed.

(** A [start] with its newline in web-api mode with the network down, and
    the text [play]. *)
Lemma socket_replies_witness :
  snd (onData deadHost noon startLine
         (setPlaying false 0 (create 0 Samples.freshFile)))
  = Some ("OK" ++ Json.nl)
  /\ onData deadHost noon (units "play") (create 0 None) = (create 0 None, None).
Proof.
  split.
  - apply (proj1 (socket_replies deadHost noon startLine
                    (setPlaying false 0 (create 0 Samples.freshFile)))).
    left. reflexivity.
  - apply (proj1 (proj2 (proj2 (socket_replies deadHost noon (units "play")
                                  (create 0 None)))));
      vm_compute; discriminate.
Defined.



End DaemonCommands.

(** ** Running a command with music *)

Section CommandRunner.
Import SpotifyNative NativeControl Spotify Daemon TuneIn DaemonNotions DaemonSamples.
Import PlayerNotions.
Local Open Scope string_scope.

(** The three ways the first part of [runCommand] can go. *)
Lemma begin_cases (h : Host) (t : Times) (file : store) :
  exists running,
    isSpotifyRunning (os h) (execAsync h) = Ok running
    /\ begin h t file
       = if negb running
            && (notString (accessToken (loadConfig file))
                || notString (refreshToken (loadConfig file)))
         then Ok (Refused 1)
         else if running then
           Ok (Spawned {| useLocalMode := true;
                          musicStarted := ran (execAsync h (Notions.playPayload (os h)));
                          played := [NativePlay]; waiting := []; finished := None |}
                       file [])
         else
           Ok (Spawned {| useLocalMode := false;
                          musicStarted :=
                            ran (returned (playSpotify file (checked t) (refreshed t)
                                             (tokens h) (player h)));
                          played := [RemotePlay]; waiting := []; finished := None |}
                       (configFile (playSpotify file (checked t) (refreshed t)
                                      (tokens h) (player h)))
                       (sent (playSpotify file (checked t) (refreshed t)
                                (tokens h) (player h)))).
Proof.
  destruct (isSpotifyRunning_returns (os h) (execAsync h)) as (running & Hrun).
  exists running. split; [exact Hrun|].
  unfold begin. rewrite Hrun. cbn [bind]. cbv zeta.
  destruct (negb running && _); [reflexivity|].
  destruct running; [|reflexivity].
  rewrite playSpotifyNative_ran. reflexivity.
Qed.

Lemma task_step_cons (e : event) (evs : list event) (k : Task) :
  run (e :: evs) k = run evs (step k e).
Proof. reflexivity. Qed.

(** What every turn of the event loop keeps. *)
Lemma task_step_keeps (k : Task) (e : event) :
  useLocalMode (step k e) = useLocalMode k
  /\ musicStarted (step k e) = musicStarted k
  /\ (exists more,
         waiting (step k e) = (waiting k ++ more)%list
         /\ played (step k e)
            = (played k ++ repeat (pauseCall (useLocalMode k)) (List.length more))%list
         /\ (musicStarted k = false -> more = [])).
Proof.
  assert (Hsame : useLocalMode k = useLocalMode k
                  /\ musicStarted k = musicStarted k
                  /\ (exists more,
                         waiting k = (waiting k ++ more)%list
                         /\ played k
                            = (played k
                               ++ repeat (pauseCall (useLocalMode k)) (List.length more))%list
                         /\ (musicStarted k = false -> more = []))).
  { split; [reflexivity|]. split; [reflexivity|].
    exists []. rewrite !app_nil_r. auto. }
  assert (Hexit : forall code,
             useLocalMode (pauseThenExit code k) = useLocalMode k
             /\ musicStarted (pauseThenExit code k) = musicStarted k
             /\ (exists more,
                    waiting (pauseThenExit code k) = (waiting k ++ more)%list
                    /\ played (pauseThenExit code k)
                       = (played k
                          ++ repeat (pauseCall (useLocalMode k)) (List.length more))%list
                    /\ (musicStarted k = false -> more = []))).
  { intros code. unfold pauseThenExit.
    destruct (musicStarted k) eqn:Hm; cbn [negb useLocalMode musicStarted waiting played].
    - split; [reflexivity|]. split; [reflexivity|].
      exists [code]. split; [reflexivity|]. split; [reflexivity | discriminate].
    - split; [reflexivity|]. split; [reflexivity|].
      exists []. rewrite !app_nil_r. auto. }
  unfold step. destruct (finished k); [exact Hsame|].
  destruct e as [code | | | n]; try apply Hexit.
  destruct (nth_error (waiting k) n); [|exact Hsame].
  cbn [useLocalMode musicStarted waiting played]. exact Hsame.
Qed.

Lemma task_run_keeps (evs : list event) :
  forall k,
    useLocalMode (run evs k) = useLocalMode k
    /\ musicStarted (run evs k) = musicStarted k
    /\ (exists more,
           waiting (run evs k) = (waiting k ++ more)%list
           /\ played (run evs k)
              = (played k ++ repeat (pauseCall (useLocalMode k)) (List.length more))%list
           /\ (musicStarted k = false -> more = [])).
Proof.
  induction evs as [|e evs IH]; intros k.
  - cbn. split; [reflexivity|]. split; [reflexivity|].
    exists []. rewrite !app_nil_r. auto.
  - rewrite task_step_cons.
    destruct (task_step_keeps k e) as (Hl & Hm & more1 & Hw1 & Hp1 & Hn1).
    destruct (IH (step k e)) as (Hl' & Hm' & more2 & Hw2 & Hp2 & Hn2).
    rewrite Hl', Hm', Hl, Hm. split; [reflexivity|]. split; [reflexivity|].
    exists (more1 ++ more2)%list.
    rewrite Hw2, Hw1, Hp2, Hp1, Hl, <- !app_assoc, length_app, repeat_app.
    split; [reflexivity|]. split; [reflexivity|].
    intros Hoff. rewrite (Hn1 Hoff). rewrite Hm in Hn2. rewrite (Hn2 Hoff). reflexivity.
Qed.

(** X20.  [runCommand] pauses only music it has started, and with the
    back end it started it with.  [musicStarted] is set exactly if the play
    call went well: in desktop mode if the player command ended without an
    error, in web mode if [playSpotify] did not throw.  Whatever events
    follow, the calls made after the play are pause calls of the same back
    end, one for each handler that is waiting or has waited for its pause;
    when the music was not started there is none, and the first child exit,
    child error or interrupt ends the process at once. *)
Theorem task_pauses_only_what_it_started
        (h : Host) (t : Times) (file : store)
        (k : Task) (file' : store) (sent0 : list request) :
  begin h t file = Ok (Spawned k file' sent0) ->
  played k = [if useLocalMode k then NativePlay else RemotePlay]
  /\ musicStarted k
     = (if useLocalMode k then ran (execAsync h (Notions.playPayload (os h)))
        else ran (returned (playSpotify file (checked t) (refreshed t)
                              (tokens h) (player h))))
  /\ (forall evs,
         exists n,
           played (run evs k)
           = (played k ++ repeat (pauseCall (useLocalMode k)) n)%list
           /\ (musicStarted k = false -> n = 0%nat))
  /\ (musicStarted k = false ->
      forall code evs,
        finished (run (ChildExit code :: evs) k) = Some (orZero code)
        /\ finished (run (ChildError :: evs) k) = Some 1
        /\ finished (run (Interrupt :: evs) k) = Some 130).
Proof.
  intros Hbegin.
  destruct (begin_cases h t file) as (running & _ & Hcases).
  rewrite Hcases in Hbegin.
  assert (Hfresh : waiting k = [] /\ finished k = None
                   /\ played k = [if useLocalMode k then NativePlay else RemotePlay]
                   /\ musicStarted k
                      = (if useLocalMode k
                         then ran (execAsync h (Notions.playPayload (os h)))
                         else ran (returned (playSpotify file (checked t) (refreshed t)
                                               (tokens h) (player h))))).
  { destruct (negb running && _); [discriminate|].
    destruct running; injection Hbegin as <- _ _; cbn; auto. }
  destruct Hfresh as (Hwait & Hfin & Hplayed & Hstarted).
  split; [exact Hplayed|]. split; [exact Hstarted|]. split.
  - intros evs.
    destruct (task_run_keeps evs k) as (_ & _ & more & _ & Hp & Hn).
    exists (List.length more). split; [exact Hp|].
    intros Hoff. rewrite (Hn Hoff). reflexivity.
  - intros Hoff code evs.
    assert (Hend : forall c rest,
               finished (run rest (pauseThenExit c k)) = Some c).
    { intros c rest.
      assert (Hnow : finished (pauseThenExit c k) = Some c)
        by (unfold pauseThenExit; rewrite Hoff; reflexivity).
      revert Hnow. generalize (pauseThenExit c k). clear.
      induction rest as [|e rest IH]; intros k0 Hnow; [exact Hnow|].
      rewrite task_step_cons. apply IH. unfold step. rewrite Hnow. exact Hnow. }
    rewrite !task_step_cons. unfold step. rewrite Hfin.
    split; [apply Hend|]. split; apply Hend.
Qed.

(** Spotify is running but does not obey: the task is interrupted. *)
Lemma task_pauses_only_what_it_started_witness :
  exists k,
    begin stuckHost noon None = Ok (Spawned k None [])
    /\ musicStarted k = false
    /\ played (run [Interrupt; ChildExit None] k) = [NativePlay]
    /\ finished (run [Interrupt; ChildExit None] k) = Some 130.
Proof.
  destruct (begin stuckHost noon None) as [[code | k file' sent0]|m] eqn:Hbegin;
    try (vm_compute in Hbegin; discriminate).
  destruct (task_pauses_only_what_it_started stuckHost noon None k file' sent0 Hbegin)
    as (Hplayed & Hstarted & Hcalls & Hexit).
  assert (Hshape : useLocalMode k = true /\ file' = None /\ sent0 = []).
  { vm_compute in Hbegin. injection Hbegin as <- <- <-. auto. }
  destruct Hshape as (Hlocal & -> & ->).
  assert (Hoff : musicStarted k = false).
  { rewrite Hstarted, Hlocal. reflexivity. }
  exists k. split; [reflexivity|]. split; [exact Hoff|]. split.
  - destruct (Hcalls [Interrupt; ChildExit None]) as (n & Hn & Hzero).
    rewrite Hn, (Hzero Hoff), Hplayed, Hlocal. reflexivity.
  - apply (Hexit Hoff None [ChildExit None]).
Defined.



End CommandRunner.

(** ** From a hook to the daemon *)

Section Signals.
Import SpotifyNative NativeControl Daemon Cli HookScript DaemonNotions DaemonSamples.
Local Open Scope string_scope.

(** What [main] lets through as a signal. *)
Lemma dispatch_signal (args : list jsstring) (command : jsstring) :
  dispatch args = Signal command ->
  command = units "start" \/ command = units "stop".
Proof.
  unfold dispatch. destruct args as [|first rest]; [discriminate|].
  repeat match goal with
         | |- (if ?b then _ else _) = _ -> _ => destruct b eqn:?; try discriminate
         end.
  destruct (hd_error rest) as [a|]; [|discriminate].
  intros H. injection H as <-.
  cbn [argIs] in *.
  destruct (sameString a (units "start")) eqn:Hstart.
  - left. apply sameString_eq. exact Hstart.
  - destruct (sameString a (units "stop")) eqn:Hstop; [|discriminate].
    right. apply sameString_eq. exact Hstop.
Qed.

(** X22.  The command line, the hook script and the daemon agree on the
    signals.  [tune-in signal] passes on its argument only if it is [start]
    or [stop]; every other argument, and a missing one, ends in a usage
    error before any connection is made.  Whatever it passes on the daemon
    answers with [OK], and a daemon in native mode then has its flag on
    after [start] and off after [stop].  Every invocation the hook script
    makes is such a signal. *)
Theorem signals_agree :
  (forall args command,
      dispatch args = Signal command ->
      (command = units "start" \/ command = units "stop")
      /\ forall h t d,
           snd (onData h t command d) = Some ("OK" ++ Json.nl)
           /\ (mode (state d) = Native ->
               playing (state (fst (onData h t command d)))
               = sameString command (units "start")))
  /\ (forall rest,
         (exists command, dispatch (units "signal" :: rest) = Signal command)
         \/ dispatch (units "signal" :: rest) = UsageError 1)
  /\ (forall hookEvent toolName args,
         invocation hookEvent toolName = Some args ->
         exists command, dispatch args = Signal command).
Proof.
  split; [|split].
  - intros args command Hsig.
    pose proof (dispatch_signal args command Hsig) as Hcmd.
    split; [exact Hcmd|]. intros h t d. split.
    + destruct Hcmd as [-> | ->]; reflexivity.
    + intros Hmode.
      destruct (onData_native h t command d Hmode) as (_ & _ & _ & _ & Hflag & _).
      rewrite Hflag. destruct Hcmd as [-> | ->]; reflexivity.
  - intros rest. unfold dispatch.
    change (sameString (units "signal") (units "help")) with false.
    change (sameString (units "signal") (units "--help")) with false.
    change (sameString (units "signal") (units "-h")) with false.
    change (sameString (units "signal") (units "auth")) with false.
    change (sameString (units "signal") (units "logout")) with false.
    change (sameString (units "signal") (units "daemon")) with false.
    change (sameString (units "signal") (units "signal")) with true.
    cbn [orb].
    destruct (missing (hd_error rest)); [right; reflexivity|].
    destruct (negb _ && negb _); [right; reflexivity|].
    destruct (hd_error rest); [left; eexists; reflexivity | right; reflexivity].
  - intros hookEvent toolName args. unfold invocation.
    repeat match goal with
           | |- (if ?b then _ else _) = _ -> _ => destruct b; try discriminate
           end;
      intros H; injection H as <-; eexists; vm_compute; reflexivity.
Qed.

(** The hook of a Bash tool call, and [tune-in signal pause]. *)
Lemma signals_agree_witness :
  (exists command,
      dispatch [units "signal"; units "start"] = Signal command
      /\ snd (onData deadHost noon command (create 0 None)) = Some ("OK" ++ Json.nl))
  /\ dispatch [units "signal"; units "pause"] = UsageError 1.
Proof.
  destruct signals_agree as (Hsignal & Husage & Hhook).
  split.
  - destruct (Hhook "tool_use:before" "Bash" [units "signal"; units "start"] eq_refl)
      as (command & Hcmd).
    exists command. split; [exact Hcmd|].
    apply (Hsignal _ _ Hcmd).
  - destruct (Husage [units "pause"]) as [(command & Hcmd) | Hcmd]; [|exact Hcmd].
    vm_compute in Hcmd. discriminate.
Defined.

End Signals.
